(** * game.py in Rocq: a provably-fair non-transitive dice game

    A shallow embedding of the classes of [game.py] ([Dice],
    [RandomGenerator], [FairPlay], [ProbabilityCalculator], [CLI],
    [DiceGame]) and of the library calls they make, followed by the
    properties of the commitment protocol, of the range reduction and of
    the win-probability table.

    Conventions.
    - A Python [int] is a [Z]; [//] and [%] are [Z.div] and [Z.modulo]
      (both round towards minus infinity, as Python does) guarded by an
      explicit [ZeroDivisionError].
    - A Python [bytes] is a [list byte]. A Python [str] is a [string], each
      character standing for the code point of its number: the model covers
      the text whose code points are below 256 (Latin-1), and [strip],
      [lower], [isdigit] and [int] do on it what the interpreter does there
      (the no-break space is a blank, superscript two is a digit for
      [isdigit] and not for [int]).
    - [str], [repr] and f-strings refuse to write an [int] of more than
      4300 decimal digits, and [int] to read a numeral of more than 4300
      digits ([sys.get_int_max_str_digits()]): both raise [ValueError]. An
      index produced by [range(len(xs))] is written without that check, a
      list having fewer than [2^63] elements.
    - A Python [float] is a binary64 [float]; the mixed int/float cells of
      the probability table are [pynum]s.
    - Everything that the interpreter keeps outside the program text (the
      state of the [random] module, the operating system's entropy pool, the
      two standard streams) is a field of [World], threaded through a small
      state-and-exception monad [M]. *)

From Stdlib Require Import ZArith Lia List String Ascii Strings.Byte.
From Stdlib Require Import DecimalString DecimalZ DecimalPos Floats Uint63.
From stdpp Require Import base list strings.
Import ListNotations.

Local Open Scope Z_scope.

(** ** Python values and library functions *)

Module Py.

(** The exceptions that the modelled code can raise. *)
Inductive exn : Type :=
| ValueError (msg : string)
| ZeroDivisionError
| IndexError
| AttributeError
| EOFError
| SystemExit (code : Z).

(** Outcome of a call: a value, an exception, or [Timeout] when the
    iteration budget of a [while True] loop is used up before it returns. *)
Inductive result (A : Type) : Type :=
| Ret (a : A)
| Raise (e : exn)
| Timeout.
Arguments Ret {A} a.
Arguments Raise {A} e.
Arguments Timeout {A}.

(** A cell of the probability table: the int [0] it is initialised with,
    or the float that [win_count / 36] produces. *)
Inductive pynum : Type :=
| PyInt (z : Z)
| PyFloat (f : float).

(** What the program writes: a [print]ed line, the prompt of an [input]
    call, or one row of the help table ([f"{prob:.2f}"] applied to every
    cell of [row]; the row is kept unformatted). *)
Inductive output : Type :=
| Line (s : string)
| Prompt (s : string)
| HelpRow (i : nat) (row : list pynum).

(** The interpreter's ambient state.
    [mt_tape], [mt_pos]: the bytes that the [random] module's generator
    (a Mersenne Twister seeded at start-up) will output and how many of them
    were consumed. [os_entropy]: the operating system's entropy pool
    ([os.urandom], [secrets]). [stdin]: the lines still to be read.
    [stdout]: what was written, oldest first. *)
Record World : Type := mkWorld {
  mt_tape : nat -> byte;
  mt_pos : nat;
  os_entropy : nat -> byte;
  stdin : list string;
  stdout : list output
}.

Definition M (A : Type) : Type := World -> result A * World.

Definition ret {A} (a : A) : M A := fun w => (Ret a, w).

Definition bind {A B} (m : M A) (k : A -> M B) : M B :=
  fun w =>
    match m w with
    | (Ret a, w') => k a w'
    | (Raise e, w') => (Raise e, w')
    | (Timeout, w') => (Timeout, w')
    end.

Definition raise {A} (e : exn) : M A := fun w => (Raise e, w).

Definition timeout {A} : M A := fun w => (Timeout, w).

(** A computation that does not touch the world. *)
Definition lift {A} (r : result A) : M A := fun w => (r, w).

Definition emit (o : output) : M unit :=
  fun w => (Ret tt, mkWorld (mt_tape w) (mt_pos w) (os_entropy w) (stdin w)
                            (stdout w ++ [o])).

(** [print(s)] *)
Definition print (s : string) : M unit := emit (Line s).

(** [input(prompt)]: writes the prompt, then reads one line; [EOFError] at
    the end of the input. *)
Definition input (prompt : string) : M string :=
  fun w =>
    let out := stdout w ++ [Prompt prompt] in
    match stdin w with
    | [] => (Raise EOFError,
             mkWorld (mt_tape w) (mt_pos w) (os_entropy w) [] out)
    | l :: rest => (Ret l,
             mkWorld (mt_tape w) (mt_pos w) (os_entropy w) rest out)
    end.

(** [sys.exit(code)] *)
Definition sys_exit {A} (code : Z) : M A := raise (SystemExit code).

(** [a // b] and [a % b] on ints. *)
Definition floordiv (a b : Z) : result Z :=
  if b =? 0 then Raise ZeroDivisionError else Ret (a / b).

Definition mod_ (a b : Z) : result Z :=
  if b =? 0 then Raise ZeroDivisionError else Ret (a mod b).

(** [a / b] on two ints that a binary64 float represents exactly (all
    counts of the probability table are at most 36): the correctly rounded
    quotient. *)
Definition truediv (a b : Z) : float :=
  (PrimFloat.of_uint63 (Uint63.of_Z a) / PrimFloat.of_uint63 (Uint63.of_Z b))%float.

(** Sequencing of two calls that touch no state. *)
Definition and_then {A B} (r : result A) (k : A -> result B) : result B :=
  match r with
  | Ret a => k a
  | Raise e => Raise e
  | Timeout => Timeout
  end.

(** The decimal numeral of an int, with a leading [-] when negative, and
    the number of its digits. *)
Definition decimal (n : Z) : string := NilZero.string_of_int (Z.to_int n).

Definition decimal_digits (z : Z) : nat := String.length (decimal (Z.abs z)).

(** The interpreter's default limit on the digits of a decimal numeral
    ([sys.get_int_max_str_digits()]). *)
Definition int_max_str_digits : nat := 4300.

(** [str(n)], [repr(n)] and [f"{n}"] for an int: its decimal numeral, or
    [ValueError] when it has more digits than the limit. *)
Definition str_limit_error : exn :=
  ValueError "Exceeds the limit (4300 digits) for integer string conversion; use sys.set_int_max_str_digits() to increase the limit".

Definition str (n : Z) : result string :=
  if (int_max_str_digits <? decimal_digits n)%nat then Raise str_limit_error
  else Ret (decimal n).

(** [s.encode()] on ASCII text, such as a decimal numeral. *)
Definition encode (s : string) : list byte := list_byte_of_string s.

Definition byte_to_Z (b : byte) : Z := Z.of_N (Byte.to_N b).

Definition byte_of_Z (z : Z) : byte :=
  match Byte.of_N (Z.to_N (z mod 256)) with
  | Some b => b
  | None => x00
  end.

(** [int.from_bytes(bs, 'big')] *)
Definition int_from_bytes_big (bs : list byte) : Z :=
  fold_left (fun acc b => acc * 256 + byte_to_Z b) bs 0.

(** One lowercase hexadecimal digit, for [0 <= n < 16]. *)
Definition hex_digit (n : Z) : ascii :=
  if n <? 10 then ascii_of_N (Z.to_N (48 + n))
  else ascii_of_N (Z.to_N (87 + n)).

Definition hex_of_byte (b : byte) : list ascii :=
  [hex_digit (byte_to_Z b / 16); hex_digit (byte_to_Z b mod 16)].

(** [bs.hex()], and [hexdigest()] of a hash whose digest is [bs]. *)
Definition hex (bs : list byte) : string :=
  string_of_list_ascii (flat_map hex_of_byte bs).

(** [random.randbytes(n)]: the next [n] bytes of the generator. *)
Definition randbytes (n : Z) : M (list byte) :=
  fun w =>
    if n <? 0 then
      (Raise (ValueError "number of bits must be non-negative"), w)
    else
      (Ret (map (mt_tape w) (seq (mt_pos w) (Z.to_nat n))),
       mkWorld (mt_tape w) (mt_pos w + Z.to_nat n)%nat (os_entropy w)
               (stdin w) (stdout w)).

(** [random.choice(seq)]: [IndexError] on an empty sequence. Which element
    comes out is the generator's decision; the model reads one byte of the
    tape and reduces it modulo [len(seq)] (the library's bit-level
    procedure is not reproduced). *)
Definition random_choice {A} (xs : list A) : M A :=
  fun w =>
    let i := (Z.to_nat (byte_to_Z (mt_tape w (mt_pos w))) mod length xs)%nat in
    match xs !! i with
    | None => (Raise IndexError, w)
    | Some x =>
        (Ret x, mkWorld (mt_tape w) (S (mt_pos w)) (os_entropy w)
                        (stdin w) (stdout w))
    end.

(** [xs[i]] *)
Definition getitem {A} (xs : list A) (i : Z) : result A :=
  let j := if i <? 0 then i + Z.of_nat (length xs) else i in
  if j <? 0 then Raise IndexError
  else match xs !! Z.to_nat j with
       | Some x => Ret x
       | None => Raise IndexError
       end.

(** [xs.remove(x)]: drops the first occurrence. *)
Fixpoint list_remove (x : Z) (xs : list Z) : result (list Z) :=
  match xs with
  | [] => Raise (ValueError "list.remove(x): x not in list")
  | y :: ys =>
      if y =? x then Ret ys
      else match list_remove x ys with
           | Ret ys' => Ret (y :: ys')
           | other => other
           end
  end.

(** [x in xs] on strings and on ints. *)
Definition str_in (x : string) (xs : list string) : bool :=
  existsb (String.eqb x) xs.

Definition int_in (x : Z) (xs : list Z) : bool :=
  existsb (Z.eqb x) xs.

(** [c.isspace()] for a code point below 256: what [strip] removes. *)
Definition is_space (c : ascii) : bool :=
  let n := nat_of_ascii c in
  ((9 <=? n) && (n <=? 13) || (28 <=? n) && (n <=? 32) ||
   (n =? 133) || (n =? 160))%nat.

Fixpoint lstrip (cs : list ascii) : list ascii :=
  match cs with
  | [] => []
  | c :: rest => if is_space c then lstrip rest else cs
  end.

(** [s.strip()] *)
Definition strip (s : string) : string :=
  string_of_list_ascii
    (rev (lstrip (rev (lstrip (list_ascii_of_string s))))).

(** [c.lower()] for a code point below 256: the letters [A]-[Z] and the
    accented capitals 192-222, the multiplication sign 215 apart. *)
Definition lower_char (c : ascii) : ascii :=
  let n := nat_of_ascii c in
  if ((65 <=? n) && (n <=? 90) ||
      (192 <=? n) && (n <=? 222) && negb (n =? 215))%nat
  then ascii_of_nat (n + 32) else c.

(** [s.lower()] *)
Definition lower (s : string) : string :=
  string_of_list_ascii (map lower_char (list_ascii_of_string s)).

(** The decimal digits [0]-[9]. *)
Definition is_digit_char (c : ascii) : bool :=
  let n := nat_of_ascii c in ((48 <=? n) && (n <=? 57))%nat.

(** [c.isdigit()] for a code point below 256: the decimal digits and the
    superscripts two, three and one. *)
Definition isdigit_char (c : ascii) : bool :=
  let n := nat_of_ascii c in
  (is_digit_char c || (n =? 178) || (n =? 179) || (n =? 185))%nat.

(** [s.isdigit()] *)
Definition isdigit (s : string) : bool :=
  match list_ascii_of_string s with
  | [] => false
  | cs => forallb isdigit_char cs
  end.

(** The characters that [int] skips around a numeral: the ASCII blanks and,
    turned into spaces before the numeral is read, the two other blanks
    below 256. *)
Definition is_int_space (c : ascii) : bool :=
  let n := nat_of_ascii c in
  ((9 <=? n) && (n <=? 13) || (n =? 32) || (n =? 133) || (n =? 160))%nat.

Fixpoint skip_int_spaces (cs : list ascii) : list ascii :=
  match cs with
  | [] => []
  | c :: rest => if is_int_space c then skip_int_spaces rest else cs
  end.

(** Digits with single underscores between them: [after_underscore] says
    that the previous character was an underscore (or that there was
    none yet). *)
Fixpoint digits_ok (after_underscore : bool) (cs : list ascii) : bool :=
  match cs with
  | [] => negb after_underscore
  | c :: rest =>
      if is_digit_char c then digits_ok false rest
      else if Ascii.eqb c "_" then negb after_underscore && digits_ok true rest
      else false
  end.

(** The value of [int(s)], [None] where [int] raises [ValueError]: blanks
    around, an optional sign, then digits with single underscores between
    them, at most [int_max_str_digits] digits. *)
Definition int_literal (s : string) : option Z :=
  let cs :=
    rev (skip_int_spaces (rev (skip_int_spaces (list_ascii_of_string s)))) in
  let negative :=
    match cs with
    | c :: _ => Ascii.eqb c "-"
    | [] => false
    end in
  let body :=
    match cs with
    | c :: rest => if Ascii.eqb c "-" || Ascii.eqb c "+" then rest else cs
    | [] => []
    end in
  if digits_ok true body then
    let ds := List.filter is_digit_char body in
    if (int_max_str_digits <? length ds)%nat then None
    else
      match NilEmpty.uint_of_string (string_of_list_ascii ds) with
      | Some d => Some (if negative then - Z.of_uint d else Z.of_uint d)
      | None => None
      end
  else None.

(** [int(s)]; the message of the [ValueError], which quotes the text, is
    cut short. *)
Definition int_of_str (s : string) : result Z :=
  match int_literal s with
  | Some z => Ret z
  | None => Raise (ValueError "invalid literal for int() with base 10")
  end.

(** [list(map(int, fields))]: the first field that [int] refuses raises
    [ValueError]; [int_error] gives the interpreter's wording of its
    message. *)
Fixpoint ints (int_error : string -> string) (fields : list string)
  : result (list Z) :=
  match fields with
  | [] => Ret []
  | field :: rest =>
      match int_literal field with
      | None => Raise (ValueError (int_error field))
      | Some z =>
          match ints int_error rest with
          | Ret zs => Ret (z :: zs)
          | other => other
          end
      end
  end.

(** [sep.join(parts)] *)
Definition join (sep : string) (parts : list string) : string :=
  String.concat sep parts.

(** The numerals of a list of ints, written from left to right: the first
    one that [str] refuses raises. *)
Fixpoint strs (xs : list Z) : result (list string) :=
  match xs with
  | [] => Ret []
  | x :: rest =>
      and_then (str x) (fun s =>
      and_then (strs rest) (fun ss => Ret (s :: ss)))
  end.

(** [repr(xs)], and [f"{xs}"], of a list of ints. *)
Definition repr_list (xs : list Z) : result string :=
  and_then (strs xs) (fun ss => Ret ("[" +:+ join ", " ss +:+ "]")).

Definition newline : string := String (ascii_of_nat 10) EmptyString.

(** [s.split(sep)] for a separator of one character. *)
Fixpoint split_chars (sep : ascii) (cs : list ascii) : list (list ascii) :=
  match cs with
  | [] => [[]]
  | c :: rest =>
      if Ascii.eqb c sep then [] :: split_chars sep rest
      else match split_chars sep rest with
           | field :: fields => (c :: field) :: fields
           | [] => [[c]]
           end
  end.

Definition split (sep : ascii) (s : string) : list string :=
  map string_of_list_ascii (split_chars sep (list_ascii_of_string s)).

End Py.
Import Py.

Notation "x <- m ;; k" := (bind m (fun x => k))
  (at level 100, m at next level, right associativity).
Notation "m ;;; k" := (bind m (fun _ => k))
  (at level 100, right associativity).

(** ** hashlib.sha3_256 (FIPS 202) *)

Module Keccak.

Definition mask64 : Z := 0xFFFFFFFFFFFFFFFF.

Definition rotl64 (x : Z) (n : Z) : Z :=
  Z.land (Z.lor (Z.shiftl x n) (Z.shiftr x (64 - n))) mask64.

(** The state is a list of 25 lanes; lane [(x, y)] sits at [x + 5 * y]. *)
Definition lane (A : list Z) (i : nat) : Z := nth i A 0.

Definition round_constants : list Z :=
  [0x0000000000000001; 0x0000000000008082; 0x800000000000808A;
   0x8000000080008000; 0x000000000000808B; 0x0000000080000001;
   0x8000000080008081; 0x8000000000008009; 0x000000000000008A;
   0x0000000000000088; 0x0000000080008009; 0x000000008000000A;
   0x000000008000808B; 0x800000000000008B; 0x8000000000008089;
   0x8000000000008003; 0x8000000000008002; 0x8000000000000080;
   0x000000000000800A; 0x800000008000000A; 0x8000000080008081;
   0x8000000000008080; 0x0000000080000001; 0x8000000080008008].

Definition rotation_offsets : list Z :=
  [ 0;  1; 62; 28; 27;
   36; 44;  6; 55; 20;
    3; 10; 43; 25; 39;
   41; 45; 15; 21;  8;
   18;  2; 61; 56; 14].

Definition theta (A : list Z) : list Z :=
  let C x := Z.lxor (lane A x) (Z.lxor (lane A (x + 5)) (Z.lxor (lane A (x + 10))
               (Z.lxor (lane A (x + 15)) (lane A (x + 20))))) in
  let D x := Z.lxor (C ((x + 4) mod 5)%nat) (rotl64 (C ((x + 1) mod 5)%nat) 1) in
  map (fun i => Z.lxor (lane A i) (D (i mod 5)%nat)) (seq 0 25).

(** rho and pi together: lane [(x, y)] is rotated and moved to
    [(y, 2x + 3y)]; read from the destination [(X, Y)], the source is
    [x = X + 3Y], [y = X]. *)
Definition rho_pi (A : list Z) : list Z :=
  map (fun i =>
         let X := (i mod 5)%nat in
         let Y := (i / 5)%nat in
         let src := (((X + 3 * Y) mod 5) + 5 * X)%nat in
         rotl64 (lane A src) (nth src rotation_offsets 0))
      (seq 0 25).

Definition chi (B : list Z) : list Z :=
  map (fun i =>
         let x := (i mod 5)%nat in
         let y := (i / 5)%nat in
         Z.lxor (lane B i)
                (Z.land (Z.lxor (lane B ((x + 1) mod 5 + 5 * y)%nat) mask64)
                        (lane B ((x + 2) mod 5 + 5 * y)%nat)))
      (seq 0 25).

Definition iota (rc : Z) (A : list Z) : list Z :=
  match A with
  | [] => []
  | a :: rest => Z.lxor a rc :: rest
  end.

Definition keccak_round (A : list Z) (rc : Z) : list Z :=
  iota rc (chi (rho_pi (theta A))).

Definition keccak_f (A : list Z) : list Z :=
  fold_left keccak_round round_constants A.

(** Rate of SHA3-256 in bytes (and the block size that [hmac] sees). *)
Definition rate : nat := 136.

(** Little-endian value of a group of bytes. *)
Definition le_value (bs : list Z) : Z :=
  fold_right (fun b acc => b + 256 * acc) 0 bs.

(** The [i]-th 64-bit lane of a block. *)
Definition block_lane (block : list Z) (i : nat) : Z :=
  le_value (firstn 8 (skipn (8 * i) block)).

Definition absorb_block (A : list Z) (block : list Z) : list Z :=
  keccak_f (map (fun i => Z.lxor (lane A i) (block_lane block i)) (seq 0 25)).

Fixpoint absorb (nblocks : nat) (data : list Z) (A : list Z) : list Z :=
  match nblocks with
  | O => A
  | S n => absorb n (skipn rate data) (absorb_block A (firstn rate data))
  end.

(** The SHA-3 suffix [01] followed by pad10*1, as bytes. *)
Definition pad (len : nat) : list Z :=
  let q := (rate - len mod rate)%nat in
  if (q =? 1)%nat then [0x86]
  else 0x06 :: repeat 0 (q - 2) ++ [0x80].

Definition squeeze_byte (A : list Z) (i : nat) : byte :=
  byte_of_Z (Z.land (Z.shiftr (lane A (i / 8)) (8 * Z.of_nat (i mod 8))) 255).

(** [hashlib.sha3_256(m).digest()] *)
Definition sha3_256 (m : list byte) : list byte :=
  let data := map byte_to_Z m ++ pad (length m) in
  let A := absorb (length data / rate) data (repeat 0 25) in
  map (squeeze_byte A) (seq 0 32).

End Keccak.

(** ** hmac (Lib/hmac.py) over a hashlib digest *)

Module Hmac.

(** A hashlib object: the bytes fed to it so far. *)
Record hash_obj : Type := mkHash { fed : list byte }.

Definition update (h : hash_obj) (data : list byte) : hash_obj :=
  mkHash (fed h ++ data).

Definition digest (h : hash_obj) : list byte := Keccak.sha3_256 (fed h).

Definition block_size : nat := Keccak.rate.

Definition translate (pad_byte : Z) (key : list byte) : list byte :=
  map (fun b => byte_of_Z (Z.lxor (byte_to_Z b) pad_byte)) key.

(** [key.ljust(n, b'\0')] *)
Definition ljust (n : nat) (key : list byte) : list byte :=
  key ++ repeat x00 (n - length key).

Record t : Type := mkHMAC { inner : hash_obj; outer : hash_obj }.

(** [hmac.new(key, msg, hashlib.sha3_256)] *)
Definition new (key msg : list byte) : t :=
  let key1 :=
    if (block_size <? length key)%nat then Keccak.sha3_256 key else key in
  let key2 := ljust block_size key1 in
  let outer0 := update (mkHash []) (translate 0x5C key2) in
  let inner0 := update (mkHash []) (translate 0x36 key2) in
  mkHMAC (update inner0 msg) outer0.

Definition hexdigest (h : t) : string :=
  hex (digest (update (outer h) (digest (inner h)))).

End Hmac.

(** ** class Dice *)

Module Dice.

Record t : Type := mk { faces : list Z }.

(** [Dice.__init__] *)
Definition init (faces : list Z) : result t :=
  if (length faces =? 6)%nat then Ret (mk faces)
  else Raise (ValueError "Each dice must have exactly 6 faces.").

(** [Dice.roll] *)
Definition roll (self : t) : M Z := random_choice (faces self).

End Dice.

(** ** class RandomGenerator *)

Module RandomGenerator.

Definition generate_secure_random (bits : Z) : M (list byte) :=
  randbytes (bits / 8).

(** The [while True] loop runs for at most [fuel] draws. *)
Fixpoint generate_random_int (fuel : nat) (range_max : Z) : M Z :=
  match fuel with
  | O => timeout
  | S fuel' =>
      bs <- generate_secure_random 256 ;;
      let rand := int_from_bytes_big bs in
      q <- lift (floordiv (2 ^ 256) range_max) ;;
      if rand <? q * range_max then lift (mod_ rand range_max)
      else generate_random_int fuel' range_max
  end.

Definition calculate_hmac (key : list byte) (message : Z) : result string :=
  and_then (str message) (fun numeral =>
  Ret (Hmac.hexdigest (Hmac.new key (encode numeral)))).

(** The methods that the class defines. *)
Definition methods : list string :=
  ["generate_secure_random"; "generate_random_int"; "calculate_hmac"].

End RandomGenerator.

(** ** class FairPlay *)

Module FairPlay.

Record t : Type := mk {
  range_max : Z;
  secret_key : list byte;
  computer_number : Z;
  hmac : string
}.

(** [FairPlay.__init__] *)
Definition init (fuel : nat) (range_max : Z) : M t :=
  secret_key <- RandomGenerator.generate_secure_random 256 ;;
  computer_number <- RandomGenerator.generate_random_int fuel range_max ;;
  hmac <- lift (RandomGenerator.calculate_hmac secret_key computer_number) ;;
  ret (mk range_max secret_key computer_number hmac).

Definition verify_and_get_result (self : t) (user_number : Z)
  : result (Z * list byte) :=
  match mod_ (computer_number self + user_number) (range_max self) with
  | Ret result => Ret (result, secret_key self)
  | Raise e => Raise e
  | Timeout => Timeout
  end.

Definition methods : list string := ["__init__"; "verify_and_get_result"].

End FairPlay.

(** ** class ProbabilityCalculator *)

Module ProbabilityCalculator.

(** [dice_list[i].faces] for an index of [range(n)]. *)
Definition faces_at (dice_list : list Dice.t) (i : nat) : list Z :=
  match dice_list !! i with
  | Some d => Dice.faces d
  | None => []
  end.

(** The two innermost loops: [win_count] after all face pairs. *)
Definition count_wins (faces_i faces_j : list Z) : Z :=
  fold_left
    (fun win_count face_i =>
       fold_left
         (fun win_count face_j =>
            if face_i >? face_j then win_count + 1 else win_count)
         faces_j win_count)
    faces_i 0.

(** [probabilities[i][j] = v] *)
Definition setitem2 (probabilities : list (list pynum)) (i j : nat) (v : pynum)
  : list (list pynum) :=
  alter (fun row => <[j := v]> row) i probabilities.

Definition calculate_win_probabilities (dice_list : list Dice.t)
  : list (list pynum) :=
  let n := length dice_list in
  let probabilities := replicate n (replicate n (PyInt 0)) in
  fold_left
    (fun probabilities i =>
       fold_left
         (fun probabilities j =>
            if negb (i =? j)%nat then
              let win_count :=
                count_wins (faces_at dice_list i) (faces_at dice_list j) in
              setitem2 probabilities i j (PyFloat (truediv win_count 36))
            else probabilities)
         (seq 0 n) probabilities)
    (seq 0 n) probabilities.

End ProbabilityCalculator.

(** ** class CLI *)

Module CLI.

Fixpoint print_rows (i : nat) (rows : list (list pynum)) : M unit :=
  match rows with
  | [] => ret tt
  | row :: rest => emit (HelpRow i row) ;;; print_rows (S i) rest
  end.

Definition display_help (dice_list : list Dice.t) : M unit :=
  let probabilities :=
    ProbabilityCalculator.calculate_win_probabilities dice_list in
  let n := length dice_list in
  print (newline +:+ "Probability Table (Row dice beats Column dice):") ;;;
  print ("   " +:+
         join " " (map (fun i => "Dice " +:+ decimal (Z.of_nat i)) (seq 0 n))) ;;;
  print_rows 0 probabilities.

Definition display_error (message : string) : M unit :=
  print ("Error: " +:+ message) ;;;
  print "Usage: python game.py dice1,dice2,dice3,..." ;;;
  print "Each dice must have 6 comma-separated integers, e.g., 2,2,4,4,9,9.".

End CLI.

(** ** class DiceGame *)

Module DiceGame.

(** [user_turn_first] does not exist until [start_game] sets it. *)
Record t : Type := mk {
  dice_list : list Dice.t;
  user_turn_first : option bool
}.

(** The list comprehension of [__init__]: one die after the other, the
    first failure ending it. *)
Fixpoint dice_of_config (int_error : string -> string)
    (dice_config : list string) : result (list Dice.t) :=
  match dice_config with
  | [] => Ret []
  | dice :: rest =>
      match ints int_error (split "," dice) with
      | Ret faces =>
          match Dice.init faces with
          | Ret d =>
              match dice_of_config int_error rest with
              | Ret ds => Ret (d :: ds)
              | other => other
              end
          | Raise e => Raise e
          | Timeout => Timeout
          end
      | Raise e => Raise e
      | Timeout => Timeout
      end
  end.

(** [DiceGame.__init__] *)
Definition init (int_error : string -> string) (dice_config : list string)
  : M t :=
  match dice_of_config int_error dice_config with
  | Ret dice => ret (mk dice None)
  | Raise (ValueError msg) => CLI.display_error msg ;;; sys_exit 1
  | Raise e => raise e
  | Timeout => timeout
  end.

(** A [while True] loop whose every iteration starts with
    [input(prompt)]: [body] returns [Some a] to leave the loop with [a] and
    [None] to go round again. Each iteration reads a line, so the loop
    makes at most one iteration more than there are lines. *)
Fixpoint prompt_loop_n {A} (n : nat) (prompt : string)
    (body : string -> M (option A)) : M A :=
  match n with
  | O => timeout
  | S n' =>
      line <- input prompt ;;
      r <- body line ;;
      match r with
      | Some a => ret a
      | None => prompt_loop_n n' prompt body
      end
  end.

Definition prompt_loop {A} (prompt : string) (body : string -> M (option A))
  : M A :=
  fun w => prompt_loop_n (S (length (stdin w))) prompt body w.

(** The loop that prints the dice on offer: the f-string writes [i]
    before it looks [dice_list[i]] up. *)
Fixpoint print_available (self : t) (available_dice : list Z) : M unit :=
  match available_dice with
  | [] => ret tt
  | i :: rest =>
      index <- lift (str i) ;;
      d <- lift (getitem (dice_list self) i) ;;
      faces <- lift (repr_list (Dice.faces d)) ;;
      print (index +:+ " - " +:+ faces) ;;;
      print_available self rest
  end.

(** The body of the loop of [user_choose_dice]: [int(choice)] is called on
    every line that [isdigit] accepts, and what it raises escapes. *)
Definition choice_body (self : t) (available_dice : list Z) (choice : string)
  : M (option (list Z)) :=
  chosen <- lift (if isdigit choice then
                    and_then (int_of_str choice) (fun c =>
                    Ret (if int_in c available_dice then Some c else None))
                  else Ret None) ;;
  match chosen with
  | Some chosen_dice =>
      d <- lift (getitem (dice_list self) chosen_dice) ;;
      faces <- lift (repr_list (Dice.faces d)) ;;
      print ("You chose " +:+ faces +:+ ".") ;;;
      rest <- lift (list_remove chosen_dice available_dice) ;;
      ret (Some rest)
  | None =>
      if String.eqb (lower choice) "?" then
        CLI.display_help (dice_list self) ;;; ret None
      else if String.eqb (lower choice) "x" then
        print "Exiting game." ;;; sys_exit 0
      else
        print "Invalid selection. Try again." ;;; ret None
  end.

(** Returns [available_dice] as the call leaves it. *)
Definition user_choose_dice (self : t) (available_dice : list Z)
  : M (list Z) :=
  print "Choose your dice:" ;;;
  print_available self available_dice ;;;
  prompt_loop "Your selection: " (choice_body self available_dice).

Definition computer_choose_dice (self : t) (available_dice : list Z)
  : M (list Z) :=
  chosen_dice <- random_choice available_dice ;;
  d <- lift (getitem (dice_list self) chosen_dice) ;;
  faces <- lift (repr_list (Dice.faces d)) ;;
  print ("I choose " +:+ faces +:+ ".") ;;;
  lift (list_remove chosen_dice available_dice).

Definition throw_options : list string := ["0"; "1"; "2"; "3"; "4"; "5"].

(** The body of the [while True] loop of [get_throw]. *)
Definition selection_body (self : t) (line : string) : M (option string) :=
  let user_input := lower (strip line) in
  if String.eqb user_input "x" then
    print "Exiting game." ;;; sys_exit 0
  else if String.eqb user_input "?" then
    CLI.display_help (dice_list self) ;;; ret None
  else if str_in user_input throw_options then
    ret (Some user_input)
  else
    print "Invalid input. Please select a number between 0 and 5, or type '?' for help." ;;;
    ret None.

(** The loop of [get_throw]: it ends with a line that, once stripped and
    lowered, is one of [throw_options]. *)
Definition get_throw_selection (self : t) : M string :=
  prompt_loop "Your selection: " (selection_body self).

(** The rest of [get_throw], after the loop. *)
Definition get_throw_reveal (self : t) (fair_play : FairPlay.t)
    (user_input : string) (player : string) : M Z :=
  user_number <- lift (int_of_str user_input) ;;
  let computer_number := FairPlay.computer_number fair_play in
  let result := (user_number + computer_number) mod 6 in
  c <- lift (str computer_number) ;;
  print ("My number is " +:+ c +:+ " (KEY=" +:+
         hex (FairPlay.secret_key fair_play) +:+ ").") ;;;
  u <- lift (str user_number) ;;
  r <- lift (str result) ;;
  print ("The result is " +:+ c +:+ " + " +:+ u +:+ " = " +:+ r +:+
         " (mod 6).") ;;;
  d <- lift (getitem (dice_list self)
                     (if String.eqb player "user" then 0 else 1)) ;;
  throw <- random_choice (Dice.faces d) ;;
  t <- lift (str throw) ;;
  print ((if String.eqb player "user" then "Your" else "My") +:+
         " throw is " +:+ t +:+ ".") ;;;
  ret throw.

Definition get_throw (fuel : nat) (self : t) (player : string) : M Z :=
  fair_play <- FairPlay.init fuel 6 ;;
  print ("I selected a random value in the range 0..5 (HMAC=" +:+
         FairPlay.hmac fair_play +:+ ").") ;;;
  print "Add your number modulo 6." ;;;
  print ("0 - 0" +:+ newline +:+ "1 - 1" +:+ newline +:+ "2 - 2" +:+ newline +:+
         "3 - 3" +:+ newline +:+ "4 - 4" +:+ newline +:+ "5 - 5" +:+ newline +:+
         "X - exit" +:+ newline +:+ "? - help") ;;;
  user_input <- get_throw_selection self ;;
  get_throw_reveal self fair_play user_input player.

Definition play_throws (fuel : nat) (self : t) : M unit :=
  user_throw <- get_throw fuel self "user" ;;
  computer_throw <- get_throw fuel self "computer" ;;
  if user_throw >? computer_throw then
    u <- lift (str user_throw) ;;
    c <- lift (str computer_throw) ;;
    print ("You win (" +:+ u +:+ " > " +:+ c +:+ ")!")
  else if user_throw <? computer_throw then
    c <- lift (str computer_throw) ;;
    u <- lift (str user_throw) ;;
    print ("I win (" +:+ c +:+ " > " +:+ u +:+ ")!")
  else
    print "It's a tie!".

Definition play_game (fuel : nat) (self : t) : M unit :=
  let available_dice :=
    map Z.of_nat (seq 0 (length (dice_list self))) in
  match user_turn_first self with
  | None => raise AttributeError
  | Some true =>
      available_dice <- user_choose_dice self available_dice ;;
      _ <- computer_choose_dice self available_dice ;;
      print "It's time for the game!" ;;;
      play_throws fuel self
  | Some false =>
      available_dice <- computer_choose_dice self available_dice ;;
      _ <- user_choose_dice self available_dice ;;
      print "It's time for the game!" ;;;
      play_throws fuel self
  end.

Definition start_game (fuel : nat) (self : t) : M unit :=
  fair_play <- FairPlay.init fuel 2 ;;
  print ("I selected a random value in the range 0..1 (HMAC=" +:+
         FairPlay.hmac fair_play +:+ ").") ;;;
  user_input <- input "Try to guess my selection (0 or 1): " ;;
  if negb (str_in user_input ["0"; "1"]) then
    print "Invalid input. Exiting." ;;; sys_exit 1
  else
    user_number <- lift (int_of_str user_input) ;;
    rk <- lift (FairPlay.verify_and_get_result fair_play user_number) ;;
    let result := fst rk in
    let key := snd rk in
    c <- lift (str (FairPlay.computer_number fair_play)) ;;
    print ("My selection: " +:+ c +:+ " (KEY=" +:+ hex key +:+ ")") ;;;
    if result =? 0 then
      print "You make the first move!" ;;;
      play_game fuel (mk (dice_list self) (Some true))
    else
      print "I make the first move!" ;;;
      play_game fuel (mk (dice_list self) (Some false)).

End DiceGame.

(** ** The script ([if __name__ == "__main__"]) *)

(** [argv] is [sys.argv]: the name of the script, then the arguments. *)
Definition main (int_error : string -> string) (fuel : nat)
    (argv : list string) : M unit :=
  if (length argv <? 4)%nat then
    CLI.display_error "At least 3 dice configurations are required." ;;;
    sys_exit 1
  else
    game <- DiceGame.init int_error (tail argv) ;;
    DiceGame.start_game fuel game.

(** ** Vocabulary of the properties *)

(** The integers of [[0, R)], in increasing order. *)
Definition residues (R : Z) : list Z := map Z.of_nat (seq 0 (Z.to_nat R)).

(** How many elements of [l] satisfy [p]. *)
Definition count {A} (p : A -> bool) (l : list A) : nat :=
  length (List.filter p l).

(** The combine step seen as a map of the committed value: the first
    component of what [verify_and_get_result] returns for a round with
    modulus [R], committed value [v], any key and digest, and contribution
    [c]. *)
Definition combine (R : Z) (key : list byte) (digest : string) (c v : Z)
  : option Z :=
  match FairPlay.verify_and_get_result (FairPlay.mk R key v digest) c with
  | Ret (r, _) => Some r
  | _ => None
  end.

Definition option_is (r : Z) (o : option Z) : bool :=
  match o with
  | Some x => x =? r
  | None => false
  end.

(** The bytewise exclusive or of two byte strings of one length. *)
Definition xor_bytes (a b : list byte) : list byte :=
  map (fun p => byte_of_Z (Z.lxor (byte_to_Z (fst p)) (byte_to_Z (snd p))))
      (List.combine a b).

(** HMAC as RFC 2104 writes it, over SHA3-256 ([B] = 136, the byte length
    of a block): [H(K xor opad, H(K xor ipad, text))], where [ipad] is the
    byte [0x36] repeated [B] times, [opad] the byte [0x5C] repeated [B]
    times, and [K] the key, hashed first when longer than [B], with zeros
    appended to make [B] bytes. *)
Definition hmac_sha3_256 (key text : list byte) : list byte :=
  let B := 136%nat in
  let ipad := repeat x36 B in
  let opad := repeat x5c B in
  let K0 := if (B <? length key)%nat then Keccak.sha3_256 key else key in
  let K := K0 ++ repeat x00 (B - length K0) in
  Keccak.sha3_256 (xor_bytes K opad ++ Keccak.sha3_256 (xor_bytes K ipad ++ text)).

(** The characters of lowercase hexadecimal. *)
Definition is_lower_hex (c : ascii) : bool :=
  existsb (Ascii.eqb c) (list_ascii_of_string "0123456789abcdef").

(** The entry [(i, j)] of a table, when it exists. *)
Definition cell (table : list (list pynum)) (i j : nat) : option pynum :=
  match table !! i with
  | Some row => row !! j
  | None => None
  end.

(** The ordered face pairs of two dice, and the number of them in which
    the first face strictly exceeds the second. *)
Definition face_pairs (d1 d2 : Dice.t) : list (Z * Z) :=
  list_prod (Dice.faces d1) (Dice.faces d2).

Definition wins (d1 d2 : Dice.t) : Z :=
  Z.of_nat (count (fun p => snd p <? fst p) (face_pairs d1 d2)).

(** A line typed at the prompt of [get_throw] that makes it ask again
    (anything but an exit request or one of the six numbers), and a line
    that it takes as the contribution. *)
Definition reprompts (line : string) : bool :=
  let user_input := lower (strip line) in
  negb (String.eqb user_input "x") &&
  negb (str_in user_input DiceGame.throw_options).

Definition selects (line : string) : bool :=
  str_in (lower (strip line)) DiceGame.throw_options.

(** The world [w] after the program wrote [out] and did nothing else. *)
Definition wrote (w : World) (out : list output) : World :=
  mkWorld (mt_tape w) (mt_pos w) (os_entropy w) (stdin w) (stdout w ++ out).

(** A computation that only writes. *)
Definition only_writes {A} (m : M A) : Prop :=
  forall w, exists a out, m w = (Ret a, wrote w out).

(** The body of the [j] loop and of the [i] loop of
    [calculate_win_probabilities], what the former stores at [(i, j)], and a
    cell after an assignment to it. *)
Definition stored (dice_list : list Dice.t) (i j : nat) : pynum :=
  PyFloat (truediv (ProbabilityCalculator.count_wins
                      (ProbabilityCalculator.faces_at dice_list i)
                      (ProbabilityCalculator.faces_at dice_list j)) 36).

Definition inner_step (dice_list : list Dice.t) (i : nat)
    (probabilities : list (list pynum)) (j : nat) : list (list pynum) :=
  if negb (i =? j)%nat
  then ProbabilityCalculator.setitem2 probabilities i j (stored dice_list i j)
  else probabilities.

Definition outer_step (dice_list : list Dice.t) (n : nat)
    (probabilities : list (list pynum)) (i : nat) : list (list pynum) :=
  fold_left (inner_step dice_list i) (seq 0 n) probabilities.

Definition overwrite (v : pynum) (o : option pynum) : option pynum :=
  match o with
  | Some _ => Some v
  | None => None
  end.

(** The world [w] after the program read its input down to [rest] and
    wrote [out], the generator untouched. *)
Definition read_to (w : World) (rest : list string) (out : list output)
  : World :=
  mkWorld (mt_tape w) (mt_pos w) (os_entropy w) rest (stdout w ++ out).

(** The world [w] after [k] more bytes were taken from the generator and
    [out] was written. *)
Definition drew (w : World) (k : nat) (out : list output) : World :=
  mkWorld (mt_tape w) (mt_pos w + k)%nat (os_entropy w) (stdin w)
          (stdout w ++ out).

(** A line of ASCII text, not longer than the interpreter's default limit
    on decimal conversions (a longer numeral makes [int] raise, and so does
    a digit that is not ASCII, such as superscript two). *)
Definition typed_line (line : string) : bool :=
  forallb (fun c => (nat_of_ascii c <? 128)%nat) (list_ascii_of_string line)
  && (String.length line <=? 4300)%nat.

(** An index of [dice_list], as [range(len(dice_list))] yields them. *)
Definition valid_index (dice_list : list Dice.t) (i : Z) : Prop :=
  0 <= i < Z.of_nat (length dice_list).

(** An int that [str] writes: one of at most [int_max_str_digits] decimal
    digits. *)
Definition writable (z : Z) : Prop :=
  (decimal_digits z <= int_max_str_digits)%nat.

(** Dice that the game can print and throw: each has a face, and [str]
    writes every face. *)
Definition playable (d : Dice.t) : Prop :=
  Dice.faces d <> [] /\ Forall writable (Dice.faces d).

(** The exceptions with which the game may stop when [lines] are the lines
    still to be read: a request to exit (status 0), the refusal of the
    first answer (status 1), the end of the input, and the [ValueError] of
    [int] on a line that [isdigit] accepts and [int] refuses. *)
Definition permitted (lines : list string) (e : exn) : Prop :=
  match e with
  | SystemExit code => code = 0 \/ code = 1
  | EOFError => True
  | ValueError _ =>
      exists line, In line lines /\ isdigit line = true /\
                   int_literal line = None
  | _ => False
  end.

(** What one pass of a loop body may do with the line it was given:
    write, and then ask for another line, leave the loop with a value that
    satisfies [P], or raise an exception that satisfies [E]. *)
Definition body_outcome {A} (P : string -> A -> Prop)
    (E : string -> exn -> Prop) (body : string -> M (option A)) : Prop :=
  forall line w, exists out,
    body line w = (Ret None, wrote w out) \/
    (exists a, body line w = (Ret (Some a), wrote w out) /\ P line a) \/
    (exists e, body line w = (Raise e, wrote w out) /\ E line e).

(** [m], run in any world, raises nothing but what [permitted] admits of
    the lines it was given, and returns only a value that satisfies [Q],
    having read its input from the front. *)
Definition ends_in {A} (Q : A -> Prop) (m : M A) : Prop :=
  forall w,
    match m w with
    | (Ret a, w') => Q a /\ exists read, stdin w = read ++ stdin w'
    | (Raise e, _) => permitted (stdin w) e
    | (Timeout, _) => True
    end.

(** What a choice leaves: the list without one of its elements. *)
Definition one_less (available_dice remaining : list Z) : Prop :=
  exists chosen, available_dice ≡ₚ chosen :: remaining.

(** The number of face pairs of two dice that show the same value. *)
Definition ties (faces_i faces_j : list Z) : Z :=
  Z.of_nat (count (fun p => fst p =? snd p) (list_prod faces_i faces_j)).

(** Text made of ASCII characters only. *)
Definition ascii_text (s : string) : bool :=
  forallb (fun c => (nat_of_ascii c <? 128)%nat) (list_ascii_of_string s).

(** The faces that a configuration string stands for: its fields between
    commas, each read by [int]; [None] when [int] refuses one. *)
Definition config_faces (dice : string) : option (list Z) :=
  mapM int_literal (split "," dice).

(** The three lines of [display_error]. *)
Definition error_lines (message : string) : list output :=
  [Line ("Error: " +:+ message);
   Line "Usage: python game.py dice1,dice2,dice3,...";
   Line "Each dice must have 6 comma-separated integers, e.g., 2,2,4,4,9,9."].

(** A configuration that [__init__] accepts, with the die it makes. *)
Definition makes (dice : string) (d : Dice.t) : Prop :=
  config_faces dice = Some (Dice.faces d) /\ length (Dice.faces d) = 6%nat.

(** A configuration that [__init__] refuses, with the message of the
    [ValueError]. *)
Definition refused_with (int_error : string -> string) (dice : string)
    (message : string) : Prop :=
  (exists faces, config_faces dice = Some faces /\ length faces <> 6%nat /\
                 message = "Each dice must have exactly 6 faces."%string) \/
  (config_faces dice = None /\
   exists field, In field (split "," dice) /\ int_literal field = None /\
                 message = int_error field).

(** The digits of the decimal numeral of [z], without its sign. *)
Definition digits_of (z : Z) : Decimal.uint :=
  match z with
  | 0 => Decimal.D0 Decimal.Nil
  | Z.pos p => Pos.to_uint p
  | Z.neg p => Pos.to_uint p
  end.

(** A 256-bit candidate is kept by [generate_random_int]. *)
Definition accepted (range_max rand : Z) : bool :=
  rand <? (2 ^ 256 / range_max) * range_max.

(** The 256-bit candidate that the next draw of [generate_random_int]
    produces in [w], and the world after that draw. *)
Definition candidate (w : World) : Z :=
  int_from_bytes_big (map (mt_tape w) (seq (mt_pos w) 32)).

Definition after_draw (w : World) : World :=
  mkWorld (mt_tape w) (mt_pos w + 32)%nat (os_entropy w) (stdin w) (stdout w).


(** Fixed worlds and rounds to evaluate the program on: a generator whose
    bytes vary, and one that outputs zeros. *)
Definition demo_world (lines : list string) : World :=
  mkWorld (fun n => byte_of_Z (Z.of_nat n * 37 + 5)) 0 (fun _ => x00) lines [].


Definition demo_round : FairPlay.t :=
  FairPlay.mk 6 (repeat x00 32) 4
    "1eb70f8ec1e1c551b8a61748b93a4764a145363c338350c0cfba214d624975f0".

(** The line made of the character superscript two (code point 178), and
    the line made of a no-break space (code point 160) and the digit 3. *)
Definition superscript_two : string := String (ascii_of_nat 178) EmptyString.

Definition nbsp_three : string := String (ascii_of_nat 160) "3".

Definition demo_dice : list Dice.t :=
  [Dice.mk [2; 2; 4; 4; 9; 9]; Dice.mk [1; 1; 6; 6; 8; 8];
   Dice.mk [3; 3; 5; 5; 7; 7]].

(** [list(range(len(self.dice_list)))], the dice that [play_game] offers. *)
Definition all_dice (self : DiceGame.t) : list Z :=
  map Z.of_nat (seq 0 (length (DiceGame.dice_list self))).

(** The two choices of [play_game], in the order that [user_turn_first]
    sets. *)
Definition first_choice (self : DiceGame.t) (user_turn_first : bool)
    (available_dice : list Z) : M (list Z) :=
  if user_turn_first then DiceGame.user_choose_dice self available_dice
  else DiceGame.computer_choose_dice self available_dice.

Definition second_choice (self : DiceGame.t) (user_turn_first : bool)
    (available_dice : list Z) : M (list Z) :=
  if user_turn_first then DiceGame.computer_choose_dice self available_dice
  else DiceGame.user_choose_dice self available_dice.

(** What [repr] returns for a list of ints that [str] writes. *)
Definition repr_of (xs : list Z) : string :=
  "[" +:+ join ", " (map decimal xs) +:+ "]".

(** What the reveal step of [get_throw] writes for a round [fp], the
    number [user_number] of the user, the player and the throw. *)
Definition reveal_lines (fp : FairPlay.t) (user_number : Z) (player : string)
    (throw : Z) : list output :=
  [Line ("My number is " +:+ decimal (FairPlay.computer_number fp) +:+
         " (KEY=" +:+ hex (FairPlay.secret_key fp) +:+ ").");
   Line ("The result is " +:+ decimal (FairPlay.computer_number fp) +:+
         " + " +:+ decimal user_number +:+ " = " +:+
         decimal ((user_number + FairPlay.computer_number fp) mod 6) +:+
         " (mod 6).");
   Line ((if String.eqb player "user" then "Your" else "My") +:+
         " throw is " +:+ decimal throw +:+ ".")].


(** ** Test vectors *)

(** Test vectors (FIPS 202 and [hmac.new(bytes(32), b"4", hashlib.sha3_256)]). *)
Example sha3_256_empty :
  hex (Keccak.sha3_256 []) =
  "a7ffc6f8bf1ed76651c14756a061d662f580ff4de43b49fa82d80a4b80f8434a"%string.
Proof. vm_compute. reflexivity. Qed.

Example sha3_256_abc :
  hex (Keccak.sha3_256 (encode "abc")) =
  "3a985da74fe225b2045c172d6bd390bd855f086e3e9d525b46bfe24511431532"%string.
Proof. vm_compute. reflexivity. Qed.

Example calculate_hmac_zero_key_4 :
  RandomGenerator.calculate_hmac (repeat x00 32) 4 =
  Ret "1eb70f8ec1e1c551b8a61748b93a4764a145363c338350c0cfba214d624975f0"%string.
Proof. vm_compute. reflexivity. Qed.

Example calculate_hmac_long_key :
  RandomGenerator.calculate_hmac (map (fun n => byte_of_Z (Z.of_nat n)) (seq 0 200)) (-17) =
  Ret "a6454a648c18f62431df6831ef6ea2a2c2a4c97c84fc0ca38c379af3381aecbf"%string.
Proof. vm_compute. reflexivity. Qed.

Example sha3_256_full_block :
  hex (Keccak.sha3_256 (repeat x00 135)) =
  "7d080d7ba978a75c8a7d1f9be566c859084509c9c2b4928435c225d5777d98e3"%string /\
  hex (Keccak.sha3_256 (repeat x00 136)) =
  "e772c9cf9eb9c991cdfcf125001b454fdbc0a95f188d1b4c844aa032ad6e075e"%string.
Proof. split; vm_compute; reflexivity. Qed.

(** ** Properties *)

(** *** Numerals and fields *)

Section Numerals.

Lemma string_length_of_list_ascii (cs : list ascii) :
  String.length (string_of_list_ascii cs) = length cs.
Proof.
  induction cs as [| c cs IH]; simpl; [reflexivity | rewrite IH; reflexivity].
Qed.

Lemma digit_char_class (c : ascii) :
  is_digit_char c = true ->
  is_int_space c = false /\ Ascii.eqb c "-" = false /\
  Ascii.eqb c "+" = false /\ Ascii.eqb c "_" = false /\
  Ascii.eqb c "," = false.
Proof.
  destruct c as [[] [] [] [] [] [] [] []]; vm_compute; intros H;
    try discriminate H; repeat split.
Qed.

Lemma uint_digits (d : Decimal.uint) :
  forallb is_digit_char (list_ascii_of_string (NilEmpty.string_of_uint d)) = true.
Proof. induction d; cbn [NilEmpty.string_of_uint list_ascii_of_string forallb];
  [reflexivity | rewrite IHd; reflexivity ..]. Qed.

Lemma uint_nonempty (d : Decimal.uint) :
  d <> Decimal.Nil ->
  list_ascii_of_string (NilEmpty.string_of_uint d) <> [].
Proof. destruct d; [congruence | discriminate ..]. Qed.

Lemma digits_of_spec (z : Z) :
  digits_of z <> Decimal.Nil /\
  Z.of_uint (digits_of z) = Z.abs z /\
  decimal (Z.abs z) = NilEmpty.string_of_uint (digits_of z) /\
  decimal z = String.append (if Z.ltb z 0 then "-"%string else ""%string)
                        (NilEmpty.string_of_uint (digits_of z)).
Proof.
  assert (Hnz : forall d, d <> Decimal.Nil ->
            NilZero.string_of_uint d = NilEmpty.string_of_uint d).
  { intros d Hd. destruct d; [congruence | reflexivity ..]. }
  destruct z as [| p | p]; cbn [digits_of].
  - repeat split. discriminate.
  - change (Z.abs (Z.pos p)) with (Z.pos p).
    pose proof (Unsigned.to_uint_nonnil p) as Hp.
    split; [exact Hp |]. split.
    + unfold Z.of_uint. rewrite DecimalPos.Unsigned.of_to. reflexivity.
    + unfold decimal. cbn [Z.to_int NilZero.string_of_int Z.ltb Z.compare].
      rewrite Hnz by exact Hp. split; reflexivity.
  - change (Z.abs (Z.neg p)) with (Z.pos p).
    pose proof (Unsigned.to_uint_nonnil p) as Hp.
    split; [exact Hp |]. split.
    + unfold Z.of_uint. rewrite DecimalPos.Unsigned.of_to. reflexivity.
    + unfold decimal. cbn [Z.to_int NilZero.string_of_int Z.ltb Z.compare].
      rewrite Hnz by exact Hp. split; reflexivity.
Qed.

Lemma skip_int_spaces_id (c : ascii) (cs : list ascii) :
  is_int_space c = false -> skip_int_spaces (c :: cs) = c :: cs.
Proof. intros H. cbn [skip_int_spaces]. rewrite H. reflexivity. Qed.

Lemma digits_ok_digits (b : bool) (c : ascii) (cs : list ascii) :
  forallb is_digit_char (c :: cs) = true -> digits_ok b (c :: cs) = true.
Proof.
  revert b c. induction cs as [| c' cs IH]; intros b c H;
    cbn [forallb] in H; apply andb_true_iff in H; destruct H as [Hc H];
    cbn [digits_ok]; rewrite Hc.
  - reflexivity.
  - apply IH. exact H.
Qed.

Lemma filter_digits (cs : list ascii) :
  forallb is_digit_char cs = true -> List.filter is_digit_char cs = cs.
Proof.
  induction cs as [| c cs IH]; [reflexivity |].
  cbn [forallb List.filter]. intros H. apply andb_true_iff in H.
  destruct H as [Hc H]. rewrite Hc, IH by exact H. reflexivity.
Qed.

Lemma strip_around (prefix ds : list ascii) :
  forallb is_digit_char ds = true -> ds <> [] ->
  match prefix with
  | [] => True
  | c :: _ => is_int_space c = false
  end ->
  rev (skip_int_spaces (rev (skip_int_spaces (prefix ++ ds)))) = prefix ++ ds.
Proof.
  intros Hds Hne Hprefix.
  assert (H1 : skip_int_spaces (prefix ++ ds) = prefix ++ ds).
  { destruct prefix as [| c prefix].
    - destruct ds as [| c ds]; [contradiction |].
      cbn [forallb] in Hds. apply andb_true_iff in Hds.
      apply skip_int_spaces_id, digit_char_class. tauto.
    - apply skip_int_spaces_id. exact Hprefix. }
  rewrite H1, rev_app_distr.
  destruct (rev ds) as [| c rds] eqn:Hrev.
  - apply (f_equal (@rev ascii)) in Hrev. rewrite rev_involutive in Hrev.
    contradiction.
  - assert (Hc : is_digit_char c = true).
    { apply (proj1 (forallb_forall _ _) Hds). apply in_rev. rewrite Hrev.
      left. reflexivity. }
    cbn [app]. rewrite skip_int_spaces_id by (apply digit_char_class; exact Hc).
    change (c :: rds ++ rev prefix) with ((c :: rds) ++ rev prefix).
    rewrite <- Hrev, <- rev_app_distr, rev_involutive. reflexivity.
Qed.

Lemma int_literal_numeral (negative : bool) (d : Decimal.uint) :
  d <> Decimal.Nil ->
  (String.length (NilEmpty.string_of_uint d) <= int_max_str_digits)%nat ->
  int_literal ((if negative then "-" else "") +:+ NilEmpty.string_of_uint d) =
  Some (if negative then - Z.of_uint d else Z.of_uint d).
Proof.
  intros Hd Hlen.
  set (ds := list_ascii_of_string (NilEmpty.string_of_uint d)).
  pose proof (uint_digits d) as Hds. fold ds in Hds.
  pose proof (uint_nonempty d Hd) as Hne. fold ds in Hne.
  assert (Hlen' : (length ds <= int_max_str_digits)%nat).
  { unfold ds. rewrite <- (string_of_list_ascii_of_string (NilEmpty.string_of_uint d)) in Hlen.
    rewrite string_length_of_list_ascii in Hlen. exact Hlen. }
  assert (Hchars : list_ascii_of_string
                     ((if negative then "-" else "") +:+ NilEmpty.string_of_uint d) =
                   (if negative then ["-"%char] else []) ++ ds).
  { destruct negative; reflexivity. }
  unfold int_literal. rewrite Hchars.
  rewrite strip_around; [| exact Hds | exact Hne | destruct negative; reflexivity].
  assert (Hparse : NilEmpty.uint_of_string (string_of_list_ascii ds) = Some d).
  { unfold ds. rewrite string_of_list_ascii_of_string. apply NilEmpty.usu. }
  destruct ds as [| c ds']; [contradiction |].
  assert (Hc : is_digit_char c = true).
  { cbn [forallb] in Hds. apply andb_true_iff in Hds. tauto. }
  destruct (digit_char_class c Hc) as (_ & Hminus & Hplus & _).
  destruct negative; cbn [app]; cbv zeta.
  - change (Ascii.eqb "-" "-") with true. cbn [orb].
    rewrite digits_ok_digits by exact Hds.
    rewrite filter_digits by exact Hds.
    rewrite (proj2 (Nat.ltb_ge _ _) Hlen'), Hparse. reflexivity.
  - rewrite Hminus, Hplus. cbn [orb].
    rewrite digits_ok_digits by exact Hds.
    rewrite filter_digits by exact Hds.
    rewrite (proj2 (Nat.ltb_ge _ _) Hlen'), Hparse. reflexivity.
Qed.

(** [int(str(z))] is [z], for an integer within the limit on digits. *)
Lemma int_literal_str (z : Z) :
  (decimal_digits z <= int_max_str_digits)%nat -> int_literal (decimal z) = Some z.
Proof.
  intros Hlen. destruct (digits_of_spec z) as (Hd & Hval & Habs & Hstr).
  unfold decimal_digits in Hlen. rewrite Habs in Hlen.
  rewrite Hstr.
  rewrite (int_literal_numeral (z <? 0) (digits_of z) Hd Hlen), Hval.
  f_equal. destruct (Z.ltb_spec z 0); lia.
Qed.

Lemma list_ascii_of_string_app (a b : string) :
  list_ascii_of_string (a +:+ b) =
  list_ascii_of_string a ++ list_ascii_of_string b.
Proof.
  induction a as [| c a IH]; [reflexivity |].
  change (c :: list_ascii_of_string (a +:+ b) =
          c :: list_ascii_of_string a ++ list_ascii_of_string b).
  f_equal. exact IH.
Qed.

Lemma split_chars_field (sep : ascii) (field : list ascii) :
  forallb (fun c => negb (Ascii.eqb c sep)) field = true ->
  split_chars sep field = [field] /\
  forall rest,
    split_chars sep (field ++ sep :: rest) = field :: split_chars sep rest.
Proof.
  induction field as [| c field IH]; intros H.
  - split; [reflexivity |]. intros rest. cbn [app split_chars].
    rewrite Ascii.eqb_refl. reflexivity.
  - cbn [forallb] in H. apply andb_true_iff in H. destruct H as [Hc H].
    apply negb_true_iff in Hc. destruct (IH H) as [IH1 IH2].
    split.
    + cbn [split_chars]. rewrite Hc, IH1. reflexivity.
    + intros rest. cbn [app split_chars]. rewrite Hc, IH2. reflexivity.
Qed.

Lemma split_join (sep : ascii) (part : string) (parts : list string) :
  Forall (fun p => forallb (fun c => negb (Ascii.eqb c sep))
                           (list_ascii_of_string p) = true) (part :: parts) ->
  split sep (join (String sep "") (part :: parts)) = part :: parts.
Proof.
  revert part. induction parts as [| q parts IH]; intros part H;
    apply Forall_cons_1 in H; destruct H as [Hp H].
  - unfold split, join. cbn [String.concat].
    rewrite (proj1 (split_chars_field sep _ Hp)). cbn [map].
    rewrite string_of_list_ascii_of_string. reflexivity.
  - specialize (IH q H). unfold split, join in IH |- *.
    cbn [String.concat]. rewrite !list_ascii_of_string_app.
    cbn [list_ascii_of_string app].
    rewrite (proj2 (split_chars_field sep _ Hp)). cbn [map].
    rewrite string_of_list_ascii_of_string. f_equal. exact IH.
Qed.

Lemma str_no_comma (z : Z) :
  forallb (fun c => negb (Ascii.eqb c ",")) (list_ascii_of_string (decimal z)) = true.
Proof.
  destruct (digits_of_spec z) as (_ & _ & _ & Hstr). rewrite Hstr.
  rewrite list_ascii_of_string_app, List.forallb_app.
  apply andb_true_iff. split.
  - destruct (z <? 0); reflexivity.
  - apply forallb_forall. intros c Hc.
    pose proof (proj1 (forallb_forall _ _) (uint_digits (digits_of z)) c Hc) as Hd.
    destruct (digit_char_class c Hd) as (_ & _ & _ & _ & Hcomma).
    rewrite Hcomma. reflexivity.
Qed.

End Numerals.

(** *** The limit on decimal numerals *)

Section Digits.

Lemma string_of_uint_length (d : Decimal.uint) :
  String.length (NilEmpty.string_of_uint d) = Decimal.nb_digits d.
Proof.
  induction d; cbn [NilEmpty.string_of_uint String.length Decimal.nb_digits];
    [reflexivity | rewrite IHd; reflexivity ..].
Qed.

Lemma uint_of_string_length (s : string) (d : Decimal.uint) :
  NilEmpty.uint_of_string s = Some d -> Decimal.nb_digits d = String.length s.
Proof.
  revert d. induction s as [| c s IH]; intros d H.
  - injection H as <-. reflexivity.
  - cbn [NilEmpty.uint_of_string] in H.
    destruct (NilEmpty.uint_of_string s) as [d' |]; [| discriminate H].
    specialize (IH d' eq_refl). cbn [String.length]. rewrite <- IH.
    unfold uint_of_char in H.
    destruct c as [[] [] [] [] [] [] [] []]; try discriminate H;
      injection H as <-; reflexivity.
Qed.

(** The value read from digits [d] after an accumulator [acc]. *)
Lemma of_uint_acc_bounds (d : Decimal.uint) (acc : positive) :
  Z.pos acc * 10 ^ Z.of_nat (Decimal.nb_digits d)
    <= Z.pos (Pos.of_uint_acc d acc)
    < (Z.pos acc + 1) * 10 ^ Z.of_nat (Decimal.nb_digits d).
Proof.
  revert acc.
  induction d as [| d IH | d IH | d IH | d IH | d IH | d IH | d IH | d IH
                  | d IH | d IH]; intros acc;
    cbn [Pos.of_uint_acc Decimal.nb_digits];
    [ rewrite Z.pow_0_r; lia | .. ];
    (rewrite Nat2Z.inj_succ, Z.pow_succ_r by lia;
     match goal with
     | |- context [Pos.of_uint_acc d ?a] => specialize (IH a)
     end;
     assert (Hp : 0 < 10 ^ Z.of_nat (Decimal.nb_digits d))
       by (apply Z.pow_pos_nonneg; lia);
     rewrite ?Pos2Z.inj_add, ?Pos2Z.inj_mul in IH; nia).
Qed.

Lemma of_uint_upper (d : Decimal.uint) :
  Z.of_uint d < 10 ^ Z.of_nat (Decimal.nb_digits d).
Proof.
  unfold Z.of_uint.
  induction d as [| d IH | d IH | d IH | d IH | d IH | d IH | d IH | d IH
                  | d IH | d IH];
    cbn [Pos.of_uint Decimal.nb_digits];
    [ cbn; lia | .. ];
    rewrite Nat2Z.inj_succ, Z.pow_succ_r by lia;
    assert (Hp : 0 < 10 ^ Z.of_nat (Decimal.nb_digits d))
      by (apply Z.pow_pos_nonneg; lia);
    [ lia | .. ];
    match goal with
    | |- context [Pos.of_uint_acc d ?a] =>
        pose proof (of_uint_acc_bounds d a) as Hb
    end;
    cbn [Z.of_N]; lia.
Qed.

Lemma of_uint_lower (d : Decimal.uint) :
  Decimal.nzhead d = d -> d <> Decimal.Nil ->
  10 ^ (Z.of_nat (Decimal.nb_digits d) - 1) <= Z.of_uint d.
Proof.
  intros Hnz Hne. unfold Z.of_uint.
  destruct d as [| d | d | d | d | d | d | d | d | d | d];
    [ contradiction | .. ];
    cbn [Pos.of_uint Decimal.nb_digits];
    [ exfalso; cbn [Decimal.nzhead] in Hnz;
      pose proof (DecimalFacts.nb_digits_nzhead d) as Hle;
      rewrite Hnz in Hle; cbn [Decimal.nb_digits] in Hle; lia
    | .. ];
    rewrite Nat2Z.inj_succ;
    replace (Z.succ (Z.of_nat (Decimal.nb_digits d)) - 1)
      with (Z.of_nat (Decimal.nb_digits d)) by lia;
    assert (Hp : 0 < 10 ^ Z.of_nat (Decimal.nb_digits d))
      by (apply Z.pow_pos_nonneg; lia);
    match goal with
    | |- context [Pos.of_uint_acc d ?a] =>
        pose proof (of_uint_acc_bounds d a) as Hb
    end;
    cbn [Z.of_N]; lia.
Qed.

(** The numeral of a positive number has no leading zero. *)
Lemma to_uint_nzhead (p : positive) :
  Decimal.nzhead (Pos.to_uint p) = Pos.to_uint p.
Proof.
  pose proof (DecimalPos.Unsigned.to_of (Pos.to_uint p)) as H.
  rewrite DecimalPos.Unsigned.of_to in H. cbn [N.to_uint] in H.
  unfold Decimal.unorm in H.
  destruct (Decimal.nzhead (Pos.to_uint p)) eqn:E; try (symmetry; exact H).
  exfalso. exact (DecimalPos.Unsigned.to_uint_nonzero p H).
Qed.

Lemma decimal_digits_nb (z : Z) :
  decimal_digits z = Decimal.nb_digits (digits_of z).
Proof.
  unfold decimal_digits.
  destruct (digits_of_spec z) as (_ & _ & Habs & _).
  rewrite Habs. apply string_of_uint_length.
Qed.

Lemma decimal_digits_pos (z : Z) : (1 <= decimal_digits z)%nat.
Proof.
  rewrite decimal_digits_nb.
  destruct (digits_of_spec z) as (Hne & _).
  destruct (digits_of z); [contradiction | cbn [Decimal.nb_digits]; lia ..].
Qed.

Lemma decimal_digits_upper (z : Z) :
  Z.abs z < 10 ^ Z.of_nat (decimal_digits z).
Proof.
  rewrite decimal_digits_nb.
  destruct (digits_of_spec z) as (_ & Hval & _).
  rewrite <- Hval. apply of_uint_upper.
Qed.

Lemma decimal_digits_lower (z : Z) :
  z <> 0 -> 10 ^ (Z.of_nat (decimal_digits z) - 1) <= Z.abs z.
Proof.
  intros Hz. rewrite decimal_digits_nb.
  destruct (digits_of_spec z) as (Hne & Hval & _).
  rewrite <- Hval. apply of_uint_lower; [| exact Hne].
  destruct z as [| p | p]; [contradiction | apply to_uint_nzhead ..].
Qed.

(** An int has at most [k] digits exactly when it is below [10^k] in
    absolute value. *)
Lemma decimal_digits_le (z : Z) (k : nat) :
  (1 <= k)%nat ->
  ((decimal_digits z <= k)%nat <-> Z.abs z < 10 ^ Z.of_nat k).
Proof.
  intros Hk. split.
  - intros Hle. pose proof (decimal_digits_upper z) as Hu.
    assert (Hmono : 10 ^ Z.of_nat (decimal_digits z) <= 10 ^ Z.of_nat k)
      by (apply Z.pow_le_mono_r; lia).
    lia.
  - intros Hlt. destruct (Z.eq_dec z 0) as [-> | Hz].
    + change (decimal_digits 0) with 1%nat. exact Hk.
    + pose proof (decimal_digits_lower z Hz) as Hl.
      destruct (Nat.le_gt_cases (decimal_digits z) k) as [Hle | Hgt];
        [exact Hle | exfalso].
      assert (Hmono : 10 ^ Z.of_nat k <= 10 ^ (Z.of_nat (decimal_digits z) - 1))
        by (apply Z.pow_le_mono_r; lia).
      lia.
Qed.

Lemma ten_pow_limit_pos : 0 < 10 ^ 4300.
Proof. apply Z.pow_pos_nonneg; [reflexivity | discriminate]. Qed.

Lemma writable_iff (z : Z) :
  writable z <-> Z.abs z < 10 ^ Z.of_nat int_max_str_digits.
Proof. apply decimal_digits_le. unfold int_max_str_digits. lia. Qed.

Lemma writable_below (a b : Z) :
  Z.abs a <= Z.abs b -> writable b -> writable a.
Proof. rewrite !writable_iff. lia. Qed.

Lemma pow_2_256_below_limit : 2 ^ 256 <= 10 ^ Z.of_nat int_max_str_digits.
Proof.
  apply (Z.le_trans _ (10 ^ 256)).
  - apply Z.pow_le_mono_l. lia.
  - apply Z.pow_le_mono_r; [lia |]. unfold int_max_str_digits. lia.
Qed.

Lemma writable_256 (z : Z) : Z.abs z < 2 ^ 256 -> writable z.
Proof.
  intros Hz. apply writable_iff. pose proof pow_2_256_below_limit. lia.
Qed.

Lemma str_writable (z : Z) : writable z -> str z = Ret (decimal z).
Proof.
  intros Hz. unfold str.
  assert (H : (int_max_str_digits <? decimal_digits z)%nat = false)
    by (apply Nat.ltb_ge; exact Hz).
  rewrite H. reflexivity.
Qed.

Lemma str_unwritable (z : Z) : ~ writable z -> str z = Raise str_limit_error.
Proof.
  intros Hz. unfold str.
  assert (H : (int_max_str_digits <? decimal_digits z)%nat = true).
  { apply Nat.ltb_lt. unfold writable in Hz. lia. }
  rewrite H. reflexivity.
Qed.

Lemma str_outcome (z : Z) :
  match str z with
  | Ret s => s = decimal z /\ writable z
  | Raise e => e = str_limit_error /\ ~ writable z
  | Timeout => False
  end.
Proof.
  unfold str, writable.
  destruct (Nat.ltb_spec int_max_str_digits (decimal_digits z)) as [H | H].
  - split; [reflexivity | lia].
  - split; [reflexivity | exact H].
Qed.

Lemma strs_writable (xs : list Z) :
  Forall writable xs -> strs xs = Ret (map decimal xs).
Proof.
  induction 1 as [| x xs Hx _ IH]; [reflexivity |].
  cbn [strs map]. rewrite (str_writable x Hx), IH. reflexivity.
Qed.

Lemma repr_list_writable (xs : list Z) :
  Forall writable xs ->
  repr_list xs = Ret ("[" +:+ join ", " (map decimal xs) +:+ "]").
Proof.
  intros H. unfold repr_list. rewrite (strs_writable xs H). reflexivity.
Qed.

Lemma strs_outcome (xs : list Z) :
  match strs xs with
  | Ret ss => ss = map decimal xs /\ Forall writable xs
  | Raise e => e = str_limit_error /\ ~ Forall writable xs
  | Timeout => False
  end.
Proof.
  induction xs as [| x xs IH]; [split; [reflexivity | constructor] |].
  cbn [strs]. pose proof (str_outcome x) as Hx.
  destruct (str x) as [s | e |]; cbn [and_then]; [| | exact Hx].
  - destruct Hx as [-> Hx].
    destruct (strs xs) as [ss | e |]; cbn [and_then]; [| | exact IH].
    + destruct IH as [-> IH]. split; [reflexivity | constructor; assumption].
    + destruct IH as [He IH]. split; [exact He |].
      intros H. apply IH. apply Forall_cons_1 in H. tauto.
  - destruct Hx as [He Hx]. split; [exact He |].
    intros H. apply Hx. apply Forall_cons_1 in H. tauto.
Qed.

Lemma writable_check (xs : list Z) :
  forallb (fun z => (decimal_digits z <=? int_max_str_digits)%nat) xs = true ->
  Forall writable xs.
Proof.
  intros H. apply List.Forall_forall. intros z Hz.
  apply Nat.leb_le. exact (proj1 (forallb_forall _ _) H z Hz).
Qed.

Lemma demo_dice_playable : Forall playable demo_dice.
Proof.
  apply List.Forall_forall. intros d Hd. cbn [demo_dice In] in Hd.
  destruct Hd as [<- | [<- | [<- | []]]];
    (split; [discriminate | apply writable_check; vm_compute; reflexivity]).
Qed.

Lemma playable_faces_writable (dice : list Dice.t) :
  Forall playable dice -> Forall (fun d => Forall writable (Dice.faces d)) dice.
Proof.
  intros H. apply List.Forall_forall. intros d Hd.
  exact (proj2 (proj1 (List.Forall_forall _ _) H d Hd)).
Qed.

(** What [int] reads, [str] writes. *)
Lemma int_literal_writable (s : string) (z : Z) :
  int_literal s = Some z -> writable z.
Proof.
  unfold int_literal. cbv zeta.
  destruct (digits_ok true _); [| discriminate].
  match goal with
  | |- context [List.filter is_digit_char ?body] =>
      set (ds := List.filter is_digit_char body)
  end.
  destruct (Nat.ltb_spec int_max_str_digits (length ds)) as [| Hlen];
    [discriminate |].
  destruct (NilEmpty.uint_of_string (string_of_list_ascii ds)) as [d |] eqn:Hd;
    [| discriminate].
  intros H. injection H as <-.
  apply uint_of_string_length in Hd.
  rewrite string_length_of_list_ascii in Hd.
  pose proof (of_uint_upper d) as Hu.
  assert (H0 : 0 <= Z.of_uint d) by (unfold Z.of_uint; lia).
  assert (Hmono : 10 ^ Z.of_nat (Decimal.nb_digits d)
                  <= 10 ^ Z.of_nat int_max_str_digits)
    by (apply Z.pow_le_mono_r; lia).
  apply writable_iff.
  match goal with |- context [if ?b then _ else _] => destruct b end; lia.
Qed.

End Digits.

(** *** The guard of [int] in the dice selection *)

Section Guard.

Lemma digits_parse (s : string) :
  forallb is_digit_char (list_ascii_of_string s) = true ->
  exists d, NilEmpty.uint_of_string s = Some d.
Proof.
  induction s as [| c s IH]; intros H.
  - exists Decimal.Nil. reflexivity.
  - cbn [list_ascii_of_string forallb] in H. apply andb_true_iff in H.
    destruct H as [Hc H]. destruct (IH H) as (d & Hd).
    cbn [NilEmpty.uint_of_string]. rewrite Hd.
    destruct c as [[] [] [] [] [] [] [] []]; try discriminate Hc;
      eexists; reflexivity.
Qed.

Lemma string_length_chars (s : string) :
  String.length s = length (list_ascii_of_string s).
Proof.
  rewrite <- (string_of_list_ascii_of_string s) at 1.
  apply string_length_of_list_ascii.
Qed.

(** On ASCII text [isdigit] accepts the decimal digits only. *)
Lemma isdigit_char_ascii (c : ascii) :
  (nat_of_ascii c <? 128)%nat = true -> isdigit_char c = is_digit_char c.
Proof.
  intros H. apply Nat.ltb_lt in H. unfold isdigit_char. cbv zeta.
  destruct (Nat.eqb_spec (nat_of_ascii c) 178) as [E | _]; [lia |].
  destruct (Nat.eqb_spec (nat_of_ascii c) 179) as [E | _]; [lia |].
  destruct (Nat.eqb_spec (nat_of_ascii c) 185) as [E | _]; [lia |].
  rewrite !orb_false_r. reflexivity.
Qed.

Lemma isdigit_ascii (cs : list ascii) :
  forallb (fun c => (nat_of_ascii c <? 128)%nat) cs = true ->
  forallb isdigit_char cs = forallb is_digit_char cs.
Proof.
  induction cs as [| c cs IH]; intros H; [reflexivity |].
  cbn [forallb] in *. apply andb_true_iff in H. destruct H as [Hc H].
  rewrite (isdigit_char_ascii c Hc), (IH H). reflexivity.
Qed.

End Guard.


(** *** The combine step *)

Section Combine.

Import FairPlay.

Lemma verify_and_get_result_ok (self : t) (user_number : Z) :
  range_max self <> 0 ->
  verify_and_get_result self user_number =
  Ret ((computer_number self + user_number) mod range_max self,
       secret_key self).
Proof.
  intros Hnz. unfold verify_and_get_result, mod_.
  destruct (Z.eqb_spec (range_max self) 0) as [E | _]; [contradiction | reflexivity].
Qed.

Lemma verify_and_get_result_zero (self : t) (user_number : Z) :
  range_max self = 0 ->
  verify_and_get_result self user_number = Raise ZeroDivisionError.
Proof.
  intros E. unfold verify_and_get_result, mod_. rewrite E. reflexivity.
Qed.

Lemma combine_eq (R : Z) key digest (c v : Z) :
  R <> 0 -> combine R key digest c v = Some ((v + c) mod R).
Proof.
  intros HR. unfold combine.
  rewrite verify_and_get_result_ok by exact HR. reflexivity.
Qed.

End Combine.

(** *** Counting over a range *)

Section Counting.

Lemma residues_spec (R x : Z) : In x (residues R) <-> 0 <= x < R.
Proof.
  unfold residues. rewrite in_map_iff. split.
  - intros (n & <- & Hn). apply in_seq in Hn. lia.
  - intros Hx. exists (Z.to_nat x). split; [lia |]. apply in_seq. lia.
Qed.

Lemma residues_NoDup (R : Z) : List.NoDup (residues R).
Proof.
  unfold residues. apply Finite.Injective_map_NoDup.
  - intros a b Hab. lia.
  - apply List.seq_NoDup.
Qed.


Lemma count_app {A} (p : A -> bool) (l1 l2 : list A) :
  count p (l1 ++ l2) = (count p l1 + count p l2)%nat.
Proof. unfold count. rewrite List.filter_app, List.length_app. reflexivity. Qed.

Lemma count_map {A B} (f : A -> B) (p : B -> bool) (l : list A) :
  count p (map f l) = count (fun x => p (f x)) l.
Proof.
  unfold count. induction l as [| x l IH]; simpl; [reflexivity |].
  destruct (p (f x)); simpl; rewrite IH; reflexivity.
Qed.


Lemma count_none {A} (p : A -> bool) (l : list A) :
  (forall x, In x l -> p x = false) -> count p l = 0%nat.
Proof.
  unfold count. induction l as [| x l IH]; intros H; simpl; [reflexivity |].
  rewrite (H x) by (left; reflexivity). apply IH.
  intros y Hy. apply H. right. exact Hy.
Qed.

(** A list without repetition in which exactly one element satisfies [p]. *)
Lemma count_unique {A} (p : A -> bool) (l : list A) (x : A) :
  List.NoDup l -> In x l -> p x = true ->
  (forall y, In y l -> p y = true -> y = x) ->
  count p l = 1%nat.
Proof.
  intros Hnd. induction Hnd as [| a l Hnotin Hnd IH]; intros Hin Hpx Huniq.
  - destruct Hin.
  - unfold count. simpl. destruct Hin as [-> | Hin].
    + rewrite Hpx. simpl. f_equal. apply count_none.
      intros y Hy. destruct (p y) eqn:E; [| reflexivity].
      exfalso. apply Hnotin.
      rewrite <- (Huniq y (or_intror Hy) E). exact Hy.
    + destruct (p a) eqn:E.
      * exfalso. apply Hnotin.
        rewrite (Huniq a (or_introl eq_refl) E). exact Hin.
      * apply IH; [exact Hin | exact Hpx |].
        intros y Hy. apply Huniq. right. exact Hy.
Qed.



End Counting.

(** *** Claims about the combine step *)

(** C1. For every round whose modulus is not zero (the constructor returns
    no other round) and every contribution, [verify_and_get_result] returns
    the pair of [(computer_number + contribution) mod range_max] and the
    secret key; with modulus 6, committed value 4 and contribution 3 the
    result is 1. *)
Theorem verify_and_get_result_combines (fp : FairPlay.t) (contribution : Z) :
  FairPlay.range_max fp <> 0 ->
  FairPlay.verify_and_get_result fp contribution =
    Ret ((FairPlay.computer_number fp + contribution) mod FairPlay.range_max fp,
         FairPlay.secret_key fp) /\
  FairPlay.verify_and_get_result
    (FairPlay.mk 6 (FairPlay.secret_key fp) 4 (FairPlay.hmac fp)) 3 =
    Ret (1, FairPlay.secret_key fp).
Proof.
  intros Hnz. split.
  - apply verify_and_get_result_ok. exact Hnz.
  - reflexivity.
Qed.

Lemma verify_and_get_result_combines_witness :
  FairPlay.range_max demo_round <> 0 /\
  FairPlay.verify_and_get_result demo_round 5 = Ret (3, repeat x00 32).
Proof.
  assert (H : FairPlay.range_max demo_round <> 0) by (simpl; lia).
  split; [exact H |].
  exact (proj1 (verify_and_get_result_combines demo_round 5 H)).
Defined.

(** C10. With a positive modulus, [verify_and_get_result] raises for no
    integer contribution, negative or beyond the modulus included, and the
    integer it returns lies in [[0, range_max)]. *)
Theorem verify_and_get_result_total (fp : FairPlay.t) (user_number : Z) :
  0 < FairPlay.range_max fp ->
  exists result : Z,
    FairPlay.verify_and_get_result fp user_number =
      Ret (result, FairPlay.secret_key fp) /\
    0 <= result < FairPlay.range_max fp.
Proof.
  intros Hpos. eexists. split.
  - apply verify_and_get_result_ok. lia.
  - apply Z.mod_pos_bound. exact Hpos.
Qed.

Lemma verify_and_get_result_total_witness :
  0 < FairPlay.range_max demo_round /\
  (exists result : Z,
     FairPlay.verify_and_get_result demo_round (-5) =
       Ret (result, FairPlay.secret_key demo_round) /\
     0 <= result < FairPlay.range_max demo_round) /\
  (exists result : Z,
     FairPlay.verify_and_get_result demo_round 600 =
       Ret (result, FairPlay.secret_key demo_round) /\
     0 <= result < FairPlay.range_max demo_round).
Proof.
  assert (H : 0 < FairPlay.range_max demo_round) by (simpl; lia).
  split; [exact H |]. split.
  - exact (verify_and_get_result_total demo_round (-5) H).
  - exact (verify_and_get_result_total demo_round 600 H).
Defined.

(** C2. For a modulus [R > 0] and a fixed contribution [c] of [[0, R)],
    the map from the committed value to the combined result is a bijection
    of [[0, R)]: it stays in the range, is injective and is onto. Hence
    every result is produced by exactly one of the [R] committed values: a
    uniform committed value gives a uniform result, whatever [c] is. *)
Theorem combine_bijection (R c : Z) (key : list byte) (digest : string) :
  0 < R -> 0 <= c < R ->
  (forall v, 0 <= v < R ->
     exists r, combine R key digest c v = Some r /\ 0 <= r < R) /\
  (forall v1 v2, 0 <= v1 < R -> 0 <= v2 < R ->
     combine R key digest c v1 = combine R key digest c v2 -> v1 = v2) /\
  (forall r, 0 <= r < R ->
     exists v, 0 <= v < R /\ combine R key digest c v = Some r) /\
  (forall r, 0 <= r < R ->
     count (fun v => option_is r (combine R key digest c v)) (residues R)
     = 1%nat).
Proof.
  intros HR Hc.
  assert (Hnz : R <> 0) by lia.
  assert (Hinj : forall v1 v2, 0 <= v1 < R -> 0 <= v2 < R ->
                   (v1 + c) mod R = (v2 + c) mod R -> v1 = v2).
  { intros v1 v2 H1 H2 E.
    assert (E' : (v1 + c - (v2 + c)) mod R = 0).
    { rewrite Zminus_mod, E, Z.sub_diag. apply Z.mod_0_l. exact Hnz. }
    replace (v1 + c - (v2 + c)) with (v1 - v2) in E' by lia.
    apply Z.mod_divide in E'; [| exact Hnz]. destruct E' as [k Hk].
    assert (k = 0) by nia. lia. }
  assert (Hsurj : forall r, 0 <= r < R ->
                    0 <= (r - c) mod R < R /\ ((r - c) mod R + c) mod R = r).
  { intros r Hr. split; [apply Z.mod_pos_bound; exact HR |].
    rewrite Zplus_mod_idemp_l. replace (r - c + c) with r by lia.
    apply Z.mod_small. exact Hr. }
  repeat split.
  - intros v Hv. exists ((v + c) mod R). split.
    + apply combine_eq. exact Hnz.
    + apply Z.mod_pos_bound. exact HR.
  - intros v1 v2 H1 H2 E. rewrite !combine_eq in E by exact Hnz.
    injection E as E. apply Hinj; assumption.
  - intros r Hr. exists ((r - c) mod R). destruct (Hsurj r Hr) as [Hb He].
    split; [exact Hb |]. rewrite combine_eq by exact Hnz. f_equal. exact He.
  - intros r Hr. destruct (Hsurj r Hr) as [Hb He].
    apply (count_unique _ _ ((r - c) mod R)).
    + apply residues_NoDup.
    + apply residues_spec. exact Hb.
    + rewrite combine_eq by exact Hnz. simpl. apply Z.eqb_eq. exact He.
    + intros y Hy E. apply residues_spec in Hy.
      rewrite combine_eq in E by exact Hnz. simpl in E. apply Z.eqb_eq in E.
      apply Hinj; [exact Hy | exact Hb |]. rewrite E, He. reflexivity.
Qed.

Lemma combine_bijection_witness :
  0 < 6 /\ 0 <= 5 < 6 /\
  map (combine 6 [] "" 5) (residues 6) =
    [Some 5; Some 0; Some 1; Some 2; Some 3; Some 4] /\
  (forall r, 0 <= r < 6 ->
     count (fun v => option_is r (combine 6 [] "" 5 v)) (residues 6) = 1%nat).
Proof.
  assert (H6 : 0 < 6) by lia.
  assert (H5 : 0 <= 5 < 6) by lia.
  split; [exact H6 |]. split; [exact H5 |]. split; [reflexivity |].
  exact (proj2 (proj2 (proj2 (combine_bijection 6 5 [] "" H6 H5)))).
Defined.

(** *** Range reduction by rejection sampling *)

Section RejectionSampling.

Import RandomGenerator.

Lemma byte_to_Z_range (b : byte) : 0 <= byte_to_Z b < 256.
Proof.
  unfold byte_to_Z. pose proof (Byte.to_N_bounded b) as H. lia.
Qed.

Lemma int_from_bytes_big_acc (bs : list byte) (acc : Z) :
  0 <= acc ->
  0 <= fold_left (fun a b => a * 256 + byte_to_Z b) bs acc
    < (acc + 1) * 256 ^ Z.of_nat (length bs).
Proof.
  revert acc. induction bs as [| b bs IH]; intros acc Hacc.
  - simpl. lia.
  - cbn [fold_left length]. pose proof (byte_to_Z_range b) as Hb.
    specialize (IH (acc * 256 + byte_to_Z b) ltac:(lia)).
    rewrite Nat2Z.inj_succ, Z.pow_succ_r by lia.
    assert (Hp : 0 < 256 ^ Z.of_nat (length bs)) by (apply Z.pow_pos_nonneg; lia).
    split; [lia |]. nia.
Qed.

Lemma int_from_bytes_big_range (bs : list byte) :
  0 <= int_from_bytes_big bs < 256 ^ Z.of_nat (length bs).
Proof.
  pose proof (int_from_bytes_big_acc bs 0 ltac:(lia)) as H.
  unfold int_from_bytes_big. lia.
Qed.

Lemma candidate_range (w : World) : 0 <= candidate w < 2 ^ 256.
Proof.
  pose proof (int_from_bytes_big_range (map (mt_tape w) (seq (mt_pos w) 32))) as H.
  rewrite List.length_map, List.length_seq in H.
  change (256 ^ Z.of_nat 32) with (2 ^ 256) in H. exact H.
Qed.

Lemma generate_secure_random_256 (w : World) :
  generate_secure_random 256 w =
  (Ret (map (mt_tape w) (seq (mt_pos w) 32)), after_draw w).
Proof. reflexivity. Qed.

(** One iteration of the loop. *)
Lemma generate_random_int_step (fuel : nat) (range_max : Z) (w : World) :
  range_max <> 0 ->
  generate_random_int (S fuel) range_max w =
  if accepted range_max (candidate w)
  then (Ret (candidate w mod range_max), after_draw w)
  else generate_random_int fuel range_max (after_draw w).
Proof.
  intros Hnz. cbn [generate_random_int]. unfold bind at 1.
  rewrite generate_secure_random_256. unfold bind, lift, floordiv, mod_.
  destruct (Z.eqb_spec range_max 0) as [E | _]; [contradiction |].
  unfold accepted, candidate.
  destruct (_ <? _); reflexivity.
Qed.

Lemma generate_random_int_zero (fuel : nat) (w : World) :
  generate_random_int (S fuel) 0 w = (Raise ZeroDivisionError, after_draw w).
Proof. reflexivity. Qed.

Lemma generate_random_int_nonzero (fuel : nat) (range_max v : Z) (w w' : World) :
  generate_random_int fuel range_max w = (Ret v, w') -> range_max <> 0.
Proof.
  intros H ->. destruct fuel as [| fuel].
  - discriminate H.
  - rewrite generate_random_int_zero in H. discriminate H.
Qed.

Lemma generate_random_int_range (fuel : nat) (range_max v : Z) (w w' : World) :
  0 < range_max ->
  generate_random_int fuel range_max w = (Ret v, w') -> 0 <= v < range_max.
Proof.
  intros Hpos. revert w. induction fuel as [| fuel IH]; intros w H.
  - discriminate H.
  - rewrite generate_random_int_step in H by lia.
    destruct (accepted range_max (candidate w)).
    + injection H as <- _. apply Z.mod_pos_bound. exact Hpos.
    + apply (IH _ H).
Qed.


End RejectionSampling.



(** *** The commitment digest *)

Section Commitment.

Import RandomGenerator.

Lemma sha3_256_length (m : list byte) : length (Keccak.sha3_256 m) = 32%nat.
Proof.
  unfold Keccak.sha3_256. rewrite List.length_map, List.length_seq. reflexivity.
Qed.

Lemma hex_length (bs : list byte) :
  String.length (hex bs) = (2 * length bs)%nat.
Proof.
  unfold hex. rewrite string_length_of_list_ascii.
  induction bs as [| b bs IH]; simpl; [reflexivity | rewrite IH; lia].
Qed.

Lemma hex_of_byte_lower (b : byte) :
  forallb is_lower_hex (hex_of_byte b) = true.
Proof. destruct b; vm_compute; reflexivity. Qed.

Lemma hex_lower (bs : list byte) :
  forallb is_lower_hex (list_ascii_of_string (hex bs)) = true.
Proof.
  unfold hex. rewrite list_ascii_of_string_of_list_ascii.
  induction bs as [| b bs IH]; [reflexivity |].
  cbn [flat_map]. rewrite List.forallb_app, hex_of_byte_lower, IH. reflexivity.
Qed.

(** Against a pad of one repeated byte, the exclusive or is that of each
    byte of the key with this byte. *)
Lemma xor_bytes_repeat (K : list byte) (c : byte) (n : nat) :
  length K = n ->
  xor_bytes K (repeat c n) =
  map (fun b => byte_of_Z (Z.lxor (byte_to_Z b) (byte_to_Z c))) K.
Proof.
  intros <-. unfold xor_bytes.
  induction K as [| b K IH]; [reflexivity |].
  cbn [length repeat List.combine map fst snd]. f_equal. exact IH.
Qed.

(** The key that [hmac.new] prepares fills one block. *)
Lemma block_key_length (key : list byte) :
  length ((if (136 <? length key)%nat then Keccak.sha3_256 key else key) ++
          repeat x00
            (136 - length (if (136 <? length key)%nat
                           then Keccak.sha3_256 key else key))) = 136%nat.
Proof.
  rewrite List.length_app, List.repeat_length.
  destruct (Nat.ltb_spec 136 (length key)) as [Hlong | Hshort].
  - rewrite sha3_256_length. reflexivity.
  - lia.
Qed.

(** What [hmac.new(key, msg, hashlib.sha3_256).hexdigest()] computes, with
    its two hash objects fed in turn, is the RFC 2104 formula. *)
Lemma hmac_new_hexdigest (key msg : list byte) :
  Hmac.hexdigest (Hmac.new key msg) = hex (hmac_sha3_256 key msg).
Proof.
  unfold hmac_sha3_256. cbv zeta.
  rewrite !xor_bytes_repeat by apply block_key_length.
  unfold Hmac.hexdigest, Hmac.new, Hmac.digest, Hmac.update, Hmac.ljust,
    Hmac.translate, Hmac.block_size, Keccak.rate.
  cbn [Hmac.fed Hmac.inner Hmac.outer app]. reflexivity.
Qed.

(** Reading the decimal numeral of an int back gives the int again, within
    the limit on digits. *)
Lemma int_of_str_decimal (z : Z) : writable z -> int_of_str (decimal z) = Ret z.
Proof.
  intros Hz. unfold int_of_str. rewrite (int_literal_str z Hz). reflexivity.
Qed.

Lemma calculate_hmac_writable (key : list byte) (message : Z) :
  writable message ->
  calculate_hmac key message =
  Ret (hex (hmac_sha3_256 key (encode (decimal message)))).
Proof.
  intros Hm. unfold calculate_hmac. rewrite (str_writable message Hm).
  cbn [and_then]. rewrite hmac_new_hexdigest. reflexivity.
Qed.

Lemma calculate_hmac_unwritable (key : list byte) (message : Z) :
  ~ writable message -> calculate_hmac key message = Raise str_limit_error.
Proof.
  intros Hm. unfold calculate_hmac. rewrite (str_unwritable message Hm).
  reflexivity.
Qed.

Lemma calculate_hmac_outcome (key : list byte) (message : Z) :
  match calculate_hmac key message with
  | Ret digest =>
      writable message /\
      digest = hex (hmac_sha3_256 key (encode (decimal message))) /\
      String.length digest = 64%nat
  | Raise e => e = str_limit_error /\ ~ writable message
  | Timeout => False
  end.
Proof.
  unfold calculate_hmac. pose proof (str_outcome message) as H.
  destruct (str message) as [s | e |]; cbn [and_then]; [| exact H | exact H].
  destruct H as [-> H]. split; [exact H |].
  rewrite hmac_new_hexdigest. split; [reflexivity |].
  unfold hmac_sha3_256. cbv zeta. rewrite hex_length, sha3_256_length.
  reflexivity.
Qed.

(** Ten to the power 4300 has 4301 digits. *)
Lemma power_of_ten_unwritable :
  ~ writable (10 ^ 4300) /\ ~ writable (- 10 ^ 4300).
Proof.
  pose proof ten_pow_limit_pos as Hpos.
  rewrite !writable_iff.
  change (Z.of_nat int_max_str_digits) with 4300.
  revert Hpos. generalize (10 ^ 4300). intros x Hpos. split; lia.
Qed.

End Commitment.

(** C5, as the claim states it, fails: not every integer value has a
    digest. The value [10^4300], whose numeral has 4301 digits, makes
    [str(message)] raise [ValueError], and so does its opposite. *)
Lemma calculate_hmac_refuses_long_numerals :
  RandomGenerator.calculate_hmac (repeat x00 32) (10 ^ 4300) =
    Raise str_limit_error /\
  RandomGenerator.calculate_hmac [] (- 10 ^ 4300) = Raise str_limit_error.
Proof.
  destruct power_of_ten_unwritable as [Hp Hn]. split.
  - exact (calculate_hmac_unwritable _ _ Hp).
  - exact (calculate_hmac_unwritable _ _ Hn).
Qed.

(** C5, amended. For every key and every integer value of at most 4300
    decimal digits, [calculate_hmac] returns the lowercase hexadecimal
    encoding of HMAC over SHA3-256 (RFC 2104), keyed by the key, of the
    encoded decimal numeral of the value; the numeral determines the value,
    and the digest is 64 characters long. It is a function of the key and
    the value alone: it reads and writes no state. For a value of more
    digits it returns no digest: [str] raises [ValueError]. *)
Theorem calculate_hmac_is_hmac_sha3_256_hex (key : list byte) (value : Z) :
  (writable value ->
   exists digest,
     RandomGenerator.calculate_hmac key value = Ret digest /\
     digest = hex (hmac_sha3_256 key (encode (decimal value))) /\
     int_of_str (decimal value) = Ret value /\
     String.length digest = 64%nat /\
     forallb is_lower_hex (list_ascii_of_string digest) = true) /\
  (~ writable value ->
   RandomGenerator.calculate_hmac key value = Raise str_limit_error) /\
  (writable value <-> Z.abs value < 10 ^ 4300).
Proof.
  split; [| split; [exact (calculate_hmac_unwritable key value) |
                    exact (writable_iff value)]].
  intros Hvalue. eexists.
  split; [exact (calculate_hmac_writable key value Hvalue) |].
  split; [reflexivity |].
  split; [exact (int_of_str_decimal value Hvalue) |].
  split; [| apply hex_lower].
  unfold hmac_sha3_256. cbv zeta. rewrite hex_length, sha3_256_length.
  reflexivity.
Qed.

Lemma calculate_hmac_is_hmac_sha3_256_hex_witness :
  writable (-17) /\
  RandomGenerator.calculate_hmac
    (map (fun n => byte_of_Z (Z.of_nat n)) (seq 0 200)) (-17) =
  Ret "a6454a648c18f62431df6831ef6ea2a2c2a4c97c84fc0ca38c379af3381aecbf"%string /\
  hex (hmac_sha3_256 (map (fun n => byte_of_Z (Z.of_nat n)) (seq 0 200))
         (encode "-17")) =
  "a6454a648c18f62431df6831ef6ea2a2c2a4c97c84fc0ca38c379af3381aecbf"%string.
Proof.
  assert (H : writable (-17)) by (apply Nat.leb_le; vm_compute; reflexivity).
  split; [exact H |].
  destruct (proj1 (calculate_hmac_is_hmac_sha3_256_hex
                     (map (fun n => byte_of_Z (Z.of_nat n)) (seq 0 200)) (-17))
              H)
    as (digest & E & Hd & _).
  assert (Hv : hex (hmac_sha3_256
                      (map (fun n => byte_of_Z (Z.of_nat n)) (seq 0 200))
                      (encode "-17")) =
               "a6454a648c18f62431df6831ef6ea2a2c2a4c97c84fc0ca38c379af3381aecbf"%string)
    by (vm_compute; reflexivity).
  split; [| exact Hv].
  rewrite E, Hd. apply (f_equal Ret). exact Hv.
Defined.

(** *** The source of randomness *)

(** C4 (the code departs from it). [generate_secure_random] returns the
    next bytes of the [random] module's generator: they are a function of
    that generator's state, the same whatever the operating system's
    entropy pool holds, and the call cannot fail for lack of entropy. *)
Theorem generate_secure_random_reads_mersenne_twister
    (w : World) (pool : nat -> byte) :
  RandomGenerator.generate_secure_random 256 w =
    (Ret (map (mt_tape w) (seq (mt_pos w) 32)), after_draw w) /\
  fst (RandomGenerator.generate_secure_random 256
         (mkWorld (mt_tape w) (mt_pos w) pool (stdin w) (stdout w))) =
  fst (RandomGenerator.generate_secure_random 256 w).
Proof. split; reflexivity. Qed.

(** *** Rounds built by the constructor *)

Section Rounds.

Import FairPlay.

(** The parts of the world that only [input] and [print] change. *)
Lemma generate_random_int_streams (fuel : nat) (range_max : Z) (w : World) :
  stdin (snd (RandomGenerator.generate_random_int fuel range_max w)) = stdin w /\
  stdout (snd (RandomGenerator.generate_random_int fuel range_max w)) = stdout w.
Proof.
  revert w. induction fuel as [| fuel IH]; intros w.
  - split; reflexivity.
  - destruct (Z.eq_dec range_max 0) as [-> | Hnz].
    + rewrite generate_random_int_zero. split; reflexivity.
    + rewrite generate_random_int_step by exact Hnz.
      destruct (accepted range_max (candidate w)).
      * split; reflexivity.
      * destruct (IH (after_draw w)) as [Hi Ho]. rewrite Hi, Ho.
        split; reflexivity.
Qed.

Lemma init_unfold (fuel : nat) (range_max : Z) (w : World) :
  init fuel range_max w =
  match RandomGenerator.generate_random_int fuel range_max (after_draw w) with
  | (Ret v, w') =>
      match RandomGenerator.calculate_hmac
              (map (mt_tape w) (seq (mt_pos w) 32)) v with
      | Ret digest =>
          (Ret (mk range_max (map (mt_tape w) (seq (mt_pos w) 32)) v digest),
           w')
      | Raise e => (Raise e, w')
      | Timeout => (Timeout, w')
      end
  | (Raise e, w') => (Raise e, w')
  | (Timeout, w') => (Timeout, w')
  end.
Proof.
  unfold init. unfold bind at 1. rewrite generate_secure_random_256.
  unfold bind at 1.
  destruct (RandomGenerator.generate_random_int fuel range_max (after_draw w))
    as [[v | e |] w']; [| reflexivity | reflexivity].
  unfold bind, lift, ret.
  destruct (RandomGenerator.calculate_hmac _ v); reflexivity.
Qed.

Lemma init_inv (fuel : nat) (rm : Z) (w w' : World) (fp : t) :
  init fuel rm w = (Ret fp, w') ->
  range_max fp = rm /\ rm <> 0 /\
  secret_key fp = map (mt_tape w) (seq (mt_pos w) 32) /\
  RandomGenerator.generate_random_int fuel rm (after_draw w) =
    (Ret (computer_number fp), w') /\
  RandomGenerator.calculate_hmac (secret_key fp) (computer_number fp) =
    Ret (hmac fp) /\
  stdin w' = stdin w /\ stdout w' = stdout w.
Proof.
  rewrite init_unfold. intros H.
  pose proof (generate_random_int_streams fuel rm (after_draw w)) as [Hi Ho].
  destruct (RandomGenerator.generate_random_int fuel rm (after_draw w))
    as [[v | e |] w1] eqn:E; try discriminate H.
  destruct (RandomGenerator.calculate_hmac _ v) as [digest | e |] eqn:Eh;
    try discriminate H.
  injection H as <- <-. cbn [range_max secret_key computer_number hmac].
  repeat split; try reflexivity.
  - exact (generate_random_int_nonzero _ _ _ _ _ E).
  - exact Eh.
  - exact Hi.
  - exact Ho.
Qed.

End Rounds.

(** The rounds that the constructor builds in [demo_world] with modulus 6
    and with modulus 2. *)
Lemma init_demo (lines : list string) :
  FairPlay.init 1 6 (demo_world lines) =
  (Ret (FairPlay.mk 6 (map (mt_tape (demo_world lines)) (seq 0 32)) 4
          "cfae9118c23b62f874eddb9101a0a1dbbbc2f2d4e6ccbc3e3c78d1bc44bd2342"),
   after_draw (after_draw (demo_world lines))).
Proof. vm_compute. reflexivity. Defined.

Lemma init_demo_2 (lines : list string) :
  FairPlay.init 1 2 (demo_world lines) =
  (Ret (FairPlay.mk 2 (map (mt_tape (demo_world lines)) (seq 0 32)) 0
          (hex (hmac_sha3_256 (map (mt_tape (demo_world lines)) (seq 0 32))
                  (encode "0")))),
   after_draw (after_draw (demo_world lines))).
Proof. vm_compute. reflexivity. Defined.

(** *** Verification of a commitment *)

(** C6 (the code departs from it). Neither class has an operation that
    recomputes a commitment and compares it with a digest. The one method
    named for it, [verify_and_get_result], takes the peer's number alone and
    reads neither the digest of its round nor [calculate_hmac]: its answer is
    the same whatever digest the round holds, so a round whose digest [00] is
    not the commitment of its key and number is answered like the genuine
    one, and nothing that it returns says whether a digest matched. *)
Theorem verify_and_get_result_compares_no_digest
    (fp : FairPlay.t) (digest : string) (user_number : Z) :
  FairPlay.verify_and_get_result
    (FairPlay.mk (FairPlay.range_max fp) (FairPlay.secret_key fp)
                 (FairPlay.computer_number fp) digest) user_number =
  FairPlay.verify_and_get_result fp user_number /\
  str_in "verify" (RandomGenerator.methods ++ FairPlay.methods) = false /\
  RandomGenerator.calculate_hmac (repeat x00 32) 4 <> Ret "00"%string /\
  FairPlay.verify_and_get_result (FairPlay.mk 6 (repeat x00 32) 4 "00") 3 =
    Ret (1, repeat x00 32) /\
  FairPlay.verify_and_get_result demo_round 3 = Ret (1, repeat x00 32).
Proof.
  split; [reflexivity |]. split; [reflexivity |].
  split; [rewrite calculate_hmac_zero_key_4; discriminate |].
  split; reflexivity.
Qed.

(** *** Dice *)

(** C8. Building a die from a sequence whose length is not 6 fails (with
    the [ValueError] that stands for the invalid die specification), as it
    does for [[1,2,3,4,5]]; building it from exactly 6 integers succeeds and
    the die holds these faces unchanged. *)
Theorem dice_init_exactly_six_faces (faces : list Z) :
  (length faces <> 6%nat ->
   Dice.init faces = Raise (ValueError "Each dice must have exactly 6 faces.")) /\
  (length faces = 6%nat ->
   exists d, Dice.init faces = Ret d /\ Dice.faces d = faces) /\
  Dice.init [1; 2; 3; 4; 5] =
    Raise (ValueError "Each dice must have exactly 6 faces.").
Proof.
  unfold Dice.init. split; [| split].
  - intros H. destruct (Nat.eqb_spec (length faces) 6); [contradiction | reflexivity].
  - intros H. rewrite H. exists (Dice.mk faces). split; reflexivity.
  - reflexivity.
Qed.

Lemma dice_init_exactly_six_faces_witness :
  Dice.init [1; 2; 3; 4; 5; 6; 7] =
    Raise (ValueError "Each dice must have exactly 6 faces.") /\
  exists d, Dice.init [2; 2; 4; 4; 9; 9] = Ret d /\
            Dice.faces d = [2; 2; 4; 4; 9; 9].
Proof.
  split.
  - apply (proj1 (dice_init_exactly_six_faces [1; 2; 3; 4; 5; 6; 7])).
    simpl. lia.
  - apply (proj1 (proj2 (dice_init_exactly_six_faces [2; 2; 4; 4; 9; 9]))).
    reflexivity.
Defined.

(** *** The table of win probabilities *)

Lemma existsb_eqb_In (x : nat) (l : list nat) :
  (existsb (Nat.eqb x) l = true <-> In x l) /\
  (~ In x l -> existsb (Nat.eqb x) l = false).
Proof.
  assert (H : existsb (Nat.eqb x) l = true <-> In x l).
  { rewrite existsb_exists. split.
    - intros (y & Hy & E). apply Nat.eqb_eq in E. subst y. exact Hy.
    - intros Hx. exists x. split; [exact Hx | apply Nat.eqb_refl]. }
  split; [exact H |].
  intros Hn. destruct (existsb (Nat.eqb x) l); [| reflexivity].
  exfalso. apply Hn, H. reflexivity.
Qed.

Lemma existsb_eqb_seq (x n : nat) :
  existsb (Nat.eqb x) (seq 0 n) = (x <? n)%nat.
Proof.
  destruct (Nat.ltb_spec x n) as [Hlt | Hge].
  - apply existsb_eqb_In, in_seq. lia.
  - apply existsb_eqb_In. rewrite in_seq. lia.
Qed.

Section WinProbabilities.

Import ProbabilityCalculator.

Variable dice_list : list Dice.t.

Lemma setitem2_cell (P : list (list pynum)) (i j i' j' : nat) (v : pynum) :
  cell (setitem2 P i j v) i' j' =
  if ((i' =? i) && (j' =? j))%nat then overwrite v (cell P i' j')
  else cell P i' j'.
Proof.
  unfold cell, setitem2. rewrite list_lookup_alter.
  destruct (decide (i = i')) as [<- | Hi].
  - rewrite Nat.eqb_refl. cbn [andb].
    destruct (P !! i) as [row |] eqn:Hrow; cbn [fmap option_fmap option_map].
    + rewrite list_lookup_insert.
      destruct (Nat.eqb_spec j' j) as [-> | Hj].
      * destruct (decide (j = j ∧ (j < length row)%nat)) as [[_ Hlt] | Hn].
        -- destruct (lookup_lt_is_Some_2 row j Hlt) as [x ->]. reflexivity.
        -- rewrite (proj2 (lookup_ge_None row j)); [reflexivity | lia].
      * destruct (decide (j = j' ∧ (j < length row)%nat)) as [[E _] | _];
          [congruence | reflexivity].
    + destruct (j' =? j)%nat; reflexivity.
  - destruct (Nat.eqb_spec i' i) as [E | _]; [congruence | reflexivity].
Qed.

Lemma inner_step_cell (i : nat) (P : list (list pynum)) (j i' j' : nat) :
  cell (inner_step dice_list i P j) i' j' =
  if ((i' =? i) && (j' =? j) && negb (i =? j))%nat
  then overwrite (stored dice_list i j) (cell P i' j')
  else cell P i' j'.
Proof.
  unfold inner_step. destruct (i =? j)%nat; cbn [negb].
  - rewrite andb_false_r. reflexivity.
  - rewrite setitem2_cell, andb_true_r. reflexivity.
Qed.

Lemma overwrite_twice (v : pynum) (o : option pynum) :
  overwrite v (overwrite v o) = overwrite v o.
Proof. destruct o; reflexivity. Qed.

(** After the [j] loop over the columns [js], row [i] holds the stored
    value in each of these columns but [i]; nothing else changed. *)
Lemma inner_loop_cell (i : nat) (js : list nat) (P : list (list pynum))
    (i' j' : nat) :
  cell (fold_left (inner_step dice_list i) js P) i' j' =
  if ((i' =? i) && existsb (Nat.eqb j') js && negb (i =? j'))%nat
  then overwrite (stored dice_list i j') (cell P i' j')
  else cell P i' j'.
Proof.
  revert P. induction js as [| j js IH]; intros P.
  - cbn [fold_left existsb]. rewrite andb_false_r. reflexivity.
  - cbn [fold_left existsb]. rewrite IH, inner_step_cell.
    destruct (Nat.eqb_spec i' i) as [-> | Hi]; cbn [andb]; [| reflexivity].
    destruct (Nat.eqb_spec j' j) as [-> | Hj]; cbn [orb andb]; [| reflexivity].
    destruct (i =? j)%nat, (existsb (Nat.eqb j) js); cbn [negb andb];
      rewrite ?overwrite_twice; reflexivity.
Qed.

Lemma outer_loop_cell (n : nat) (rows : list nat) (P : list (list pynum))
    (i' j' : nat) :
  List.NoDup rows ->
  cell (fold_left (outer_step dice_list n) rows P) i' j' =
  if (existsb (Nat.eqb i') rows && (j' <? n) && negb (i' =? j'))%nat
  then overwrite (stored dice_list i' j') (cell P i' j')
  else cell P i' j'.
Proof.
  intros Hnd. revert P. induction Hnd as [| i rows Hnotin Hnd IH]; intros P.
  - reflexivity.
  - cbn [fold_left existsb]. rewrite IH.
    rewrite (inner_loop_cell i (seq 0 n) P i' j' : cell (outer_step dice_list n P i) i' j' = _).
    rewrite existsb_eqb_seq.
    destruct (Nat.eqb_spec i' i) as [-> | Hi]; cbn [orb andb]; [| reflexivity].
    rewrite (proj2 (existsb_eqb_In i rows)) by exact Hnotin.
    cbn [andb]. reflexivity.
Qed.

Lemma initial_cell (n i j : nat) :
  cell (replicate n (replicate n (PyInt 0))) i j =
  if ((i <? n) && (j <? n))%nat then Some (PyInt 0) else None.
Proof.
  unfold cell. destruct (Nat.ltb_spec i n) as [Hi | Hi]; cbn [andb].
  - rewrite lookup_replicate_2 by exact Hi.
    destruct (Nat.ltb_spec j n) as [Hj | Hj].
    + apply lookup_replicate_2. exact Hj.
    + apply lookup_replicate_None. exact Hj.
  - rewrite (proj1 (lookup_replicate_None n _ i) Hi). reflexivity.
Qed.

Lemma calculate_win_probabilities_cell (i j : nat) :
  cell (calculate_win_probabilities dice_list) i j =
  if ((i <? length dice_list) && (j <? length dice_list))%nat
  then Some (if (i =? j)%nat then PyInt 0 else stored dice_list i j)
  else None.
Proof.
  unfold calculate_win_probabilities.
  pose proof (outer_loop_cell (length dice_list) (seq 0 (length dice_list))
                (replicate (length dice_list)
                   (replicate (length dice_list) (PyInt 0))) i j
                (List.seq_NoDup _ _)) as H.
  etransitivity; [exact H |]. clear H.
  rewrite initial_cell.
  rewrite existsb_eqb_seq.
  destruct (i <? length dice_list)%nat, (j <? length dice_list)%nat,
    (i =? j)%nat; reflexivity.
Qed.

End WinProbabilities.

Section WinCount.

Import ProbabilityCalculator.

Lemma count_wins_inner (face_i : Z) (faces_j : list Z) (acc : Z) :
  fold_left (fun win_count face_j =>
               if face_i >? face_j then win_count + 1 else win_count)
            faces_j acc =
  acc + Z.of_nat (count (fun face_j => face_j <? face_i) faces_j).
Proof.
  revert acc. induction faces_j as [| b l IH]; intros acc.
  - unfold count. simpl. lia.
  - cbn [fold_left]. rewrite IH. unfold count. cbn [List.filter].
    rewrite Z.gtb_ltb. destruct (b <? face_i); cbn [length]; lia.
Qed.

Lemma count_wins_pairs (faces_i faces_j : list Z) :
  count_wins faces_i faces_j =
  Z.of_nat (count (fun p => snd p <? fst p) (list_prod faces_i faces_j)).
Proof.
  unfold count_wins.
  enough (H : forall acc,
             fold_left
               (fun win_count face_i =>
                  fold_left
                    (fun win_count face_j =>
                       if face_i >? face_j then win_count + 1 else win_count)
                    faces_j win_count)
               faces_i acc =
             acc + Z.of_nat (count (fun p => snd p <? fst p)
                                   (list_prod faces_i faces_j))).
  { rewrite H. lia. }
  induction faces_i as [| a l IH]; intros acc.
  - unfold count. simpl. lia.
  - cbn [fold_left list_prod]. rewrite IH, count_wins_inner.
    rewrite count_app, count_map. cbn [fst snd]. lia.
Qed.

Lemma fold_left_invariant {S X} (I : S -> Prop) (f : S -> X -> S)
    (l : list X) (s : S) :
  I s -> (forall s x, I s -> I (f s x)) -> I (fold_left f l s).
Proof.
  intros Hs Hstep. revert s Hs. induction l as [| x l IH]; intros s Hs.
  - exact Hs.
  - apply IH, Hstep, Hs.
Qed.

Lemma setitem2_shape (n : nat) (P : list (list pynum)) (i j : nat) (v : pynum) :
  length P = n /\ Forall (fun row => length row = n) P ->
  length (setitem2 P i j v) = n /\
  Forall (fun row => length row = n) (setitem2 P i j v).
Proof.
  intros [HP Hrows]. unfold setitem2. split.
  - rewrite length_alter. exact HP.
  - apply Forall_alter; [exact Hrows |].
    intros row _ Hrow. rewrite length_insert. exact Hrow.
Qed.

Lemma calculate_win_probabilities_shape (dice_list : list Dice.t) :
  length (calculate_win_probabilities dice_list) = length dice_list /\
  Forall (fun row => length row = length dice_list)
         (calculate_win_probabilities dice_list).
Proof.
  unfold calculate_win_probabilities.
  apply (fold_left_invariant
           (fun P => length P = length dice_list /\
                     Forall (fun row => length row = length dice_list) P)).
  - split; [apply length_replicate |].
    apply Forall_replicate, length_replicate.
  - intros P i HP. apply fold_left_invariant; [exact HP |].
    intros P' j HP'. destruct (negb (i =? j)%nat); [| exact HP'].
    apply setitem2_shape. exact HP'.
Qed.

End WinCount.

(** C9. For every list of [n] dice, [calculate_win_probabilities] (a
    function of the list alone) returns [n] rows of [n] cells; for [i <> j]
    the cell [(i, j)] is the float quotient by 36 of the number of ordered
    face pairs in which the face of die [i] strictly exceeds the face of die
    [j], there being 36 such pairs for six-faced dice; and every diagonal
    cell is still the [0] it was initialised with. *)
Theorem calculate_win_probabilities_matrix (dice_list : list Dice.t) :
  length (ProbabilityCalculator.calculate_win_probabilities dice_list)
    = length dice_list /\
  Forall (fun row => length row = length dice_list)
         (ProbabilityCalculator.calculate_win_probabilities dice_list) /\
  (forall i j di dj,
     dice_list !! i = Some di -> dice_list !! j = Some dj -> i <> j ->
     cell (ProbabilityCalculator.calculate_win_probabilities dice_list) i j
       = Some (PyFloat (truediv (wins di dj) 36))) /\
  (forall i di,
     dice_list !! i = Some di ->
     cell (ProbabilityCalculator.calculate_win_probabilities dice_list) i i
       = Some (PyInt 0)) /\
  (forall di dj,
     length (Dice.faces di) = 6%nat -> length (Dice.faces dj) = 6%nat ->
     length (face_pairs di dj) = 36%nat).
Proof.
  destruct (calculate_win_probabilities_shape dice_list) as [Hlen Hrows].
  split; [exact Hlen |]. split; [exact Hrows |]. split; [| split].
  - intros i j di dj Hi Hj Hne.
    rewrite calculate_win_probabilities_cell.
    pose proof (lookup_lt_Some _ _ _ Hi) as Hlti.
    pose proof (lookup_lt_Some _ _ _ Hj) as Hltj.
    rewrite (proj2 (Nat.ltb_lt _ _) Hlti), (proj2 (Nat.ltb_lt _ _) Hltj).
    rewrite (proj2 (Nat.eqb_neq _ _) Hne). cbn [andb].
    unfold stored, ProbabilityCalculator.faces_at. rewrite Hi, Hj.
    rewrite count_wins_pairs. reflexivity.
  - intros i di Hi. rewrite calculate_win_probabilities_cell.
    pose proof (lookup_lt_Some _ _ _ Hi) as Hlti.
    rewrite (proj2 (Nat.ltb_lt _ _) Hlti), Nat.eqb_refl. reflexivity.
  - intros di dj Hi Hj. unfold face_pairs. rewrite length_prod, Hi, Hj.
    reflexivity.
Qed.

Lemma calculate_win_probabilities_matrix_witness :
  cell (ProbabilityCalculator.calculate_win_probabilities demo_dice) 0 1
    = Some (PyFloat (truediv 20 36)) /\
  cell (ProbabilityCalculator.calculate_win_probabilities demo_dice) 1 0
    = Some (PyFloat (truediv 16 36)) /\
  cell (ProbabilityCalculator.calculate_win_probabilities demo_dice) 2 2
    = Some (PyInt 0).
Proof.
  pose proof (calculate_win_probabilities_matrix demo_dice)
    as (_ & _ & Hcell & Hdiag & _).
  split; [| split].
  - exact (Hcell 0%nat 1%nat _ _ eq_refl eq_refl ltac:(discriminate)).
  - exact (Hcell 1%nat 0%nat _ _ eq_refl eq_refl ltac:(discriminate)).
  - exact (Hdiag 2%nat _ eq_refl).
Defined.

(** *** Contributions typed at the prompts *)

Section Prompts.

Import DiceGame.

Lemma wrote_wrote (w : World) (o1 o2 : list output) :
  wrote (wrote w o1) o2 = wrote w (o1 ++ o2).
Proof. unfold wrote. cbn. rewrite <- List.app_assoc. reflexivity. Qed.

Lemma only_writes_ret {A} (a : A) : only_writes (ret a).
Proof.
  intros w. exists a, []. unfold ret, wrote. rewrite List.app_nil_r.
  destruct w; reflexivity.
Qed.

Lemma only_writes_emit (o : output) : only_writes (emit o).
Proof. intros w. exists tt, [o]. reflexivity. Qed.

Lemma only_writes_bind {A B} (m : M A) (k : A -> M B) :
  only_writes m -> (forall a, only_writes (k a)) -> only_writes (bind m k).
Proof.
  intros Hm Hk w. destruct (Hm w) as (a & o1 & E1).
  destruct (Hk a (wrote w o1)) as (b & o2 & E2).
  exists b, (o1 ++ o2). unfold bind. rewrite E1, E2, wrote_wrote. reflexivity.
Qed.

Lemma only_writes_print_rows (rows : list (list pynum)) (i : nat) :
  only_writes (CLI.print_rows i rows).
Proof.
  revert i. induction rows as [| row rows IH]; intros i; cbn [CLI.print_rows].
  - apply only_writes_ret.
  - apply only_writes_bind; [apply only_writes_emit | intros _; apply IH].
Qed.

Lemma only_writes_display_help (dice_list : list Dice.t) :
  only_writes (CLI.display_help dice_list).
Proof.
  unfold CLI.display_help, print.
  apply only_writes_bind; [apply only_writes_emit | intros _].
  apply only_writes_bind; [apply only_writes_emit | intros _].
  apply only_writes_print_rows.
Qed.

Lemma selects_not_exit_nor_help (line : string) :
  selects line = true ->
  String.eqb (lower (strip line)) "x" = false /\
  String.eqb (lower (strip line)) "?" = false.
Proof.
  unfold selects, str_in, throw_options. cbn [existsb].
  intros H. repeat (apply orb_true_iff in H; destruct H as [H | H]);
    try discriminate H; apply String.eqb_eq in H; rewrite H; split; reflexivity.
Qed.

(** The loop of [get_throw]: lines that make it ask again are read one
    after the other, then the line that selects a number ends it. The loop
    only reads lines and writes. *)
Lemma get_throw_selection_loop (self : t) (bads : list string) :
  forall (n : nat) (w : World) (good : string) (rest : list string),
  stdin w = bads ++ good :: rest ->
  Forall (fun line => reprompts line = true) bads ->
  selects good = true ->
  (length bads < n)%nat ->
  exists out,
    prompt_loop_n n "Your selection: " (selection_body self) w =
    (Ret (lower (strip good)),
     mkWorld (mt_tape w) (mt_pos w) (os_entropy w) rest (stdout w ++ out)).
Proof.
  induction bads as [| bad bads IH]; intros n w good rest Hin Hbads Hgood Hn.
  - destruct n as [| n]; [lia |]. cbn [app] in Hin.
    destruct (selects_not_exit_nor_help good Hgood) as [Hx Hh].
    exists [Prompt "Your selection: "].
    cbn [prompt_loop_n]. unfold bind at 1. unfold input. rewrite Hin.
    unfold bind at 1. unfold selection_body. cbv zeta. rewrite Hx, Hh.
    unfold selects in Hgood. rewrite Hgood. reflexivity.
  - destruct n as [| n]; [lia |]. cbn [app] in Hin.
    apply Forall_cons_1 in Hbads. destruct Hbads as [Hbad Hbads].
    unfold reprompts in Hbad. cbv zeta in Hbad.
    apply andb_true_iff in Hbad. destruct Hbad as [Hx Hopt].
    apply negb_true_iff in Hx. apply negb_true_iff in Hopt.
    cbn [prompt_loop_n]. unfold bind at 1. unfold input. rewrite Hin.
    unfold bind at 1. unfold selection_body at 1. cbv zeta. rewrite Hx.
    set (w1 := mkWorld (mt_tape w) (mt_pos w) (os_entropy w)
                       (bads ++ good :: rest)
                       (stdout w ++ [Prompt "Your selection: "])).
    assert (Hbody : exists out1,
              (if String.eqb (lower (strip bad)) "?"
               then CLI.display_help (dice_list self) ;;; ret None
               else if str_in (lower (strip bad)) throw_options
                    then ret (Some (lower (strip bad)))
                    else print "Invalid input. Please select a number between 0 and 5, or type '?' for help." ;;;
                         ret None) w1 =
              (Ret (@None string), wrote w1 out1)).
    { destruct (String.eqb (lower (strip bad)) "?").
      - destruct (only_writes_display_help (dice_list self) w1) as ([] & o & E).
        exists o. unfold bind. rewrite E. reflexivity.
      - rewrite Hopt. eexists. reflexivity. }
    destruct Hbody as (out1 & Hbody). rewrite Hbody. cbv beta iota.
    destruct (IH n (wrote w1 out1) good rest) as (out2 & E);
      [reflexivity | exact Hbads | exact Hgood | simpl in Hn; lia |].
    exists ([Prompt "Your selection: "] ++ out1 ++ out2).
    etransitivity; [exact E |].
    unfold wrote, w1. cbn. rewrite <- !List.app_assoc. reflexivity.
Qed.

Lemma get_throw_selection_reprompts (self : t) (w : World)
    (bads : list string) (good : string) (rest : list string) :
  stdin w = bads ++ good :: rest ->
  Forall (fun line => reprompts line = true) bads ->
  selects good = true ->
  exists out,
    get_throw_selection self w =
    (Ret (lower (strip good)),
     mkWorld (mt_tape w) (mt_pos w) (os_entropy w) rest (stdout w ++ out)).
Proof.
  intros Hin Hbads Hgood. unfold get_throw_selection, prompt_loop.
  apply (get_throw_selection_loop self bads);
    [exact Hin | exact Hbads | exact Hgood |].
  rewrite Hin, List.length_app. lia.
Qed.

End Prompts.

(** C7, as the claim states it, fails: [verify_and_get_result] answers a
    contribution of 7, or of -1, to a round of modulus 6 like any other, and
    [start_game] leaves the process on the line [2] without reading the next
    line. *)
Lemma out_of_range_contribution_not_rejected :
  FairPlay.verify_and_get_result demo_round 7 = Ret (5, repeat x00 32) /\
  FairPlay.verify_and_get_result demo_round (-1) = Ret (3, repeat x00 32) /\
  fst (DiceGame.start_game 1 (DiceGame.mk demo_dice None)
         (demo_world ["2"; "1"])) = Raise (SystemExit 1) /\
  stdin (snd (DiceGame.start_game 1 (DiceGame.mk demo_dice None)
                (demo_world ["2"; "1"]))) = ["1"].
Proof. repeat split; vm_compute; reflexivity. Qed.

(** C7, amended. [verify_and_get_result] rejects no contribution: the
    callers screen the line that was typed. In [start_game] a line other
    than [0] and [1] makes the program print [Invalid input. Exiting.] and
    end with exit status 1, the rest of the input unread and no further draw
    made. In [get_throw] every line other than an exit request and the six
    numbers (once stripped and lowered) makes the round ask again, and the
    line that selects a number is answered by the reveal step of the round
    built before the first prompt: no draw was made meanwhile, and the
    digest announced is that round's. *)
Theorem contributions_are_screened_by_the_callers :
  (forall fp contribution,
     FairPlay.range_max fp <> 0 ->
     exists result,
       FairPlay.verify_and_get_result fp contribution =
       Ret (result, FairPlay.secret_key fp)) /\
  (forall fuel self w fp w1 line rest,
     FairPlay.init fuel 2 w = (Ret fp, w1) ->
     stdin w = line :: rest ->
     str_in line ["0"; "1"] = false ->
     DiceGame.start_game fuel self w =
       (Raise (SystemExit 1),
        read_to w1 rest
          [Line ("I selected a random value in the range 0..1 (HMAC=" +:+
                 FairPlay.hmac fp +:+ ").");
           Prompt "Try to guess my selection (0 or 1): ";
           Line "Invalid input. Exiting."])) /\
  (forall fuel self player w fp w1 bads good rest,
     FairPlay.init fuel 6 w = (Ret fp, w1) ->
     stdin w = bads ++ good :: rest ->
     Forall (fun line => reprompts line = true) bads ->
     selects good = true ->
     exists w2,
       DiceGame.get_throw fuel self player w =
         DiceGame.get_throw_reveal self fp (lower (strip good)) player w2 /\
       mt_tape w2 = mt_tape w1 /\ mt_pos w2 = mt_pos w1 /\ stdin w2 = rest /\
       In (Line ("I selected a random value in the range 0..5 (HMAC=" +:+
                 FairPlay.hmac fp +:+ ")."))
          (stdout w2)).
Proof.
  split; [| split].
  - intros fp c Hnz. eexists. apply verify_and_get_result_ok. exact Hnz.
  - intros fuel self w fp w1 line rest Hinit Hin Hbad.
    destruct (init_inv _ _ _ _ _ Hinit) as (_ & _ & _ & _ & _ & Hin1 & _).
    rewrite Hin in Hin1.
    unfold DiceGame.start_game. unfold bind at 1. rewrite Hinit.
    unfold bind at 1. unfold print at 1, emit. cbv beta iota.
    unfold bind at 1. unfold input. cbn [stdin]. rewrite Hin1.
    cbv beta iota. rewrite Hbad. cbn [negb].
    unfold bind, print, emit, sys_exit, raise, read_to.
    cbn [mt_tape mt_pos os_entropy stdin stdout].
    rewrite <- !List.app_assoc. reflexivity.
  - intros fuel self player w fp w1 bads good rest Hinit Hin Hbads Hgood.
    destruct (init_inv _ _ _ _ _ Hinit) as (_ & _ & _ & _ & _ & Hin1 & _).
    rewrite Hin in Hin1.
    set (announced :=
           wrote w1
             [Line ("I selected a random value in the range 0..5 (HMAC=" +:+
                    FairPlay.hmac fp +:+ ").");
              Line "Add your number modulo 6.";
              Line ("0 - 0" +:+ newline +:+ "1 - 1" +:+ newline +:+ "2 - 2" +:+
                    newline +:+ "3 - 3" +:+ newline +:+ "4 - 4" +:+ newline +:+
                    "5 - 5" +:+ newline +:+ "X - exit" +:+ newline +:+
                    "? - help")]).
    destruct (get_throw_selection_reprompts self announced bads good rest)
      as (out & Hsel); [exact Hin1 | exact Hbads | exact Hgood |].
    eexists. split; [| split; [| split; [| split]]].
    + unfold DiceGame.get_throw. unfold bind at 1. rewrite Hinit.
      unfold bind at 1. unfold print at 1, emit. cbv beta iota.
      unfold bind at 1. unfold print at 1, emit. cbv beta iota.
      unfold bind at 1. unfold print at 1, emit. cbv beta iota.
      unfold bind at 1.
      cbn [mt_tape mt_pos os_entropy stdin stdout].
      rewrite <- !List.app_assoc. cbn [app].
      change (mkWorld (mt_tape w1) (mt_pos w1) (os_entropy w1) (stdin w1) _)
        with announced.
      rewrite Hsel. reflexivity.
    + reflexivity.
    + reflexivity.
    + reflexivity.
    + cbn [stdout]. apply in_or_app. left. unfold announced, wrote.
      cbn [stdout]. apply in_or_app. right. left. reflexivity.
Qed.

Lemma contributions_are_screened_by_the_callers_witness :
  (exists w2,
     DiceGame.start_game 1 (DiceGame.mk demo_dice None) (demo_world ["2"; "1"])
       = (Raise (SystemExit 1), w2) /\
     stdin w2 = ["1"] /\ mt_pos w2 = 64%nat /\
     last (stdout w2) = Some (Line "Invalid input. Exiting.")) /\
  (exists w2,
     DiceGame.get_throw 1 (DiceGame.mk demo_dice None) "user"
       (demo_world [" 7 "; "?"; "six"; nbsp_three; "5"]) =
     DiceGame.get_throw_reveal (DiceGame.mk demo_dice None)
       (FairPlay.mk 6 (map (mt_tape (demo_world [])) (seq 0 32)) 4
          "cfae9118c23b62f874eddb9101a0a1dbbbc2f2d4e6ccbc3e3c78d1bc44bd2342")
       "3" "user" w2 /\
     mt_pos w2 = 64%nat /\ stdin w2 = ["5"]).
Proof.
  pose proof contributions_are_screened_by_the_callers as (_ & Hstart & Hthrow).
  split.
  - eexists. split.
    + exact (Hstart 1%nat (DiceGame.mk demo_dice None) _ _ _ "2" ["1"]
               (init_demo_2 ["2"; "1"]) eq_refl eq_refl).
    + split; [reflexivity |]. split; reflexivity.
  - destruct (Hthrow 1%nat (DiceGame.mk demo_dice None) "user" _ _ _
                [" 7 "; "?"; "six"] nbsp_three ["5"]
                (init_demo [" 7 "; "?"; "six"; nbsp_three; "5"]) eq_refl)
      as (w2 & E & _ & Hpos & Hin & _).
    + repeat constructor.
    + reflexivity.
    + exists w2. split; [exact E |]. split; [exact Hpos | exact Hin].
Defined.

(** ** Further properties of the code *)

(** *** Edges of the range reduction *)

Section RangeEdges.

Import RandomGenerator.

Lemma limit_eq (N range_max : Z) :
  range_max <> 0 -> N / range_max * range_max = N - N mod range_max.
Proof.
  intros Hnz. pose proof (Z.div_mod N range_max Hnz) as H. lia.
Qed.

Lemma accepted_iff (range_max rand : Z) :
  range_max <> 0 ->
  accepted range_max rand = (rand <? 2 ^ 256 - 2 ^ 256 mod range_max).
Proof.
  intros Hnz. unfold accepted. rewrite limit_eq by exact Hnz. reflexivity.
Qed.

Lemma timeout_when_nothing_accepted (range_max : Z) (fuel : nat) :
  range_max <> 0 ->
  (forall rand, 0 <= rand -> accepted range_max rand = false) ->
  forall w, fst (generate_random_int fuel range_max w) = Timeout.
Proof.
  intros Hnz Hrej. induction fuel as [| fuel IH]; intros w.
  - reflexivity.
  - rewrite generate_random_int_step by exact Hnz.
    rewrite Hrej by apply candidate_range. apply IH.
Qed.

End RangeEdges.

(** X1. A modulus that divides [2^256] (such as 2, the modulus of the
    move-order round) rejects no candidate: whatever the generator holds,
    [generate_random_int] returns at its first draw. In general a candidate
    is rejected exactly when it is one of the top [2^256 mod range_max]
    values. *)
Theorem generate_random_int_first_draw
    (range_max : Z) (fuel : nat) (w : World) :
  0 < range_max ->
  (forall rand,
     accepted range_max rand = (rand <? 2 ^ 256 - 2 ^ 256 mod range_max)) /\
  (2 ^ 256 mod range_max = 0 ->
   RandomGenerator.generate_random_int (S fuel) range_max w =
     (Ret (candidate w mod range_max), after_draw w)).
Proof.
  intros Hpos. split.
  - intros rand. apply accepted_iff. lia.
  - intros Hdiv. rewrite generate_random_int_step by lia.
    rewrite accepted_iff by lia. rewrite Hdiv, Z.sub_0_r.
    destruct (Z.ltb_spec (candidate w) (2 ^ 256)) as [_ | Hge].
    + reflexivity.
    + pose proof (candidate_range w). lia.
Qed.

Lemma generate_random_int_first_draw_witness :
  0 < 2 /\
  forall w : World,
    RandomGenerator.generate_random_int 1 2 w =
    (Ret (candidate w mod 2), after_draw w).
Proof.
  assert (H2 : 0 < 2) by lia. split; [exact H2 |]. intros w.
  apply (proj2 (generate_random_int_first_draw 2 0 w H2)).
  vm_compute. reflexivity.
Defined.

(** X2. A negative modulus is not refused: every candidate is below
    [(2^256 // range_max) * range_max], so the first one is returned modulo
    [range_max], a value of [(range_max, 0]]. *)
Theorem generate_random_int_negative_modulus
    (range_max : Z) (fuel : nat) (w : World) :
  range_max < 0 ->
  RandomGenerator.generate_random_int (S fuel) range_max w =
    (Ret (candidate w mod range_max), after_draw w) /\
  range_max < candidate w mod range_max <= 0.
Proof.
  intros Hneg. split.
  - rewrite generate_random_int_step by lia. rewrite accepted_iff by lia.
    pose proof (Z.mod_neg_bound (2 ^ 256) range_max Hneg) as Hm.
    pose proof (candidate_range w) as Hc.
    destruct (Z.ltb_spec (candidate w) (2 ^ 256 - 2 ^ 256 mod range_max));
      [reflexivity | lia].
  - apply Z.mod_neg_bound. exact Hneg.
Qed.

Lemma generate_random_int_negative_modulus_witness :
  -3 < 0 /\
  RandomGenerator.generate_random_int 1 (-3) (demo_world []) =
    (Ret (-2), after_draw (demo_world [])).
Proof.
  assert (H : -3 < 0) by lia. split; [exact H |].
  rewrite (proj1 (generate_random_int_negative_modulus (-3) 0 (demo_world []) H)).
  replace (candidate (demo_world []) mod -3) with (-2) by (vm_compute; reflexivity).
  reflexivity.
Defined.

(** X3. With a modulus above [2^256] the limit
    [(2^256 // range_max) * range_max] is 0: every candidate is rejected and
    the loop never returns, however many draws it is allowed. *)
Theorem generate_random_int_never_returns
    (range_max : Z) (fuel : nat) (w : World) :
  2 ^ 256 < range_max ->
  fst (RandomGenerator.generate_random_int fuel range_max w) = Timeout.
Proof.
  intros Hbig. apply timeout_when_nothing_accepted; [lia |].
  intros rand Hrand. unfold accepted.
  rewrite Z.div_small by (split; [apply Z.pow_nonneg; lia | exact Hbig]).
  destruct (Z.ltb_spec rand (0 * range_max)); [lia | reflexivity].
Qed.

Lemma generate_random_int_never_returns_witness :
  2 ^ 256 < 2 ^ 256 + 1 /\
  fst (RandomGenerator.generate_random_int 5 (2 ^ 256 + 1) (demo_world []))
    = Timeout.
Proof.
  assert (H : 2 ^ 256 < 2 ^ 256 + 1) by lia. split; [exact H |].
  exact (generate_random_int_never_returns (2 ^ 256 + 1) 5 (demo_world []) H).
Defined.

(** *** What the constructor of a round can do *)

Section RoundOutcomes.

Import FairPlay.

Lemma iter_after_draw (k : nat) (w : World) :
  Nat.iter k after_draw w =
  mkWorld (mt_tape w) (mt_pos w + 32 * k)%nat (os_entropy w) (stdin w) (stdout w).
Proof.
  induction k as [| k IH].
  - cbn [Nat.iter nat_rect]. destruct w. cbn. f_equal. lia.
  - rewrite Nat.iter_succ, IH. unfold after_draw. cbn. f_equal. lia.
Qed.

Lemma generate_random_int_outcome (fuel : nat) (range_max : Z) (w : World) :
  match RandomGenerator.generate_random_int fuel range_max w with
  | (Ret v, w') =>
      range_max <> 0 /\
      exists k, (k < fuel)%nat /\ w' = Nat.iter (S k) after_draw w /\
                v = candidate (Nat.iter k after_draw w) mod range_max
  | (Raise e, w') => e = ZeroDivisionError /\ range_max = 0
  | (Timeout, _) => True
  end.
Proof.
  revert w. induction fuel as [| fuel IH]; intros w.
  - exact I.
  - destruct (Z.eq_dec range_max 0) as [-> | Hnz].
    + rewrite generate_random_int_zero. split; reflexivity.
    + rewrite generate_random_int_step by exact Hnz.
      destruct (accepted range_max (candidate w)).
      * split; [exact Hnz |]. exists 0%nat. repeat split. lia.
      * specialize (IH (after_draw w)).
        destruct (RandomGenerator.generate_random_int fuel range_max (after_draw w))
          as [[v | e |] w']; [| exact IH | exact I].
        destruct IH as (_ & k & Hk & Hw & Hv). split; [exact Hnz |].
        exists (S k). rewrite <- !Nat.iter_succ_r in Hw, Hv.
        repeat split; [lia | exact Hw | exact Hv].
Qed.

(** What a positive modulus returns is a 256-bit number: [str] writes it.
    What a negative modulus returns is above the modulus. *)
Lemma reduced_candidate (range_max : Z) (w : World) :
  range_max <> 0 ->
  (0 < range_max -> writable (candidate w mod range_max)) /\
  Z.abs (candidate w mod range_max) < Z.abs range_max.
Proof.
  intros Hnz. pose proof (candidate_range w) as Hc. split.
  - intros Hpos. apply writable_256.
    pose proof (Z.mod_pos_bound (candidate w) range_max Hpos) as Hb.
    pose proof (Z.mod_le (candidate w) range_max (proj1 Hc) Hpos) as Hle.
    lia.
  - destruct (Z.lt_total range_max 0) as [Hneg | [E | Hpos]];
      [| contradiction |].
    + pose proof (Z.mod_neg_bound (candidate w) range_max Hneg). lia.
    + pose proof (Z.mod_pos_bound (candidate w) range_max Hpos). lia.
Qed.

(** Below minus [10^4300 + 2^256], the first candidate, when it is not 0,
    is returned lowered by the absolute value of the modulus: a number of
    more than 4300 digits. *)
Lemma reduced_candidate_unwritable (range_max : Z) (w : World) :
  range_max <= - 10 ^ 4300 - 2 ^ 256 -> 0 < candidate w ->
  accepted range_max (candidate w) = true /\
  ~ writable (candidate w mod range_max).
Proof.
  intros Hlow Hc0. pose proof (candidate_range w) as Hc.
  pose proof ten_pow_limit_pos as Hpos.
  rewrite writable_iff. change (Z.of_nat int_max_str_digits) with 4300.
  revert Hlow Hpos. generalize (10 ^ 4300). intros L Hlow Hpos.
  assert (Hneg : range_max < 0) by lia.
  assert (Hmod : candidate w mod range_max = candidate w + range_max).
  { symmetry. apply (Z.mod_unique_neg _ _ (-1)); lia. }
  split.
  - rewrite accepted_iff by lia.
    pose proof (Z.mod_neg_bound (2 ^ 256) range_max Hneg) as Hm.
    apply Z.ltb_lt. lia.
  - rewrite Hmod. lia.
Qed.

End RoundOutcomes.

Lemma init_outcome (fuel : nat) (range_max : Z) (w : World) :
  match FairPlay.init fuel range_max w with
  | (Ret fp, w') =>
      range_max <> 0 /\
      FairPlay.range_max fp = range_max /\
      length (FairPlay.secret_key fp) = 32%nat /\
      (0 < range_max -> 0 <= FairPlay.computer_number fp < range_max) /\
      writable (FairPlay.computer_number fp) /\
      RandomGenerator.calculate_hmac (FairPlay.secret_key fp)
        (FairPlay.computer_number fp) = Ret (FairPlay.hmac fp) /\
      String.length (FairPlay.hmac fp) = 64%nat /\
      exists k, (0 < k <= fuel)%nat /\ w' = drew w (32 * (k + 1)) []
  | (Raise e, _) =>
      (e = ZeroDivisionError /\ range_max = 0) \/
      (e = str_limit_error /\ range_max <= - 10 ^ 4300)
  | (Timeout, _) => True
  end.
Proof.
  rewrite init_unfold.
  pose proof (generate_random_int_outcome fuel range_max (after_draw w)) as H.
  destruct (RandomGenerator.generate_random_int fuel range_max (after_draw w))
    as [[v | e |] w'] eqn:E; [| left; exact H | exact I].
  destruct H as (Hnz & k & Hk & Hw & Hv).
  pose proof (calculate_hmac_outcome (map (mt_tape w) (seq (mt_pos w) 32)) v)
    as Hh.
  destruct (RandomGenerator.calculate_hmac _ v) as [digest | e |] eqn:Eh;
    [| | contradiction].
  - destruct Hh as (Hwr & _ & Hlen).
    cbn [FairPlay.range_max FairPlay.secret_key FairPlay.computer_number
         FairPlay.hmac].
    split; [exact Hnz |]. split; [reflexivity |].
    split; [rewrite List.length_map, List.length_seq; reflexivity |].
    split; [intros Hpos; exact (generate_random_int_range _ _ _ _ _ Hpos E) |].
    split; [exact Hwr |]. split; [exact Eh |]. split; [exact Hlen |].
    exists (S k). split; [lia |].
    rewrite Hw, <- Nat.iter_succ_r, iter_after_draw. unfold drew.
    rewrite List.app_nil_r. f_equal. lia.
  - destruct Hh as [-> Hwr]. right. split; [reflexivity |].
    destruct (reduced_candidate range_max (Nat.iter k after_draw (after_draw w))
                Hnz) as [Hpos Habs].
    rewrite <- Hv in Hpos, Habs.
    assert (Hneg : ~ 0 < range_max) by (intros Hp; exact (Hwr (Hpos Hp))).
    rewrite writable_iff in Hwr.
    change (Z.of_nat int_max_str_digits) with 4300 in Hwr.
    revert Hwr. generalize (10 ^ 4300). intros L Hwr. lia.
Qed.

(** X4. [FairPlay(range_max)] fails with [ZeroDivisionError] exactly when
    [range_max] is 0 (the key and one candidate are drawn before the
    division fails); its only other failure is the [ValueError] of
    [str(message)] in [calculate_hmac], on a committed number of more than
    4300 digits, which needs a modulus of [-10^4300] or below and is certain
    below [-10^4300 - 2^256] unless the candidate is 0. A round that it
    returns has the modulus asked for, a key of 32 bytes, a committed number
    that [str] writes, in [[0, range_max)] when [range_max > 0], and the
    64-character digest that [calculate_hmac] gives for its key and number;
    building it took 32 bytes from the generator for the key and 32 for each
    candidate, and neither read nor wrote anything. *)
Theorem fair_play_init_outcomes (fuel : nat) (range_max : Z) (w : World) :
  match FairPlay.init fuel range_max w with
  | (Ret fp, w') =>
      range_max <> 0 /\
      FairPlay.range_max fp = range_max /\
      length (FairPlay.secret_key fp) = 32%nat /\
      (0 < range_max -> 0 <= FairPlay.computer_number fp < range_max) /\
      writable (FairPlay.computer_number fp) /\
      RandomGenerator.calculate_hmac (FairPlay.secret_key fp)
        (FairPlay.computer_number fp) = Ret (FairPlay.hmac fp) /\
      String.length (FairPlay.hmac fp) = 64%nat /\
      exists k, (0 < k <= fuel)%nat /\ w' = drew w (32 * (k + 1)) []
  | (Raise e, _) =>
      (e = ZeroDivisionError /\ range_max = 0) \/
      (e = str_limit_error /\ range_max <= - 10 ^ 4300)
  | (Timeout, _) => True
  end /\
  FairPlay.init (S fuel) 0 w = (Raise ZeroDivisionError, drew w 64 []) /\
  (range_max <= - 10 ^ 4300 - 2 ^ 256 -> 0 < candidate (after_draw w) ->
   FairPlay.init (S fuel) range_max w = (Raise str_limit_error, drew w 64 [])).
Proof.
  split; [apply init_outcome |].
  assert (Hw : after_draw (after_draw w) = drew w 64 []).
  { unfold after_draw, drew. cbn [mt_tape mt_pos os_entropy stdin stdout].
    rewrite List.app_nil_r. f_equal. lia. }
  split.
  - rewrite init_unfold, generate_random_int_zero, Hw. reflexivity.
  - intros Hlow Hc0.
    destruct (reduced_candidate_unwritable range_max (after_draw w) Hlow Hc0)
      as [Hacc Hwr].
    assert (Hnz : range_max <> 0).
    { pose proof ten_pow_limit_pos as Hpos.
      revert Hlow Hpos. generalize (10 ^ 4300). intros L Hlow Hpos. lia. }
    rewrite init_unfold, generate_random_int_step by exact Hnz.
    rewrite Hacc, (calculate_hmac_unwritable _ _ Hwr), Hw. reflexivity.
Qed.

Lemma fair_play_init_outcomes_witness :
  - 10 ^ 4300 - 2 ^ 256 <= - 10 ^ 4300 - 2 ^ 256 /\
  0 < candidate (after_draw (demo_world [])) /\
  FairPlay.init 1 (- 10 ^ 4300 - 2 ^ 256) (demo_world []) =
    (Raise str_limit_error, drew (demo_world []) 64 []) /\
  FairPlay.init 1 0 (demo_world []) =
    (Raise ZeroDivisionError, drew (demo_world []) 64 []).
Proof.
  assert (H1 : - 10 ^ 4300 - 2 ^ 256 <= - 10 ^ 4300 - 2 ^ 256)
    by apply Z.le_refl.
  assert (H2 : 0 < candidate (after_draw (demo_world [])))
    by (vm_compute; reflexivity).
  split; [exact H1 |]. split; [exact H2 |].
  pose proof (fair_play_init_outcomes 0 (- 10 ^ 4300 - 2 ^ 256) (demo_world []))
    as (_ & Hzero & Hlong).
  split; [exact (Hlong H1 H2) | exact Hzero].
Defined.

(** *** Loops that prompt *)

Section PromptLoops.

Import DiceGame.

Lemma read_to_wrote (w : World) (rest : list string) (o1 o2 : list output) :
  wrote (read_to w rest o1) o2 = read_to w rest (o1 ++ o2).
Proof. unfold wrote, read_to. cbn. rewrite <- List.app_assoc. reflexivity. Qed.

Lemma read_to_read_to (w : World) (r1 r2 : list string) (o1 o2 : list output) :
  read_to (read_to w r1 o1) r2 o2 = read_to w r2 (o1 ++ o2).
Proof. unfold read_to. cbn. rewrite <- List.app_assoc. reflexivity. Qed.

Lemma wrote_as_read_to (w : World) (out : list output) :
  wrote w out = read_to w (stdin w) out.
Proof. reflexivity. Qed.

Lemma wrote_nil (w : World) : wrote w [] = w.
Proof. unfold wrote. rewrite List.app_nil_r. destruct w; reflexivity. Qed.

Lemma drew_wrote (w : World) (k : nat) (o1 o2 : list output) :
  wrote (drew w k o1) o2 = drew w k (o1 ++ o2).
Proof. unfold wrote, drew. cbn. rewrite <- List.app_assoc. reflexivity. Qed.

(** Steps of a run: a call that touches no state and returns, and a
    [print]. *)
Lemma bind_lift {A B} (r : result A) (a : A) (k : A -> M B) (w : World) :
  r = Ret a -> bind (lift r) k w = k a w.
Proof. intros ->. reflexivity. Qed.

Lemma bind_print {B} (s : string) (k : unit -> M B) (w : World) :
  bind (print s) k w = k tt (wrote w [Line s]).
Proof. reflexivity. Qed.

Lemma prompt_loop_n_step {A} (n : nat) (prompt : string)
    (body : string -> M (option A)) (w : World) :
  prompt_loop_n (S n) prompt body w =
  match stdin w with
  | [] => (Raise EOFError, read_to w [] [Prompt prompt])
  | line :: lines =>
      match body line (read_to w lines [Prompt prompt]) with
      | (Ret (Some a), w') => (Ret a, w')
      | (Ret None, w') => prompt_loop_n n prompt body w'
      | (Raise e, w') => (Raise e, w')
      | (Timeout, w') => (Timeout, w')
      end
  end.
Proof.
  cbn [prompt_loop_n]. unfold bind at 1. unfold input, read_to.
  destruct (stdin w) as [| line lines]; [reflexivity |].
  unfold bind at 1.
  destruct (body line _) as [[[a |] | e |] w']; reflexivity.
Qed.

(** A prompting loop, allowed one pass more than there are lines, ends:
    with a value that its body made of the last line read, with an exception
    that its body raised on the last line read, or with [EOFError] at the
    end of the input; it has then read a prefix of the input. *)
Lemma prompt_loop_n_outcome {A} (P : string -> A -> Prop)
    (E : string -> exn -> Prop) (prompt : string)
    (body : string -> M (option A)) :
  body_outcome P E body ->
  forall (n : nat) (w : World),
  (length (stdin w) < n)%nat ->
  exists read rest out,
    stdin w = read ++ rest /\
    ((exists a before line,
        prompt_loop_n n prompt body w = (Ret a, read_to w rest out) /\
        read = before ++ [line] /\ P line a) \/
     (exists e, prompt_loop_n n prompt body w = (Raise e, read_to w rest out) /\
                ((exists before line, read = before ++ [line] /\ E line e) \/
                 e = EOFError /\ rest = []))).
Proof.
  intros Hbody. induction n as [| n IH]; intros w Hn; [lia |].
  rewrite prompt_loop_n_step.
  destruct (stdin w) as [| line lines] eqn:Hin.
  - exists [], [], [Prompt prompt]. split; [reflexivity |]. right.
    exists EOFError. split; [reflexivity | right; split; reflexivity].
  - destruct (Hbody line (read_to w lines [Prompt prompt]))
      as (out & [Hb | [(a & Hb & Ha) | (e & Hb & He)]]); rewrite Hb.
    + destruct (IH (wrote (read_to w lines [Prompt prompt]) out))
        as (read & rest & out' & Hsplit & Hres).
      { cbn [stdin wrote read_to]. cbn [length] in Hn. lia. }
      cbn [stdin wrote read_to] in Hsplit.
      exists (line :: read), rest, ([Prompt prompt] ++ out ++ out').
      split; [rewrite Hsplit; reflexivity |].
      rewrite read_to_wrote.
      rewrite read_to_wrote, read_to_read_to, <- List.app_assoc in Hres.
      destruct Hres as [(a & before & l & E1 & Hread & Ha)
                       | (e & E1 & [(before & l & Hread & He) | He])].
      * left. exists a, (line :: before), l.
        split; [exact E1 |]. split; [rewrite Hread; reflexivity | exact Ha].
      * right. exists e. split; [exact E1 |]. left.
        exists (line :: before), l.
        split; [rewrite Hread; reflexivity | exact He].
      * right. exists e. split; [exact E1 | right; exact He].
    + exists [line], lines, ([Prompt prompt] ++ out).
      split; [reflexivity |]. left. exists a, [], line.
      rewrite read_to_wrote. split; [reflexivity |].
      split; [reflexivity | exact Ha].
    + exists [line], lines, ([Prompt prompt] ++ out).
      split; [reflexivity |]. right. exists e.
      rewrite read_to_wrote. split; [reflexivity |]. left.
      exists [], line. split; [reflexivity | exact He].
Qed.

(** A prompting loop returns only what its body made of a line. *)
Lemma prompt_loop_n_returns {A} (prompt : string)
    (body : string -> M (option A)) (n : nat) :
  forall (w w' : World) (a : A),
  prompt_loop_n n prompt body w = (Ret a, w') ->
  exists line w0 w1, body line w0 = (Ret (Some a), w1).
Proof.
  induction n as [| n IH]; intros w w' a H; [discriminate H |].
  rewrite prompt_loop_n_step in H.
  destruct (stdin w) as [| line lines]; [discriminate H |].
  destruct (body line (read_to w lines [Prompt prompt]))
    as [[[b |] | e |] w1] eqn:Hb; try discriminate H.
  - injection H as -> _. exists line. eexists. eexists. exact Hb.
  - exact (IH _ _ _ H).
Qed.

Lemma bind_ret_run {A B} (m : M A) (k : A -> M B) (w w' : World) (a : A) :
  m w = (Ret a, w') -> bind m k w = k a w'.
Proof. intros E. unfold bind. rewrite E. reflexivity. Qed.

Lemma bind_assoc_run {A B C} (m : M A) (f : A -> M B) (g : B -> M C)
    (w : World) :
  bind m (fun x => bind (f x) g) w = bind (bind m f) g w.
Proof.
  unfold bind. destruct (m w) as [[a | e |] w1]; reflexivity.
Qed.

Lemma only_writes_body {A} (m : M unit) (r : option A) :
  only_writes m ->
  forall w, exists out, (m ;;; ret r) w = (Ret r, wrote w out).
Proof.
  intros Hm w. destruct (Hm w) as ([] & out & E). exists out.
  unfold bind. rewrite E. reflexivity.
Qed.

Lemma get_throw_selection_body (self : t) :
  body_outcome (fun line s => s = lower (strip line) /\
                              str_in s throw_options = true)
               (fun _ e => e = SystemExit 0)
               (selection_body self).
Proof.
  intros line w. unfold selection_body. cbv zeta.
  destruct (String.eqb (lower (strip line)) "x").
  { exists [Line "Exiting game."]. right. right. exists (SystemExit 0).
    split; reflexivity. }
  destruct (String.eqb (lower (strip line)) "?").
  { destruct (only_writes_body (A := string) _ None
                (only_writes_display_help (dice_list self)) w) as (out & E).
    exists out. left. exact E. }
  destruct (str_in (lower (strip line)) throw_options) eqn:Hopt.
  { exists []. right. left. exists (lower (strip line)).
    split; [| split; [reflexivity | exact Hopt]].
    rewrite wrote_nil. reflexivity. }
  eexists. left. reflexivity.
Qed.

End PromptLoops.

(** X5. On every input the selection loop of [get_throw] ends in one of
    three ways: it returns one of the strings [0] to [5], which is the last
    line read, stripped and lowered; it exits with status 0 (the last line
    read, stripped and lowered, being [x]); or the input is exhausted
    ([EOFError]). It has then read a prefix of the input and drawn nothing
    from the generator. *)
Theorem get_throw_selection_outcomes (self : DiceGame.t) (w : World) :
  exists read rest out,
    stdin w = read ++ rest /\
    ((exists s before line,
        DiceGame.get_throw_selection self w = (Ret s, read_to w rest out) /\
        read = before ++ [line] /\ s = lower (strip line) /\
        In s DiceGame.throw_options) \/
     DiceGame.get_throw_selection self w =
       (Raise (SystemExit 0), read_to w rest out) \/
     (DiceGame.get_throw_selection self w =
        (Raise EOFError, read_to w rest out) /\ rest = [])).
Proof.
  destruct (prompt_loop_n_outcome _ _ "Your selection: " _
              (get_throw_selection_body self) (S (length (stdin w))) w
              ltac:(lia))
    as (read & rest & out & Hsplit & Hres).
  exists read, rest, out. split; [exact Hsplit |].
  destruct Hres as [(s & before & line & E & Hread & Hs & Hopt) | (e & E & He)].
  - left. exists s, before, line.
    split; [exact E |]. split; [exact Hread |]. split; [exact Hs |].
    unfold str_in in Hopt. apply existsb_exists in Hopt.
    destruct Hopt as (x & Hx & Hxe). apply String.eqb_eq in Hxe. subst x.
    exact Hx.
  - destruct He as [(_ & _ & _ & He) | [He Hrest]]; subst e.
    + right. left. exact E.
    + right. right. split; [exact E | exact Hrest].
Qed.

(** A no-break space before the digit is stripped like a space. *)
Example get_throw_selection_no_break_space :
  DiceGame.get_throw_selection (DiceGame.mk demo_dice None)
    (demo_world ["six"; nbsp_three; "5"]) =
  (Ret "3"%string,
   read_to (demo_world ["six"; nbsp_three; "5"]) ["5"]
     [Prompt "Your selection: ";
      Line "Invalid input. Please select a number between 0 and 5, or type '?' for help.";
      Prompt "Your selection: "]).
Proof. vm_compute. reflexivity. Qed.

(** *** Throws and the first move *)

Section Throws.

Import DiceGame.

Lemma int_of_str_throw_option (s : string) :
  In s throw_options -> exists k, int_of_str s = Ret k /\ 0 <= k < 6.
Proof.
  unfold throw_options. cbn [In].
  intros [<- | [<- | [<- | [<- | [<- | [<- | []]]]]]];
    eexists; (split; [vm_compute; reflexivity | lia]).
Qed.

Lemma getitem_valid {A} (xs : list A) (i : Z) :
  0 <= i < Z.of_nat (length xs) ->
  exists x, getitem xs i = Ret x /\ xs !! Z.to_nat i = Some x.
Proof.
  intros Hi. unfold getitem.
  rewrite (proj2 (Z.ltb_ge i 0)) by lia. cbv zeta.
  rewrite (proj2 (Z.ltb_ge i 0)) by lia.
  destruct (lookup_lt_is_Some_2 xs (Z.to_nat i) ltac:(lia)) as [x Hx].
  exists x. rewrite Hx. split; reflexivity.
Qed.

Lemma getitem_lookup {A} (xs : list A) (n : nat) (x : A) :
  xs !! n = Some x -> getitem xs (Z.of_nat n) = Ret x.
Proof.
  intros Hx. pose proof (lookup_lt_Some _ _ _ Hx) as Hlt.
  destruct (getitem_valid xs (Z.of_nat n) ltac:(lia)) as (y & Hy & Hlk).
  rewrite Nat2Z.id in Hlk. congruence.
Qed.

Lemma random_choice_nonempty {A} (xs : list A) (w : World) :
  xs <> [] ->
  exists x, random_choice xs w = (Ret x, drew w 1 []) /\ In x xs.
Proof.
  intros Hne. unfold random_choice.
  set (i := (Z.to_nat (byte_to_Z (mt_tape w (mt_pos w))) mod length xs)%nat).
  assert (Hi : (i < length xs)%nat).
  { apply Nat.mod_upper_bound. destruct xs; [contradiction | discriminate]. }
  destruct (lookup_lt_is_Some_2 xs i Hi) as [x Hx]. rewrite Hx.
  exists x. split.
  - unfold drew. rewrite List.app_nil_r, Nat.add_1_r. reflexivity.
  - apply list_elem_of_In. apply list_elem_of_lookup. exists i. exact Hx.
Qed.

Lemma random_choice_empty {A} (w : World) :
  random_choice (@nil A) w = (Raise IndexError, w).
Proof. reflexivity. Qed.

Lemma random_choice_wrote {A} (xs : list A) (w : World) (out : list output) :
  random_choice xs (wrote w out) =
  (fst (random_choice xs w),
   match random_choice xs w with
   | (Ret _, _) => drew w 1 out
   | _ => wrote w out
   end).
Proof.
  unfold random_choice, wrote, drew. cbn [mt_tape mt_pos os_entropy stdin stdout].
  destruct (xs !! _); cbn [fst]; [| reflexivity].
  rewrite Nat.add_1_r. reflexivity.
Qed.

(** The die that [get_throw] reads for a player. *)
Lemma player_die (self : t) (player : string) (d : Dice.t) :
  dice_list self !! (if String.eqb player "user" then 0 else 1)%nat = Some d ->
  getitem (dice_list self) (if String.eqb player "user" then 0 else 1) = Ret d.
Proof.
  destruct (String.eqb player "user"); intros Hd.
  - exact (getitem_lookup _ 0%nat _ Hd).
  - exact (getitem_lookup _ 1%nat _ Hd).
Qed.

(** The reveal step on a selection, for a round whose number [str] writes
    and a die that can be thrown and printed. *)
Lemma get_throw_reveal_run (self : t) (fp : FairPlay.t)
    (user_input player : string) (w : World) (d : Dice.t) :
  In user_input throw_options ->
  dice_list self !! (if String.eqb player "user" then 0 else 1)%nat = Some d ->
  playable d ->
  writable (FairPlay.computer_number fp) ->
  exists throw user_number,
    int_of_str user_input = Ret user_number /\
    random_choice (Dice.faces d) w = (Ret throw, drew w 1 []) /\
    In throw (Dice.faces d) /\
    get_throw_reveal self fp user_input player w =
      (Ret throw, drew w 1 (reveal_lines fp user_number player throw)).
Proof.
  intros Hui Hd [Hne Hfaces] Hc.
  destruct (int_of_str_throw_option user_input Hui) as (k & Hk & Hrange).
  destruct (random_choice_nonempty (Dice.faces d) w Hne) as (throw & Hrc & Hin).
  assert (Hwk : writable k) by (apply writable_256; lia).
  assert (Hwr : writable ((k + FairPlay.computer_number fp) mod 6)).
  { apply writable_256.
    pose proof (Z.mod_pos_bound (k + FairPlay.computer_number fp) 6). lia. }
  assert (Hwt : writable throw)
    by exact (proj1 (List.Forall_forall _ _) Hfaces throw Hin).
  exists throw, k. split; [exact Hk |]. split; [exact Hrc |].
  split; [exact Hin |].
  unfold get_throw_reveal.
  rewrite (bind_lift _ _ _ _ Hk). cbv zeta.
  rewrite (bind_lift _ _ _ _ (str_writable _ Hc)), bind_print.
  rewrite (bind_lift _ _ _ _ (str_writable _ Hwk)).
  rewrite (bind_lift _ _ _ _ (str_writable _ Hwr)), bind_print.
  rewrite (bind_lift _ _ _ _ (player_die self player d Hd)).
  unfold bind at 1. rewrite wrote_wrote, random_choice_wrote, Hrc.
  cbn [fst]. cbv beta iota.
  rewrite (bind_lift _ _ _ _ (str_writable _ Hwt)), bind_print.
  unfold ret. rewrite drew_wrote. reflexivity.
Qed.

End Throws.

(** X6. The reveal step of [get_throw], given one of the strings [0] to
    [5], a round whose number [str] writes, and the die that the player's
    name designates (die 0 for [user], die 1 otherwise) with at least one
    face and faces that [str] writes, prints the committed number with the
    key, then the sum of the two numbers modulo 6, then the throw, and
    returns the throw: a face of that die, taken by [random.choice]. The
    round and the selection are printed but do not enter the throw: any
    other such round and any other selection give the same throw. *)
Theorem get_throw_reveal_throw
    (self : DiceGame.t) (fp : FairPlay.t) (user_input player : string)
    (w : World) (d : Dice.t) :
  In user_input DiceGame.throw_options ->
  DiceGame.dice_list self !! (if String.eqb player "user" then 0 else 1)%nat
    = Some d ->
  Dice.faces d <> [] ->
  Forall writable (Dice.faces d) ->
  writable (FairPlay.computer_number fp) ->
  exists throw user_number,
    int_of_str user_input = Ret user_number /\
    DiceGame.get_throw_reveal self fp user_input player w =
      (Ret throw,
       drew w 1
         [Line ("My number is " +:+ decimal (FairPlay.computer_number fp) +:+
                " (KEY=" +:+ hex (FairPlay.secret_key fp) +:+ ").");
          Line ("The result is " +:+ decimal (FairPlay.computer_number fp) +:+
                " + " +:+ decimal user_number +:+ " = " +:+
                decimal ((user_number + FairPlay.computer_number fp) mod 6) +:+
                " (mod 6).");
          Line ((if String.eqb player "user" then "Your" else "My") +:+
                " throw is " +:+ decimal throw +:+ ".")]) /\
    In throw (Dice.faces d) /\
    fst (random_choice (Dice.faces d) w) = Ret throw /\
    forall fp' user_input',
      writable (FairPlay.computer_number fp') ->
      In user_input' DiceGame.throw_options ->
      fst (DiceGame.get_throw_reveal self fp' user_input' player w) = Ret throw.
Proof.
  intros Hui Hd Hne Hfaces Hc.
  destruct (get_throw_reveal_run self fp user_input player w d Hui Hd
              (conj Hne Hfaces) Hc)
    as (throw & k & Hk & Hrc & Hin & Hrun).
  exists throw, k. split; [exact Hk |]. split; [exact Hrun |].
  split; [exact Hin |]. split; [rewrite Hrc; reflexivity |].
  intros fp' ui' Hc' Hui'.
  destruct (get_throw_reveal_run self fp' ui' player w d Hui' Hd
              (conj Hne Hfaces) Hc')
    as (throw' & k' & _ & Hrc' & _ & Hrun').
  rewrite Hrun'. cbn [fst]. congruence.
Qed.

Lemma get_throw_reveal_throw_witness :
  exists throw,
    DiceGame.get_throw_reveal (DiceGame.mk demo_dice None) demo_round "3"
      "computer" (demo_world []) =
    (Ret throw,
     drew (demo_world []) 1
       [Line "My number is 4 (KEY=0000000000000000000000000000000000000000000000000000000000000000).";
        Line "The result is 4 + 3 = 1 (mod 6).";
        Line ("My throw is " +:+ decimal throw +:+ ".")]) /\
    In throw [1; 1; 6; 6; 8; 8].
Proof.
  assert (Hfaces : Forall writable [1; 1; 6; 6; 8; 8])
    by (apply writable_check; vm_compute; reflexivity).
  destruct (get_throw_reveal_throw (DiceGame.mk demo_dice None) demo_round "3"
              "computer" (demo_world []) (Dice.mk [1; 1; 6; 6; 8; 8]))
    as (throw & u & Hu & E & Hin & _).
  - cbn. tauto.
  - reflexivity.
  - discriminate.
  - exact Hfaces.
  - apply Nat.leb_le. vm_compute. reflexivity.
  - exists throw. injection Hu as <-. split; [exact E | exact Hin].
Defined.

(** X7. In [start_game], once the round of modulus 2 is built and the
    line typed is [0] or [1], the game goes on to [play_game] with
    [user_turn_first] set to whether the number typed equals the number the
    computer committed to: the user moves first exactly on a right guess.
    No further draw is made before [play_game]. *)
Theorem start_game_first_move
    (fuel : nat) (self : DiceGame.t) (w w1 : World) (fp : FairPlay.t)
    (line : string) (rest : list string) :
  FairPlay.init fuel 2 w = (Ret fp, w1) ->
  stdin w = line :: rest ->
  In line ["0"; "1"] ->
  exists user_number out,
    int_of_str line = Ret user_number /\
    DiceGame.start_game fuel self w =
    DiceGame.play_game fuel
      (DiceGame.mk (DiceGame.dice_list self)
                   (Some (user_number =? FairPlay.computer_number fp)))
      (read_to w1 rest out).
Proof.
  intros Hinit Hin Hline.
  pose proof (init_outcome fuel 2 w) as Hout. rewrite Hinit in Hout.
  destruct Hout as (_ & Hrm & _ & Hrange & Hwc & _ & _ & k & _ & Hw1).
  specialize (Hrange ltac:(lia)).
  assert (Hin1 : stdin w1 = line :: rest) by (rewrite Hw1; exact Hin).
  assert (Hu : exists u, int_of_str line = Ret u /\ (u = 0 \/ u = 1) /\
                         str_in line ["0"; "1"] = true).
  { cbn [In] in Hline. destruct Hline as [<- | [<- | []]].
    - exists 0. split; [vm_compute; reflexivity |].
      split; [left; reflexivity | reflexivity].
    - exists 1. split; [vm_compute; reflexivity |].
      split; [right; reflexivity | reflexivity]. }
  destruct Hu as (u & Hu & Hu01 & Hstr).
  assert (Hres : ((FairPlay.computer_number fp + u) mod 2 =? 0) =
                 (u =? FairPlay.computer_number fp)).
  { assert (Hc : FairPlay.computer_number fp = 0 \/
                 FairPlay.computer_number fp = 1) by lia.
    destruct Hc as [-> | ->], Hu01 as [-> | ->]; reflexivity. }
  exists u.
  assert (Hrun : DiceGame.start_game fuel self w =
    DiceGame.play_game fuel
      (DiceGame.mk (DiceGame.dice_list self)
                   (Some (u =? FairPlay.computer_number fp)))
      (read_to w1 rest
         [Line ("I selected a random value in the range 0..1 (HMAC=" +:+
                FairPlay.hmac fp +:+ ").");
          Prompt "Try to guess my selection (0 or 1): ";
          Line ("My selection: " +:+ decimal (FairPlay.computer_number fp) +:+
                " (KEY=" +:+ hex (FairPlay.secret_key fp) +:+ ")");
          Line (if u =? FairPlay.computer_number fp
                then "You make the first move!"
                else "I make the first move!")])).
  { unfold DiceGame.start_game. unfold bind at 1. rewrite Hinit.
    unfold bind at 1. unfold print at 1, emit. cbv beta iota.
    unfold bind at 1. unfold input. cbn [stdin]. rewrite Hin1. cbv beta iota.
    rewrite Hstr. cbn [negb].
    unfold bind at 1. unfold lift at 1. rewrite Hu.
    unfold bind at 1. unfold lift at 1.
    rewrite verify_and_get_result_ok by (rewrite Hrm; lia).
    cbn [fst snd]. rewrite Hrm.
    unfold bind at 1. unfold lift at 1. rewrite (str_writable _ Hwc).
    unfold bind at 1. unfold print at 1, emit. cbv beta iota.
    cbn [mt_tape mt_pos os_entropy stdin stdout].
    rewrite Hres.
    destruct (u =? FairPlay.computer_number fp);
      unfold bind at 1; unfold print at 1, emit; cbv beta iota;
      cbn [mt_tape mt_pos os_entropy stdin stdout];
      unfold read_to; rewrite <- !List.app_assoc; reflexivity. }
  eexists. split; [exact Hu | exact Hrun].
Qed.

Lemma start_game_first_move_witness :
  exists out,
    DiceGame.start_game 1 (DiceGame.mk demo_dice None) (demo_world ["0"; "x"]) =
    DiceGame.play_game 1 (DiceGame.mk demo_dice (Some true))
      (read_to (after_draw (after_draw (demo_world ["0"; "x"]))) ["x"] out).
Proof.
  destruct (start_game_first_move 1 (DiceGame.mk demo_dice None) _ _ _ "0" ["x"]
              (init_demo_2 ["0"; "x"]) eq_refl (or_introl eq_refl))
    as (u & out & Hu & E).
  exists out. rewrite E. injection Hu as <-. reflexivity.
Defined.

(** *** Choosing the dice *)

Section Choosing.

Import DiceGame.

Lemma list_remove_In (x : Z) (xs : list Z) :
  In x xs -> exists ys, list_remove x xs = Ret ys /\ xs ≡ₚ x :: ys.
Proof.
  induction xs as [| y xs IH]; intros Hin; [destruct Hin |].
  cbn [list_remove]. destruct (Z.eqb_spec y x) as [-> | Hne].
  - exists xs. split; reflexivity.
  - destruct Hin as [E | Hin]; [congruence |].
    destruct (IH Hin) as (ys & E & Hperm). rewrite E.
    exists (y :: ys). split; [reflexivity |].
    rewrite Hperm. apply Permutation_swap.
Qed.

Lemma list_remove_not_In (x : Z) (xs : list Z) :
  ~ In x xs ->
  list_remove x xs = Raise (ValueError "list.remove(x): x not in list").
Proof.
  induction xs as [| y xs IH]; intros Hnotin; [reflexivity |].
  cbn [list_remove]. destruct (Z.eqb_spec y x) as [-> | Hne].
  - exfalso. apply Hnotin. left. reflexivity.
  - rewrite IH; [reflexivity |]. intros Hin. apply Hnotin. right. exact Hin.
Qed.

Lemma int_in_In (x : Z) (xs : list Z) : int_in x xs = true <-> In x xs.
Proof.
  unfold int_in. rewrite existsb_exists. split.
  - intros (y & Hy & E). apply Z.eqb_eq in E. subst y. exact Hy.
  - intros Hx. exists x. split; [exact Hx | apply Z.eqb_refl].
Qed.

(** The die at a valid index, printed. *)
Lemma getitem_printed (dice : list Dice.t) (i : Z) :
  valid_index dice i ->
  Forall (fun d => Forall writable (Dice.faces d)) dice ->
  exists d,
    getitem dice i = Ret d /\ dice !! Z.to_nat i = Some d /\
    repr_list (Dice.faces d) = Ret (repr_of (Dice.faces d)).
Proof.
  intros Hi Hfaces. destruct (getitem_valid dice i Hi) as (d & Hd & Hlk).
  exists d. split; [exact Hd |]. split; [exact Hlk |].
  apply repr_list_writable.
  apply (proj1 (List.Forall_forall _ _) Hfaces).
  apply list_elem_of_In, list_elem_of_lookup. eexists. exact Hlk.
Qed.

Lemma only_writes_print_available (self : t) (available_dice : list Z) :
  Forall (valid_index (dice_list self)) available_dice ->
  Forall writable available_dice ->
  Forall (fun d => Forall writable (Dice.faces d)) (dice_list self) ->
  only_writes (print_available self available_dice).
Proof.
  intros Hvalid Hwr Hfaces.
  induction available_dice as [| i rest IH]; cbn [print_available].
  - apply only_writes_ret.
  - apply Forall_cons_1 in Hvalid. destruct Hvalid as [Hi Hvalid].
    apply Forall_cons_1 in Hwr. destruct Hwr as [Hwi Hwr].
    destruct (getitem_printed (dice_list self) i Hi Hfaces)
      as (d & Hd & _ & Hrepr).
    intros w.
    rewrite (bind_lift _ _ _ _ (str_writable i Hwi)).
    rewrite (bind_lift _ _ _ _ Hd), (bind_lift _ _ _ _ Hrepr).
    apply only_writes_bind; [apply only_writes_emit | intros _].
    apply IH; assumption.
Qed.

(** The branch of [choice_body] taken when no die was chosen. *)
Lemma choice_body_none (self : t) (choice : string) (w : World) :
  exists out,
    (if String.eqb (lower choice) "?" then
       CLI.display_help (dice_list self) ;;; ret (@None (list Z))
     else if String.eqb (lower choice) "x" then
       print "Exiting game." ;;; sys_exit 0
     else
       print "Invalid selection. Try again." ;;; ret None) w =
      (Ret None, wrote w out) \/
    (if String.eqb (lower choice) "?" then
       CLI.display_help (dice_list self) ;;; ret (@None (list Z))
     else if String.eqb (lower choice) "x" then
       print "Exiting game." ;;; sys_exit 0
     else
       print "Invalid selection. Try again." ;;; ret None) w =
      (Raise (SystemExit 0), wrote w out).
Proof.
  destruct (String.eqb (lower choice) "?").
  - destruct (only_writes_body (A := list Z) _ None
                (only_writes_display_help (dice_list self)) w) as (out & E).
    exists out. left. exact E.
  - destruct (String.eqb (lower choice) "x"); eexists; [right | left];
      reflexivity.
Qed.

Lemma user_choose_dice_body (self : t) (available_dice : list Z) :
  Forall (valid_index (dice_list self)) available_dice ->
  Forall (fun d => Forall writable (Dice.faces d)) (dice_list self) ->
  body_outcome
    (fun line remaining =>
       exists chosen,
         isdigit line = true /\ int_of_str line = Ret chosen /\
         In chosen available_dice /\
         list_remove chosen available_dice = Ret remaining)
    (fun line e =>
       e = SystemExit 0 \/ isdigit line = true /\ int_of_str line = Raise e)
    (choice_body self available_dice).
Proof.
  intros Hvalid Hfaces line w. unfold choice_body.
  destruct (isdigit line) eqn:Hdig.
  - destruct (int_of_str line) as [c | e |] eqn:Hint; cbn [and_then].
    + rewrite (bind_lift _ _ _ _ eq_refl).
      destruct (int_in c available_dice) eqn:Hc; cbv beta iota.
      * apply int_in_In in Hc.
        destruct (list_remove_In c available_dice Hc) as (remaining & Hrem & _).
        destruct (getitem_printed (dice_list self) c) as (d & Hd & _ & Hrepr);
          [exact (proj1 (List.Forall_forall _ _) Hvalid c Hc) | exact Hfaces |].
        exists [Line ("You chose " +:+ repr_of (Dice.faces d) +:+ ".")].
        right. left. exists remaining. split.
        -- rewrite (bind_lift _ _ _ _ Hd), (bind_lift _ _ _ _ Hrepr).
           rewrite bind_print, (bind_lift _ _ _ _ Hrem). reflexivity.
        -- exists c. repeat split; assumption.
      * destruct (choice_body_none self line w) as (out & [E | E]); exists out.
        -- left. exact E.
        -- right. right. exists (SystemExit 0).
           split; [exact E | left; reflexivity].
    + exists []. right. right. exists e. split.
      * rewrite wrote_nil. reflexivity.
      * right. split; reflexivity.
    + unfold int_of_str in Hint. destruct (int_literal line); discriminate Hint.
  - rewrite (bind_lift _ _ _ _ eq_refl). cbv beta iota.
    destruct (choice_body_none self line w) as (out & [E | E]); exists out.
    + left. exact E.
    + right. right. exists (SystemExit 0).
      split; [exact E | left; reflexivity].
Qed.

(** Whatever the dice, the loop body chooses only a die that is on
    offer. *)
Lemma choice_body_returns (self : t) (available_dice remaining : list Z)
    (line : string) (w w' : World) :
  choice_body self available_dice line w = (Ret (Some remaining), w') ->
  exists chosen,
    In chosen available_dice /\
    list_remove chosen available_dice = Ret remaining.
Proof.
  unfold choice_body. unfold bind at 1. unfold lift at 1.
  destruct (if isdigit line then _ else _) as [[c |] | e |] eqn:Hchosen;
    try discriminate.
  - intros H.
    assert (Hc : In c available_dice).
    { destruct (isdigit line); [| discriminate Hchosen].
      destruct (int_of_str line) as [z | |]; cbn [and_then] in Hchosen;
        try discriminate Hchosen.
      destruct (int_in z available_dice) eqn:Hz; [| discriminate Hchosen].
      injection Hchosen as <-. apply int_in_In. exact Hz. }
    exists c. split; [exact Hc |].
    destruct (list_remove_In c available_dice Hc) as (rem & Hrem & _).
    rewrite Hrem. f_equal.
    unfold bind at 1 in H. unfold lift at 1 in H.
    destruct (getitem (dice_list self) c) as [d | |]; try discriminate H.
    unfold bind at 1 in H. unfold lift at 1 in H.
    destruct (repr_list (Dice.faces d)) as [s | |]; try discriminate H.
    rewrite bind_print, (bind_lift _ _ _ _ Hrem) in H.
    injection H as <- _. reflexivity.
  - intros H.
    destruct (String.eqb (lower line) "?").
    + unfold bind in H.
      destruct (CLI.display_help (dice_list self) w) as [[[] | |] w1];
        discriminate H.
    + destruct (String.eqb (lower line) "x"); discriminate H.
Qed.

End Choosing.

Section ChoosingOutcomes.

Import DiceGame.

Lemma user_choose_dice_run (self : t) (available_dice : list Z) (w : World) :
  Forall (valid_index (dice_list self)) available_dice ->
  Forall writable available_dice ->
  Forall (fun d => Forall writable (Dice.faces d)) (dice_list self) ->
  exists read rest out,
    stdin w = read ++ rest /\
    ((exists remaining chosen before line,
        user_choose_dice self available_dice w =
          (Ret remaining, read_to w rest out) /\
        read = before ++ [line] /\
        isdigit line = true /\ int_of_str line = Ret chosen /\
        In chosen available_dice /\
        list_remove chosen available_dice = Ret remaining) \/
     (exists e,
        user_choose_dice self available_dice w = (Raise e, read_to w rest out) /\
        ((exists before line,
            read = before ++ [line] /\
            (e = SystemExit 0 \/
             isdigit line = true /\ int_of_str line = Raise e)) \/
         e = EOFError /\ rest = []))).
Proof.
  intros Hvalid Hwr Hfaces.
  destruct (only_writes_bind _ (fun _ => print_available self available_dice)
              (only_writes_emit (Line "Choose your dice:"))
              (fun _ => only_writes_print_available self _ Hvalid Hwr Hfaces) w)
    as ([] & o1 & Hhead).
  destruct (prompt_loop_n_outcome _ _ "Your selection: " _
              (user_choose_dice_body self available_dice Hvalid Hfaces)
              (S (length (stdin (wrote w o1)))) (wrote w o1) ltac:(lia))
    as (read & rest & out & Hsplit & Hres).
  exists read, rest, (o1 ++ out). split; [exact Hsplit |].
  assert (Hrun : user_choose_dice self available_dice w =
                 prompt_loop_n (S (length (stdin (wrote w o1))))
                   "Your selection: " (choice_body self available_dice)
                   (wrote w o1)).
  { unfold user_choose_dice.
    rewrite (bind_assoc_run (print "Choose your dice:")
               (fun _ => print_available self available_dice)).
    rewrite (bind_ret_run _ _ _ _ _ Hhead). reflexivity. }
  rewrite wrote_as_read_to, read_to_read_to in Hres.
  destruct Hres as [(rem & before & line & E & Hread & c & Hd & Hi & Hin & Hrm)
                   | (e & E & He)].
  - left. exists rem, c, before, line. rewrite Hrun.
    repeat split; assumption.
  - right. exists e. rewrite Hrun. split; assumption.
Qed.

Lemma computer_choose_dice_run (self : t) (available_dice : list Z) (w : World) :
  Forall (valid_index (dice_list self)) available_dice ->
  Forall (fun d => Forall writable (Dice.faces d)) (dice_list self) ->
  available_dice <> [] ->
  exists chosen remaining d,
    computer_choose_dice self available_dice w =
      (Ret remaining,
       drew w 1 [Line ("I choose " +:+ repr_of (Dice.faces d) +:+ ".")]) /\
    fst (random_choice available_dice w) = Ret chosen /\
    In chosen available_dice /\
    dice_list self !! Z.to_nat chosen = Some d /\
    list_remove chosen available_dice = Ret remaining.
Proof.
  intros Hvalid Hfaces Hne.
  destruct (random_choice_nonempty available_dice w Hne) as (c & Hrc & Hin).
  destruct (list_remove_In c available_dice Hin) as (remaining & Hrem & _).
  destruct (getitem_printed (dice_list self) c) as (d & Hd & Hlk & Hrepr);
    [exact (proj1 (List.Forall_forall _ _) Hvalid c Hin) | exact Hfaces |].
  exists c, remaining, d. split; [| split; [| split; [| split]]].
  - unfold computer_choose_dice. unfold bind at 1. rewrite Hrc.
    rewrite (bind_lift _ _ _ _ Hd), (bind_lift _ _ _ _ Hrepr), bind_print.
    unfold lift. rewrite Hrem, drew_wrote. reflexivity.
  - rewrite Hrc. reflexivity.
  - exact Hin.
  - exact Hlk.
  - exact Hrem.
Qed.

End ChoosingOutcomes.

(** X8. [user_choose_dice], on a list of valid dice indices that [str]
    writes and dice whose faces [str] writes, ends in one of four ways. It
    returns the list without the first occurrence of one of its elements,
    the number that [int] reads in the last line read, a line that [isdigit]
    accepts; or it exits with status 0; or the input is exhausted
    ([EOFError]); or a [ValueError] escapes, the last line read being one
    that [isdigit] accepts and [int] refuses (superscript two, or 4301
    digits). It draws nothing from the generator. *)
Theorem user_choose_dice_outcomes
    (self : DiceGame.t) (available_dice : list Z) (w : World) :
  Forall (valid_index (DiceGame.dice_list self)) available_dice ->
  Forall writable available_dice ->
  Forall (fun d => Forall writable (Dice.faces d)) (DiceGame.dice_list self) ->
  exists read rest out,
    stdin w = read ++ rest /\
    ((exists remaining chosen before line,
        DiceGame.user_choose_dice self available_dice w =
          (Ret remaining, read_to w rest out) /\
        read = before ++ [line] /\
        isdigit line = true /\ int_of_str line = Ret chosen /\
        In chosen available_dice /\
        list_remove chosen available_dice = Ret remaining /\
        available_dice ≡ₚ chosen :: remaining) \/
     DiceGame.user_choose_dice self available_dice w =
       (Raise (SystemExit 0), read_to w rest out) \/
     (DiceGame.user_choose_dice self available_dice w =
        (Raise EOFError, read_to w rest out) /\ rest = []) \/
     (exists msg before line,
        DiceGame.user_choose_dice self available_dice w =
          (Raise (ValueError msg), read_to w rest out) /\
        read = before ++ [line] /\
        isdigit line = true /\ int_of_str line = Raise (ValueError msg))).
Proof.
  intros Hvalid Hwr Hfaces.
  destruct (user_choose_dice_run self available_dice w Hvalid Hwr Hfaces)
    as (read & rest & out & Hsplit & Hres).
  exists read, rest, out. split; [exact Hsplit |].
  destruct Hres as [(rem & c & before & line & E & Hread & Hd & Hi & Hin & Hrm)
                   | (e & E & He)].
  - left. exists rem, c, before, line.
    destruct (list_remove_In c available_dice Hin) as (rem' & Hrm' & Hperm).
    assert (rem' = rem) by congruence. subst rem'.
    repeat split; assumption.
  - destruct He as [(before & line & Hread & [He | [Hd Hint]]) | [He Hrest]].
    + subst e. right. left. exact E.
    + right. right. right.
      assert (Hmsg : exists msg, e = ValueError msg).
      { unfold int_of_str in Hint. destruct (int_literal line);
          [discriminate Hint |]. injection Hint as <-. eexists. reflexivity. }
      destruct Hmsg as (msg & ->).
      exists msg, before, line. repeat split; assumption.
    + subst e. right. right. left. split; assumption.
Qed.

Lemma user_choose_dice_outcomes_witness :
  Forall (valid_index demo_dice) [0; 1; 2] /\
  Forall writable [0; 1; 2] /\
  Forall (fun d => Forall writable (Dice.faces d)) demo_dice /\
  exists read rest out,
    ["7"; "?"; "1"; "0"] = read ++ rest /\
    ((exists remaining chosen before line,
        DiceGame.user_choose_dice (DiceGame.mk demo_dice None) [0; 1; 2]
          (demo_world ["7"; "?"; "1"; "0"]) =
          (Ret remaining, read_to (demo_world ["7"; "?"; "1"; "0"]) rest out) /\
        read = before ++ [line] /\
        isdigit line = true /\ int_of_str line = Ret chosen /\
        In chosen [0; 1; 2] /\
        list_remove chosen [0; 1; 2] = Ret remaining /\
        [0; 1; 2] ≡ₚ chosen :: remaining) \/
     DiceGame.user_choose_dice (DiceGame.mk demo_dice None) [0; 1; 2]
       (demo_world ["7"; "?"; "1"; "0"]) =
       (Raise (SystemExit 0), read_to (demo_world ["7"; "?"; "1"; "0"]) rest out) \/
     (DiceGame.user_choose_dice (DiceGame.mk demo_dice None) [0; 1; 2]
        (demo_world ["7"; "?"; "1"; "0"]) =
        (Raise EOFError, read_to (demo_world ["7"; "?"; "1"; "0"]) rest out) /\
      rest = []) \/
     (exists msg before line,
        DiceGame.user_choose_dice (DiceGame.mk demo_dice None) [0; 1; 2]
          (demo_world ["7"; "?"; "1"; "0"]) =
          (Raise (ValueError msg),
           read_to (demo_world ["7"; "?"; "1"; "0"]) rest out) /\
        read = before ++ [line] /\
        isdigit line = true /\ int_of_str line = Raise (ValueError msg))).
Proof.
  assert (H1 : Forall (valid_index demo_dice) [0; 1; 2])
    by (repeat constructor; cbn; lia).
  assert (H2 : Forall writable [0; 1; 2])
    by (apply writable_check; vm_compute; reflexivity).
  assert (H3 : Forall (fun d => Forall writable (Dice.faces d)) demo_dice)
    by (apply playable_faces_writable, demo_dice_playable).
  split; [exact H1 |]. split; [exact H2 |]. split; [exact H3 |].
  exact (user_choose_dice_outcomes (DiceGame.mk demo_dice None) [0; 1; 2]
           (demo_world ["7"; "?"; "1"; "0"]) H1 H2 H3).
Defined.

(** A line of superscript two passes [isdigit], and [int] raises on it. *)
Example user_choose_dice_superscript_two :
  isdigit superscript_two = true /\
  DiceGame.user_choose_dice (DiceGame.mk demo_dice None) [0; 1; 2]
    (demo_world ["7"; superscript_two; "0"]) =
  (Raise (ValueError "invalid literal for int() with base 10"),
   read_to (demo_world ["7"; superscript_two; "0"]) ["0"]
     [Line "Choose your dice:";
      Line "0 - [2, 2, 4, 4, 9, 9]";
      Line "1 - [1, 1, 6, 6, 8, 8]";
      Line "2 - [3, 3, 5, 5, 7, 7]";
      Prompt "Your selection: ";
      Line "Invalid selection. Try again.";
      Prompt "Your selection: "]).
Proof. split; vm_compute; reflexivity. Qed.

(** X9. [computer_choose_dice], on a non-empty list of valid dice indices,
    the faces of the dice being ints that [str] writes, returns the list
    without the first occurrence of the element that [random.choice] picked,
    having made one draw and printed one line, [I choose] followed by the
    faces of the die at that index and a full stop; on an empty list it
    raises [IndexError] and changes nothing. *)
Theorem computer_choose_dice_outcomes
    (self : DiceGame.t) (available_dice : list Z) (w : World) :
  Forall (valid_index (DiceGame.dice_list self)) available_dice ->
  Forall (fun d => Forall writable (Dice.faces d)) (DiceGame.dice_list self) ->
  (available_dice <> [] ->
   exists chosen remaining d,
     DiceGame.computer_choose_dice self available_dice w =
       (Ret remaining,
        drew w 1 [Line ("I choose " +:+ repr_of (Dice.faces d) +:+ ".")]) /\
     fst (random_choice available_dice w) = Ret chosen /\
     In chosen available_dice /\
     DiceGame.dice_list self !! Z.to_nat chosen = Some d /\
     list_remove chosen available_dice = Ret remaining /\
     available_dice ≡ₚ chosen :: remaining) /\
  DiceGame.computer_choose_dice self [] w = (Raise IndexError, w).
Proof.
  intros Hvalid Hfaces. split; [| reflexivity].
  intros Hne.
  destruct (computer_choose_dice_run self available_dice w Hvalid Hfaces Hne)
    as (c & rem & d & E & Hrc & Hin & Hlk & Hrm).
  exists c, rem, d.
  destruct (list_remove_In c available_dice Hin) as (rem' & Hrm' & Hperm).
  assert (rem' = rem) by congruence. subst rem'.
  repeat split; assumption.
Qed.

Lemma computer_choose_dice_outcomes_witness :
  exists chosen remaining d,
    DiceGame.computer_choose_dice (DiceGame.mk demo_dice None) [0; 1; 2]
      (demo_world []) =
      (Ret remaining,
       drew (demo_world []) 1
         [Line ("I choose " +:+ repr_of (Dice.faces d) +:+ ".")]) /\
    demo_dice !! Z.to_nat chosen = Some d /\
    [0; 1; 2] ≡ₚ chosen :: remaining.
Proof.
  destruct (computer_choose_dice_outcomes (DiceGame.mk demo_dice None)
              [0; 1; 2] (demo_world [])) as [H _].
  - repeat constructor; cbn; lia.
  - apply playable_faces_writable, demo_dice_playable.
  - destruct H as (c & rem & d & E & _ & _ & Hlk & _ & Hperm); [discriminate |].
    exists c, rem, d. split; [exact E |]. split; [exact Hlk | exact Hperm].
Defined.

(** *** The game as a whole *)

Section Safety.

Import DiceGame.

Lemma permitted_app (read rest : list string) (e : exn) :
  permitted rest e -> permitted (read ++ rest) e.
Proof.
  destruct e; cbn [permitted]; try tauto.
  intros (line & Hin & H). exists line.
  split; [apply in_or_app; right; exact Hin | exact H].
Qed.

Lemma ends_in_bind {A B} (Q : A -> Prop) (R : B -> Prop)
    (m : M A) (k : A -> M B) :
  ends_in Q m -> (forall a, Q a -> ends_in R (k a)) ->
  ends_in R (bind m k).
Proof.
  intros Hm Hk w. specialize (Hm w). unfold bind.
  destruct (m w) as [[a | e |] w1].
  - destruct Hm as [Ha (read & Hread)]. specialize (Hk a Ha w1).
    destruct (k a w1) as [[b | e |] w2].
    + destruct Hk as [Hb (read2 & Hread2)]. split; [exact Hb |].
      exists (read ++ read2). rewrite Hread, Hread2. apply List.app_assoc.
    + rewrite Hread. apply permitted_app. exact Hk.
    + exact I.
  - exact Hm.
  - exact I.
Qed.

Lemma ends_in_print (s : string) : ends_in (fun _ => True) (print s).
Proof. intros w. split; [exact I | exists []; reflexivity]. Qed.

Lemma ends_in_weaken {A} (Q Q' : A -> Prop) (m : M A) :
  (forall a, Q a -> Q' a) -> ends_in Q m -> ends_in Q' m.
Proof.
  intros HQ Hm w. specialize (Hm w).
  destruct (m w) as [[a | e |] w1]; [| exact Hm | exact I].
  split; [apply HQ |]; apply Hm.
Qed.

Lemma ends_in_lift {A} (Q : A -> Prop) (r : result A) (a : A) :
  r = Ret a -> Q a -> ends_in Q (lift r).
Proof. intros -> H w. split; [exact H | exists []; reflexivity]. Qed.

Lemma ends_in_input (prompt : string) :
  ends_in (fun _ => True) (input prompt).
Proof.
  intros w. unfold input. destruct (stdin w) as [| line rest]; [exact I |].
  split; [exact I | exists [line]; reflexivity].
Qed.

(** A round over a positive range is built without an exception, and [str]
    writes its committed value. *)
Lemma ends_in_init (fuel : nat) (range_max : Z) :
  0 < range_max ->
  ends_in (fun fp => FairPlay.range_max fp = range_max /\
                     writable (FairPlay.computer_number fp))
          (FairPlay.init fuel range_max).
Proof.
  intros Hpos w. pose proof (init_outcome fuel range_max w) as H.
  destruct (FairPlay.init fuel range_max w) as [[fp | e |] w1]; [| | exact I].
  - destruct H as (_ & Hrm & _ & _ & Hw & _ & _ & k & _ & ->).
    split; [split; assumption | exists []; reflexivity].
  - exfalso. destruct H as [[_ H] | [_ H]]; [lia |].
    pose proof ten_pow_limit_pos as Hp. revert H Hp.
    generalize (10 ^ 4300). intros L H Hp. lia.
Qed.

Lemma ends_in_selection (self : t) :
  ends_in (fun s => In s throw_options) (get_throw_selection self).
Proof.
  intros w.
  destruct (prompt_loop_n_outcome _ _ "Your selection: " _
              (get_throw_selection_body self) (S (length (stdin w))) w
              ltac:(lia))
    as (read & rest & out & Hsplit & Hres).
  change (get_throw_selection self w)
    with (prompt_loop_n (S (length (stdin w))) "Your selection: "
            (selection_body self) w).
  destruct Hres as [(s & _ & _ & E & _ & _ & Hopt) | (e & E & He)];
    rewrite E.
  - split; [| exists read; exact Hsplit].
    unfold str_in in Hopt. apply existsb_exists in Hopt.
    destruct Hopt as (x & Hx & Hxe). apply String.eqb_eq in Hxe. subst x.
    exact Hx.
  - destruct He as [(_ & _ & _ & ->) | [-> _]]; [left; reflexivity | exact I].
Qed.

(** The die of a player, when there are two playable dice. *)
Lemma playable_player_die (self : t) (player : string) :
  (2 <= length (dice_list self))%nat ->
  Forall playable (dice_list self) ->
  exists d,
    dice_list self !! (if String.eqb player "user" then 0 else 1)%nat = Some d /\
    playable d.
Proof.
  intros Hlen Hdice.
  destruct (lookup_lt_is_Some_2 (dice_list self)
              (if String.eqb player "user" then 0 else 1)%nat) as (d & Hd).
  { destruct (String.eqb player "user"); lia. }
  exists d. split; [exact Hd |].
  apply (proj1 (List.Forall_forall _ _) Hdice).
  apply list_elem_of_In, list_elem_of_lookup. eexists. exact Hd.
Qed.

Lemma ends_in_reveal (self : t) (fp : FairPlay.t) (user_input player : string)
    (d : Dice.t) :
  dice_list self !! (if String.eqb player "user" then 0 else 1)%nat = Some d ->
  playable d ->
  writable (FairPlay.computer_number fp) ->
  In user_input throw_options ->
  ends_in (fun throw => In throw (Dice.faces d))
          (get_throw_reveal self fp user_input player).
Proof.
  intros Hd Hplay Hc Hui w.
  destruct (get_throw_reveal_run self fp user_input player w d Hui Hd Hplay Hc)
    as (throw & u & _ & _ & Hin & E).
  rewrite E. split; [exact Hin | exists []; reflexivity].
Qed.

(** [get_throw] returns only a face of the die of the player. *)
Lemma ends_in_get_throw (fuel : nat) (self : t) (player : string) (d : Dice.t) :
  dice_list self !! (if String.eqb player "user" then 0 else 1)%nat = Some d ->
  playable d ->
  ends_in (fun throw => In throw (Dice.faces d)) (get_throw fuel self player).
Proof.
  intros Hd Hplay. unfold get_throw.
  apply (ends_in_bind (fun fp => FairPlay.range_max fp = 6 /\
                                 writable (FairPlay.computer_number fp)));
    [apply ends_in_init; lia |].
  intros fp [_ Hc].
  apply (ends_in_bind (fun _ => True)); [apply ends_in_print | intros _ _].
  apply (ends_in_bind (fun _ => True)); [apply ends_in_print | intros _ _].
  apply (ends_in_bind (fun _ => True)); [apply ends_in_print | intros _ _].
  apply (ends_in_bind (fun s => In s throw_options));
    [apply ends_in_selection |].
  intros ui Hui. apply ends_in_reveal; assumption.
Qed.

Lemma ends_in_play_throws (fuel : nat) (self : t) :
  (2 <= length (dice_list self))%nat ->
  Forall playable (dice_list self) ->
  ends_in (fun _ => True) (play_throws fuel self).
Proof.
  intros Hlen Hdice. unfold play_throws.
  destruct (playable_player_die self "user" Hlen Hdice) as (d0 & Hd0 & Hp0).
  destruct (playable_player_die self "computer" Hlen Hdice) as (d1 & Hd1 & Hp1).
  apply (ends_in_bind (fun throw => In throw (Dice.faces d0)));
    [apply ends_in_get_throw; assumption |].
  intros ut Hut. apply (proj1 (List.Forall_forall _ _) (proj2 Hp0)) in Hut.
  apply (ends_in_bind (fun throw => In throw (Dice.faces d1)));
    [apply ends_in_get_throw; assumption |].
  intros ct Hct. apply (proj1 (List.Forall_forall _ _) (proj2 Hp1)) in Hct.
  destruct (ut >? ct).
  { apply (ends_in_bind (fun _ => True));
      [exact (ends_in_lift _ _ _ (str_writable _ Hut) I) | intros u _].
    apply (ends_in_bind (fun _ => True));
      [exact (ends_in_lift _ _ _ (str_writable _ Hct) I) | intros c _].
    apply ends_in_print. }
  destruct (ut <? ct); [| apply ends_in_print].
  apply (ends_in_bind (fun _ => True));
    [exact (ends_in_lift _ _ _ (str_writable _ Hct) I) | intros c _].
  apply (ends_in_bind (fun _ => True));
    [exact (ends_in_lift _ _ _ (str_writable _ Hut) I) | intros u _].
  apply ends_in_print.
Qed.

Lemma ends_in_user_choose_dice (self : t) (available_dice : list Z) :
  Forall (valid_index (dice_list self)) available_dice ->
  Forall writable available_dice ->
  Forall (fun d => Forall writable (Dice.faces d)) (dice_list self) ->
  ends_in (one_less available_dice) (user_choose_dice self available_dice).
Proof.
  intros Hvalid Hwr Hfaces w.
  destruct (user_choose_dice_run self available_dice w Hvalid Hwr Hfaces)
    as (read & rest & out & Hsplit & Hres).
  destruct Hres as [(rem & c & _ & _ & E & _ & _ & _ & Hin & Hrm) | (e & E & He)];
    rewrite E.
  - split; [| exists read; exact Hsplit].
    exists c. destruct (list_remove_In c available_dice Hin) as (rem' & Hrm' & Hperm).
    assert (rem' = rem) by congruence. subst rem'. exact Hperm.
  - destruct He as [(before & line & Hread & [-> | [Hd Hint]]) | [-> _]];
      [left; reflexivity | | exact I].
    unfold int_of_str in Hint.
    destruct (int_literal line) eqn:Hl; [discriminate Hint |].
    injection Hint as <-. exists line. split; [| split; [exact Hd | exact Hl]].
    rewrite Hsplit, Hread. apply in_or_app. left. apply in_or_app. right.
    left. reflexivity.
Qed.

Lemma ends_in_computer_choose_dice (self : t) (available_dice : list Z) :
  Forall (valid_index (dice_list self)) available_dice ->
  Forall (fun d => Forall writable (Dice.faces d)) (dice_list self) ->
  available_dice <> [] ->
  ends_in (one_less available_dice) (computer_choose_dice self available_dice).
Proof.
  intros Hvalid Hfaces Hne w.
  destruct (computer_choose_dice_run self available_dice w Hvalid Hfaces Hne)
    as (c & rem & d & E & _ & Hin & _ & Hrm).
  rewrite E. split; [| exists []; reflexivity]. exists c.
  destruct (list_remove_In c available_dice Hin) as (rem' & Hrm' & Hperm).
  assert (rem' = rem) by congruence. subst rem'. exact Hperm.
Qed.

Lemma one_less_Forall (P : Z -> Prop) (available_dice remaining : list Z) :
  Forall P available_dice ->
  one_less available_dice remaining ->
  Forall P remaining /\ length available_dice = S (length remaining).
Proof.
  intros HP (c & Hperm). split.
  - rewrite Hperm in HP. apply Forall_cons_1 in HP. tauto.
  - rewrite Hperm. reflexivity.
Qed.

Lemma range_valid (dice_list : list Dice.t) :
  Forall (valid_index dice_list) (map Z.of_nat (seq 0 (length dice_list))).
Proof.
  apply List.Forall_forall. intros i Hi. apply in_map_iff in Hi.
  destruct Hi as (n & <- & Hn). apply in_seq in Hn. unfold valid_index. lia.
Qed.

(** [str] writes every index of a list, no list having [2^63] elements. *)
Lemma range_writable (n : nat) :
  Z.of_nat n < 2 ^ 63 -> Forall writable (map Z.of_nat (seq 0 n)).
Proof.
  intros Hn. apply List.Forall_forall. intros i Hi. apply in_map_iff in Hi.
  destruct Hi as (k & <- & Hk). apply in_seq in Hk. apply writable_256.
  assert (2 ^ 63 <= 2 ^ 256) by (apply Z.pow_le_mono_r; lia). lia.
Qed.

Lemma ends_in_play_game (fuel : nat) (dice : list Dice.t) (first : bool) :
  (2 <= length dice)%nat ->
  Z.of_nat (length dice) < 2 ^ 63 ->
  Forall playable dice ->
  ends_in (fun _ => True) (play_game fuel (mk dice (Some first))).
Proof.
  intros Hlen Hmax Hdice.
  pose proof (range_valid dice) as Hvalid.
  pose proof (range_writable _ Hmax) as Hwr.
  pose proof (playable_faces_writable _ Hdice) as Hfaces.
  assert (Hn : length (map Z.of_nat (seq 0 (length dice))) = length dice).
  { rewrite List.length_map, List.length_seq. reflexivity. }
  unfold play_game. cbn [user_turn_first dice_list].
  destruct first.
  - apply (ends_in_bind (one_less (map Z.of_nat (seq 0 (length dice))))).
    { apply ends_in_user_choose_dice; assumption. }
    intros rem Hrem. destruct (one_less_Forall _ _ _ Hvalid Hrem) as [Hv Hl].
    apply (ends_in_bind (fun _ => True)).
    { apply (ends_in_weaken (one_less rem)); [tauto |].
      apply ends_in_computer_choose_dice; [exact Hv | exact Hfaces |].
      intros ->. cbn [length] in Hl. lia. }
    intros _ _.
    apply (ends_in_bind (fun _ => True)); [apply ends_in_print | intros _ _].
    apply ends_in_play_throws; assumption.
  - apply (ends_in_bind (one_less (map Z.of_nat (seq 0 (length dice))))).
    { apply ends_in_computer_choose_dice; [exact Hvalid | exact Hfaces |].
      intros E. rewrite E in Hn. cbn [length] in Hn. lia. }
    intros rem Hrem. destruct (one_less_Forall _ _ _ Hvalid Hrem) as [Hv Hl].
    destruct (one_less_Forall _ _ _ Hwr Hrem) as [Hw _].
    apply (ends_in_bind (fun _ => True)).
    { apply (ends_in_weaken (one_less rem)); [tauto |].
      apply ends_in_user_choose_dice; assumption. }
    intros _ _.
    apply (ends_in_bind (fun _ => True)); [apply ends_in_print | intros _ _].
    apply ends_in_play_throws; assumption.
Qed.

Lemma ends_in_start_game (fuel : nat) (self : t) :
  (2 <= length (dice_list self))%nat ->
  Z.of_nat (length (dice_list self)) < 2 ^ 63 ->
  Forall playable (dice_list self) ->
  ends_in (fun _ => True) (start_game fuel self).
Proof.
  intros Hlen Hmax Hdice. unfold start_game.
  apply (ends_in_bind (fun fp => FairPlay.range_max fp = 2 /\
                                 writable (FairPlay.computer_number fp)));
    [apply ends_in_init; lia |].
  intros fp [Hrm Hc].
  apply (ends_in_bind (fun _ => True)); [apply ends_in_print | intros _ _].
  apply (ends_in_bind (fun _ => True)); [apply ends_in_input | intros line _].
  destruct (str_in line ["0"; "1"]) eqn:Hline; cbn [negb].
  - assert (Hu : exists u, int_of_str line = Ret u).
    { unfold str_in in Hline. cbn [existsb] in Hline.
      apply orb_true_iff in Hline. destruct Hline as [H | H].
      - apply String.eqb_eq in H. subst line. eexists. vm_compute. reflexivity.
      - apply orb_true_iff in H. destruct H as [H | H]; [| discriminate H].
        apply String.eqb_eq in H. subst line. eexists. vm_compute. reflexivity. }
    destruct Hu as (u & Hu).
    apply (ends_in_bind (fun _ => True)); [exact (ends_in_lift _ _ u Hu I) |].
    intros u' _.
    apply (ends_in_bind (fun _ => True)).
    { eapply ends_in_lift; [| exact I].
      apply verify_and_get_result_ok. rewrite Hrm. lia. }
    intros rk _.
    apply (ends_in_bind (fun _ => True));
      [exact (ends_in_lift _ _ _ (str_writable _ Hc) I) | intros c _].
    apply (ends_in_bind (fun _ => True)); [apply ends_in_print | intros _ _].
    destruct (fst rk =? 0);
      (apply (ends_in_bind (fun _ => True)); [apply ends_in_print | intros _ _]);
      apply ends_in_play_game; assumption.
  - apply (ends_in_bind (fun _ => True)); [apply ends_in_print | intros _ _].
    intros w. right. reflexivity.
Qed.

End Safety.

(** X10. A game on at least two dice (and fewer than [2^63], as every list
    has), each with at least one face and with faces that [str] writes,
    stops only in the ways its text provides for, whatever the generator
    holds and whatever is typed: it returns, or exits with status 0 or 1, or
    meets the end of the input, or lets escape the [ValueError] that [int]
    raises in [user_choose_dice] on a typed line that [isdigit] accepts and
    [int] refuses. It raises no [IndexError], [ZeroDivisionError] or
    [AttributeError], and no [ValueError] when every typed line that
    [isdigit] accepts is one that [int] reads. *)
Theorem start_game_stops_as_meant (fuel : nat) (self : DiceGame.t) (w : World) :
  (2 <= length (DiceGame.dice_list self))%nat ->
  Z.of_nat (length (DiceGame.dice_list self)) < 2 ^ 63 ->
  Forall playable (DiceGame.dice_list self) ->
  match fst (DiceGame.start_game fuel self w) with
  | Ret _ => True
  | Timeout => True
  | Raise (SystemExit code) => code = 0 \/ code = 1
  | Raise EOFError => True
  | Raise (ValueError _) =>
      exists line, In line (stdin w) /\ isdigit line = true /\
                   int_literal line = None
  | Raise _ => False
  end /\
  (Forall (fun line => isdigit line = true -> int_literal line <> None)
          (stdin w) ->
   match fst (DiceGame.start_game fuel self w) with
   | Ret _ => True
   | Timeout => True
   | Raise (SystemExit code) => code = 0 \/ code = 1
   | Raise e => e = EOFError
   end).
Proof.
  intros Hlen Hmax Hdice.
  pose proof (ends_in_start_game fuel self Hlen Hmax Hdice w) as H.
  destruct (DiceGame.start_game fuel self w) as [[a | e |] w1]; cbn [fst];
    [split; [exact I | intros _; exact I] | | split; [exact I | intros _; exact I]].
  destruct e; cbn [permitted] in H; try contradiction.
  - destruct H as (line & Hin & Hd & Hl). split.
    + exists line. split; [exact Hin |]. split; [exact Hd | exact Hl].
    + intros Hall.
      exfalso. exact (proj1 (List.Forall_forall _ _) Hall line Hin Hd Hl).
  - split; [exact I | intros _; reflexivity].
  - split; [exact H | intros _; exact H].
Qed.

Lemma start_game_stops_as_meant_witness :
  (2 <= length demo_dice)%nat /\
  Z.of_nat (length demo_dice) < 2 ^ 63 /\
  Forall playable demo_dice /\
  match fst (DiceGame.start_game 3 (DiceGame.mk demo_dice None)
               (demo_world ["1"; "?"; "7"; "1"; " 4 "; "X"])) with
  | Ret _ => True
  | Timeout => True
  | Raise (SystemExit code) => code = 0 \/ code = 1
  | Raise EOFError => True
  | Raise (ValueError _) =>
      exists line, In line ["1"; "?"; "7"; "1"; " 4 "; "X"] /\
                   isdigit line = true /\ int_literal line = None
  | Raise _ => False
  end.
Proof.
  assert (H1 : (2 <= length demo_dice)%nat) by (cbn; lia).
  assert (H2 : Z.of_nat (length demo_dice) < 2 ^ 63) by (cbn; lia).
  split; [exact H1 |]. split; [exact H2 |].
  split; [exact demo_dice_playable |].
  exact (proj1 (start_game_stops_as_meant 3 (DiceGame.mk demo_dice None)
                  (demo_world ["1"; "?"; "7"; "1"; " 4 "; "X"]) H1 H2
                  demo_dice_playable)).
Defined.

(** The [ValueError] does escape: superscript two typed when the dice are
    offered. *)
Example start_game_superscript_two :
  fst (DiceGame.start_game 3 (DiceGame.mk demo_dice None)
         (demo_world ["0"; superscript_two])) =
  Raise (ValueError "invalid literal for int() with base 10").
Proof. vm_compute. reflexivity. Qed.

(** *** Counting wins *)

Section WinCounts.

Import ProbabilityCalculator.

Lemma count_wins_cons_l (x : Z) (a b : list Z) :
  count_wins (x :: a) b =
  Z.of_nat (count (fun y => y <? x) b) + count_wins a b.
Proof.
  rewrite !count_wins_pairs. cbn [list_prod].
  rewrite count_app, count_map. cbn [fst snd]. lia.
Qed.

Lemma count_wins_nil_r (a : list Z) : count_wins a [] = 0.
Proof.
  induction a as [| x a IH]; [reflexivity |].
  rewrite count_wins_cons_l, IH. reflexivity.
Qed.

Lemma count_cons {A} (p : A -> bool) (x : A) (l : list A) :
  count p (x :: l) = ((if p x then 1 else 0) + count p l)%nat.
Proof. unfold count. cbn [List.filter]. destruct (p x); reflexivity. Qed.

Lemma count_wins_cons_r (a : list Z) (y : Z) (b : list Z) :
  count_wins a (y :: b) =
  Z.of_nat (count (fun x => y <? x) a) + count_wins a b.
Proof.
  induction a as [| x a IH].
  - reflexivity.
  - rewrite !count_wins_cons_l, IH, !count_cons. lia.
Qed.

Lemma count_trichotomy (x : Z) (b : list Z) :
  (count (fun y => Z.ltb y x) b + count (fun y => Z.ltb x y) b +
   count (fun y => Z.eqb x y) b = length b)%nat.
Proof.
  induction b as [| y b IH]; [reflexivity |].
  rewrite !count_cons. cbn [length].
  destruct (Z.ltb_spec y x), (Z.ltb_spec x y), (Z.eqb_spec x y); lia.
Qed.

Lemma ties_cons_l (x : Z) (a b : list Z) :
  ties (x :: a) b = Z.of_nat (count (fun y => x =? y) b) + ties a b.
Proof.
  unfold ties. cbn [list_prod]. rewrite count_app, count_map.
  cbn [fst snd]. lia.
Qed.

Lemma count_wins_sum (a b : list Z) :
  count_wins a b + count_wins b a + ties a b =
  Z.of_nat (length a * length b).
Proof.
  induction a as [| x a IH].
  - rewrite count_wins_nil_r. reflexivity.
  - rewrite count_wins_cons_l, count_wins_cons_r, ties_cons_l.
    pose proof (count_trichotomy x b) as H. cbn [length]. lia.
Qed.

Lemma count_wins_nonneg (a b : list Z) : 0 <= count_wins a b.
Proof. rewrite count_wins_pairs. lia. Qed.

Lemma count_wins_perm_l (a a' b : list Z) :
  a ≡ₚ a' -> count_wins a b = count_wins a' b.
Proof.
  induction 1 as [| x a a' _ IH | x y a | a a' a'' _ IH1 _ IH2].
  - reflexivity.
  - rewrite !count_wins_cons_l, IH. reflexivity.
  - rewrite !count_wins_cons_l. lia.
  - congruence.
Qed.

Lemma count_wins_perm_r (a b b' : list Z) :
  b ≡ₚ b' -> count_wins a b = count_wins a b'.
Proof.
  induction 1 as [| x b b' _ IH | x y b | b b' b'' _ IH1 _ IH2].
  - reflexivity.
  - rewrite !count_wins_cons_r, IH. reflexivity.
  - rewrite !count_wins_cons_r. lia.
  - congruence.
Qed.

End WinCounts.

(** X11. The win counts of two dice against each other and the number
    of tied face pairs add up to the number of face pairs, so each count lies
    between 0 and that number; for six-faced dice without a common value the
    two counts add up to 36. *)
Theorem count_wins_complement (faces_i faces_j : list Z) :
  ProbabilityCalculator.count_wins faces_i faces_j +
  ProbabilityCalculator.count_wins faces_j faces_i +
  ties faces_i faces_j = Z.of_nat (length faces_i * length faces_j) /\
  0 <= ProbabilityCalculator.count_wins faces_i faces_j
    <= Z.of_nat (length faces_i * length faces_j) /\
  (length faces_i = 6%nat -> length faces_j = 6%nat ->
   (forall x, In x faces_i -> ~ In x faces_j) ->
   ProbabilityCalculator.count_wins faces_i faces_j +
   ProbabilityCalculator.count_wins faces_j faces_i = 36).
Proof.
  pose proof (count_wins_sum faces_i faces_j) as Hsum.
  pose proof (count_wins_nonneg faces_i faces_j) as H1.
  pose proof (count_wins_nonneg faces_j faces_i) as H2.
  assert (Ht : 0 <= ties faces_i faces_j) by (unfold ties; lia).
  split; [exact Hsum |]. split; [lia |].
  intros Hi Hj Hdisj.
  assert (H0 : ties faces_i faces_j = 0).
  { unfold ties. rewrite count_none; [reflexivity |].
    intros [x y] Hxy. apply in_prod_iff in Hxy. destruct Hxy as [Hx Hy].
    cbn [fst snd]. destruct (Z.eqb_spec x y) as [-> | _]; [| reflexivity].
    exfalso. exact (Hdisj y Hx Hy). }
  rewrite H0, Hi, Hj in Hsum. lia.
Qed.

Lemma count_wins_complement_witness :
  ProbabilityCalculator.count_wins [2; 2; 4; 4; 9; 9] [1; 1; 6; 6; 8; 8] +
  ProbabilityCalculator.count_wins [1; 1; 6; 6; 8; 8] [2; 2; 4; 4; 9; 9] = 36.
Proof.
  apply (proj2 (proj2 (count_wins_complement [2; 2; 4; 4; 9; 9]
                                             [1; 1; 6; 6; 8; 8])));
    [reflexivity | reflexivity |].
  intros x Hx Hy. cbn [In] in Hx, Hy.
  repeat (destruct Hx as [<- | Hx]; [lia |]). exact Hx.
Defined.

(** *** The table does not depend on the order of the faces *)

Section FaceOrder.

Import ProbabilityCalculator.

Lemma table_ext (n : nat) (P P' : list (list pynum)) :
  length P = n -> Forall (fun row => length row = n) P ->
  length P' = n -> Forall (fun row => length row = n) P' ->
  (forall i j, cell P i j = cell P' i j) ->
  P = P'.
Proof.
  intros HP Hrows HP' Hrows' Hcell. apply list_eq. intros i.
  destruct (P !! i) as [row |] eqn:Hrow.
  - pose proof (lookup_lt_Some _ _ _ Hrow) as Hlt.
    destruct (lookup_lt_is_Some_2 P' i ltac:(lia)) as [row' Hrow'].
    rewrite Hrow'. f_equal. apply list_eq. intros j.
    specialize (Hcell i j). unfold cell in Hcell.
    rewrite Hrow, Hrow' in Hcell. exact Hcell.
  - apply lookup_ge_None in Hrow. symmetry. apply lookup_ge_None. lia.
Qed.

Lemma faces_at_perm (dice_list dice_list' : list Dice.t) (i : nat) :
  Forall2 (fun d d' => Dice.faces d ≡ₚ Dice.faces d') dice_list dice_list' ->
  faces_at dice_list i ≡ₚ faces_at dice_list' i.
Proof.
  intros H. unfold faces_at.
  destruct (dice_list !! i) as [d |] eqn:Hd.
  - destruct (Forall2_lookup_l _ _ _ _ _ H Hd) as (d' & Hd' & Hperm).
    rewrite Hd'. exact Hperm.
  - apply lookup_ge_None in Hd. rewrite (Forall2_length _ _ _ H) in Hd.
    apply lookup_ge_None in Hd. rewrite Hd. reflexivity.
Qed.

End FaceOrder.

(** X12. The table depends on the faces of each die as a multiset: two
    lists of dice whose faces are, die by die, the same up to order have the
    same table. *)
Theorem calculate_win_probabilities_face_order
    (dice_list dice_list' : list Dice.t) :
  Forall2 (fun d d' => Dice.faces d ≡ₚ Dice.faces d') dice_list dice_list' ->
  ProbabilityCalculator.calculate_win_probabilities dice_list =
  ProbabilityCalculator.calculate_win_probabilities dice_list'.
Proof.
  intros H. pose proof (Forall2_length _ _ _ H) as Hlen.
  destruct (calculate_win_probabilities_shape dice_list) as [HP Hrows].
  destruct (calculate_win_probabilities_shape dice_list') as [HP' Hrows'].
  rewrite <- Hlen in HP', Hrows'.
  apply (table_ext (length dice_list)); try assumption.
  intros i j. rewrite !calculate_win_probabilities_cell, <- Hlen.
  unfold stored.
  rewrite (count_wins_perm_l _ _ _ (faces_at_perm _ _ i H)).
  rewrite (count_wins_perm_r _ _ _ (faces_at_perm _ _ j H)).
  reflexivity.
Qed.

Lemma calculate_win_probabilities_face_order_witness :
  ProbabilityCalculator.calculate_win_probabilities
    [Dice.mk [2; 4; 2; 4; 9; 9]; Dice.mk [1; 1; 6; 6; 8; 8];
     Dice.mk [3; 5; 3; 5; 7; 7]] =
  ProbabilityCalculator.calculate_win_probabilities demo_dice.
Proof.
  apply calculate_win_probabilities_face_order.
  constructor; [cbn [Dice.faces]; apply perm_skip, perm_swap |].
  constructor; [reflexivity |].
  constructor; [cbn [Dice.faces]; apply perm_skip, perm_swap | constructor].
Defined.

(** *** The help table and a roll *)

Section Help.

Lemma print_rows_run (rows : list (list pynum)) (i : nat) (w : World) :
  CLI.print_rows i rows w =
  (Ret tt, wrote w (imap (fun k row => HelpRow (i + k) row) rows)).
Proof.
  revert i w. induction rows as [| row rows IH]; intros i w.
  - cbn. unfold ret, wrote. rewrite List.app_nil_r. destruct w; reflexivity.
  - cbn [CLI.print_rows]. unfold bind at 1. unfold emit at 1. cbv beta iota.
    rewrite IH, imap_cons.
    change (mkWorld (mt_tape w) (mt_pos w) (os_entropy w) (stdin w)
                    (stdout w ++ [HelpRow i row]))
      with (wrote w [HelpRow i row]).
    rewrite wrote_wrote. cbn [app]. rewrite Nat.add_0_r.
    do 3 f_equal. apply imap_ext. intros k r _. cbn. f_equal. lia.
Qed.

End Help.

(** X13. [display_help] never fails, reads nothing and draws nothing: it
    writes the title line, the line of column headings [Dice 0] ... and
    then, for each die in order, the row of the table that
    [calculate_win_probabilities] computes for it, as many rows as there
    are dice. *)
Theorem display_help_output (dice_list : list Dice.t) (w : World) :
  CLI.display_help dice_list w =
  (Ret tt,
   wrote w
     (Line (newline +:+ "Probability Table (Row dice beats Column dice):") ::
      Line ("   " +:+
            join " " (map (fun i => "Dice " +:+ decimal (Z.of_nat i))
                          (seq 0 (length dice_list)))) ::
      imap HelpRow
           (ProbabilityCalculator.calculate_win_probabilities dice_list))) /\
  length (imap HelpRow
            (ProbabilityCalculator.calculate_win_probabilities dice_list))
    = length dice_list.
Proof.
  split.
  - unfold CLI.display_help. unfold bind at 1. unfold print at 1, emit at 1.
    cbv beta iota. unfold bind at 1. unfold print at 1, emit at 1.
    cbv beta iota. rewrite print_rows_run.
    unfold wrote. cbn [mt_tape mt_pos os_entropy stdin stdout].
    rewrite <- !List.app_assoc. reflexivity.
  - rewrite length_imap. apply calculate_win_probabilities_shape.
Qed.

(** X14. [roll] on a die that [Dice(faces)] built returns one of these
    faces, the one that [random.choice] picks with one draw; it cannot
    fail. *)
Theorem dice_roll_returns_a_face (faces : list Z) (d : Dice.t) (w : World) :
  Dice.init faces = Ret d ->
  exists face,
    Dice.roll d w = (Ret face, drew w 1 []) /\ In face faces.
Proof.
  unfold Dice.init. destruct (Nat.eqb_spec (length faces) 6) as [Hlen | _];
    [| discriminate].
  intros H. injection H as <-. unfold Dice.roll. cbn [Dice.faces].
  apply random_choice_nonempty. intros ->. discriminate Hlen.
Qed.

Lemma dice_roll_returns_a_face_witness :
  Dice.init [2; 2; 4; 4; 9; 9] = Ret (Dice.mk [2; 2; 4; 4; 9; 9]) /\
  exists face,
    Dice.roll (Dice.mk [2; 2; 4; 4; 9; 9]) (demo_world []) =
      (Ret face, drew (demo_world []) 1 []) /\
    In face [2; 2; 4; 4; 9; 9].
Proof.
  assert (H : Dice.init [2; 2; 4; 4; 9; 9] = Ret (Dice.mk [2; 2; 4; 4; 9; 9]))
    by reflexivity.
  split; [exact H |].
  exact (dice_roll_returns_a_face _ _ (demo_world []) H).
Defined.

(** *** Building the game from the command line *)

Section Startup.

Variable int_error : string -> string.

Lemma ints_outcome (fields : list string) :
  match ints int_error fields with
  | Ret zs => mapM int_literal fields = Some zs
  | Raise e =>
      mapM int_literal fields = None /\
      exists field,
        In field fields /\ int_literal field = None /\
        e = ValueError (int_error field)
  | Timeout => False
  end.
Proof.
  induction fields as [| f fields IH]; [reflexivity |].
  cbn [ints]. change (mapM int_literal (f :: fields))
    with (z ← int_literal f; zs ← mapM int_literal fields; mret (z :: zs)).
  destruct (int_literal f) as [z |] eqn:Hf; cbn [mbind option_bind].
  - destruct (ints int_error fields) as [zs | e |].
    + rewrite IH. reflexivity.
    + destruct IH as (Hnone & field & Hin & Hfield & He).
      rewrite Hnone. split; [reflexivity |].
      exists field. split; [right; exact Hin | split; assumption].
    + exact IH.
  - split; [reflexivity |]. exists f.
    split; [left; reflexivity | split; [exact Hf | reflexivity]].
Qed.

Lemma dice_of_config_outcome (dice_config : list string) :
  match DiceGame.dice_of_config int_error dice_config with
  | Ret ds => Forall2 makes dice_config ds
  | Raise e =>
      exists accepted ds dice rest message,
        dice_config = accepted ++ dice :: rest /\
        Forall2 makes accepted ds /\
        refused_with int_error dice message /\ e = ValueError message
  | Timeout => False
  end.
Proof.
  induction dice_config as [| dice rest IH]; [constructor |].
  cbn [DiceGame.dice_of_config].
  pose proof (ints_outcome (split "," dice)) as Hints.
  destruct (ints int_error (split "," dice)) as [faces | e |];
    [| | exact Hints].
  - unfold Dice.init.
    destruct (Nat.eqb_spec (length faces) 6) as [Hlen | Hlen].
    + destruct (DiceGame.dice_of_config int_error rest) as [ds | e |].
      * constructor; [split; [exact Hints | exact Hlen] | exact IH].
      * destruct IH as (acc & ds & bad & rest' & msg & Hsplit & Hacc & Hbad & He).
        exists (dice :: acc), (Dice.mk faces :: ds), bad, rest', msg.
        split; [rewrite Hsplit; reflexivity |].
        split; [constructor; [split; [exact Hints | exact Hlen] | exact Hacc] |].
        split; assumption.
      * exact IH.
    + exists [], [], dice, rest, "Each dice must have exactly 6 faces."%string.
      split; [reflexivity |]. split; [constructor |].
      split; [| reflexivity]. left. exists faces.
      split; [exact Hints | split; [exact Hlen | reflexivity]].
  - destruct Hints as (Hnone & field & Hin & Hfield & He).
    exists [], [], dice, rest, (int_error field).
    split; [reflexivity |]. split; [constructor |].
    split; [| exact He]. right. split; [exact Hnone |].
    exists field. split; [exact Hin | split; [exact Hfield | reflexivity]].
Qed.

Lemma display_error_run (message : string) (w : World) :
  CLI.display_error message w = (Ret tt, wrote w (error_lines message)).
Proof.
  unfold CLI.display_error, error_lines, bind, print, emit, wrote.
  cbn [mt_tape mt_pos os_entropy stdin stdout].
  rewrite <- !List.app_assoc. reflexivity.
Qed.

End Startup.


(** X15. [DiceGame(dice_config)], on ASCII arguments, either returns a
    game, having written nothing, whose dice are in the order of the
    arguments, each made of the six integers that [int] reads in the
    comma-separated fields of its argument; or it exits with status 1 after
    the three lines of [display_error], at the first argument that is
    refused: one with a field that [int] refuses (the message is that
    [ValueError]'s) or, all fields read, with a number of fields other than 6.
    No [ValueError] escapes, nothing is read and nothing is drawn. *)
Theorem dice_game_init_outcomes
    (int_error : string -> string) (dice_config : list string) (w : World) :
  Forall (fun dice => ascii_text dice = true) dice_config ->
  match DiceGame.init int_error dice_config w with
  | (Ret game, w') =>
      w' = w /\ DiceGame.user_turn_first game = None /\
      Forall2 makes dice_config (DiceGame.dice_list game)
  | (Raise e, w') =>
      e = SystemExit 1 /\
      exists accepted ds dice rest message,
        dice_config = accepted ++ dice :: rest /\
        Forall2 makes accepted ds /\
        refused_with int_error dice message /\
        w' = wrote w (error_lines message)
  | (Timeout, _) => False
  end.
Proof.
  intros _. unfold DiceGame.init.
  pose proof (dice_of_config_outcome int_error dice_config) as H.
  destruct (DiceGame.dice_of_config int_error dice_config) as [ds | e |];
    [| | exact H].
  - cbn. split; [reflexivity |]. split; [reflexivity | exact H].
  - destruct H as (acc & ds & bad & rest & msg & Hsplit & Hacc & Hbad & ->).
    unfold bind. rewrite display_error_run. cbn.
    split; [reflexivity |]. exists acc, ds, bad, rest, msg.
    repeat split; assumption.
Qed.

Lemma dice_game_init_outcomes_witness :
  Forall (fun dice => ascii_text dice = true)
         ["2,2,4,4,9,9"; "1,1,6,6,8"; "3,3,5,5,7,x"] /\
  match DiceGame.init (fun s => s) ["2,2,4,4,9,9"; "1,1,6,6,8"; "3,3,5,5,7,x"]
          (demo_world []) with
  | (Ret game, w') =>
      w' = demo_world [] /\ DiceGame.user_turn_first game = None /\
      Forall2 makes ["2,2,4,4,9,9"; "1,1,6,6,8"; "3,3,5,5,7,x"]
              (DiceGame.dice_list game)
  | (Raise e, w') =>
      e = SystemExit 1 /\
      exists accepted ds dice rest message,
        ["2,2,4,4,9,9"; "1,1,6,6,8"; "3,3,5,5,7,x"] = accepted ++ dice :: rest /\
        Forall2 makes accepted ds /\
        refused_with (fun s => s) dice message /\
        w' = wrote (demo_world []) (error_lines message)
  | (Timeout, _) => False
  end.
Proof.
  assert (H : Forall (fun dice => ascii_text dice = true)
                     ["2,2,4,4,9,9"; "1,1,6,6,8"; "3,3,5,5,7,x"])
    by (repeat constructor).
  split; [exact H |].
  exact (dice_game_init_outcomes (fun s => s)
           ["2,2,4,4,9,9"; "1,1,6,6,8"; "3,3,5,5,7,x"] (demo_world []) H).
Defined.

Section RoundTrip.

Variable int_error : string -> string.

Lemma ints_str (faces : list Z) :
  Forall (fun f => (decimal_digits f <= int_max_str_digits)%nat) faces ->
  ints int_error (map decimal faces) = Ret faces.
Proof.
  induction 1 as [| f faces Hf _ IH]; [reflexivity |].
  cbn [map ints]. rewrite (int_literal_str f Hf), IH. reflexivity.
Qed.

Lemma config_round_trip (faces : list Z) :
  faces <> [] ->
  Forall (fun f => (decimal_digits f <= int_max_str_digits)%nat) faces ->
  ints int_error (split "," (join "," (map decimal faces))) = Ret faces.
Proof.
  intros Hne Hfaces. destruct faces as [| f faces]; [contradiction |].
  cbn [map]. rewrite (split_join "," (decimal f) (map decimal faces)).
  - exact (ints_str (f :: faces) Hfaces).
  - apply List.Forall_forall. intros p Hp.
    change (In p (map decimal (f :: faces))) in Hp.
    apply in_map_iff in Hp. destruct Hp as (z & <- & _). apply str_no_comma.
Qed.

Lemma dice_of_config_round_trip (dice : list (list Z)) :
  Forall (fun faces =>
            length faces = 6%nat /\
            Forall (fun f => (decimal_digits f <= int_max_str_digits)%nat) faces)
         dice ->
  DiceGame.dice_of_config int_error
    (map (fun faces => join "," (map decimal faces)) dice) =
  Ret (map Dice.mk dice).
Proof.
  induction 1 as [| faces dice [Hlen Hfaces] _ IH]; [reflexivity |].
  cbn [map DiceGame.dice_of_config].
  rewrite config_round_trip; [| intros ->; discriminate Hlen | exact Hfaces].
  unfold Dice.init. rewrite Hlen. cbn [Nat.eqb]. rewrite IH. reflexivity.
Qed.

End RoundTrip.

(** X16. Writing each die as the decimal numerals of its six faces joined
    by commas, and giving these strings to [DiceGame], yields the dice again,
    in order, provided no face has more digits than the interpreter's limit
    on decimal conversions. *)
Theorem dice_game_init_round_trip
    (int_error : string -> string) (dice : list (list Z)) (w : World) :
  Forall (fun faces =>
            length faces = 6%nat /\
            Forall (fun f => (decimal_digits f <= int_max_str_digits)%nat) faces)
         dice ->
  DiceGame.init int_error (map (fun faces => join "," (map decimal faces)) dice) w =
  (Ret (DiceGame.mk (map Dice.mk dice) None), w).
Proof.
  intros H. unfold DiceGame.init.
  rewrite (dice_of_config_round_trip int_error dice H). reflexivity.
Qed.

Lemma dice_game_init_round_trip_witness :
  Forall (fun faces =>
            length faces = 6%nat /\
            Forall (fun f => (decimal_digits f <= int_max_str_digits)%nat) faces)
         [[2; 2; 4; 4; 9; 9]; [-1; 0; 6; 60; 800; 8]] /\
  DiceGame.init (fun s => s) ["2,2,4,4,9,9"; "-1,0,6,60,800,8"] (demo_world []) =
  (Ret (DiceGame.mk [Dice.mk [2; 2; 4; 4; 9; 9]; Dice.mk [-1; 0; 6; 60; 800; 8]]
                    None),
   demo_world []).
Proof.
  assert (H : Forall (fun faces =>
                length faces = 6%nat /\
                Forall (fun f => (decimal_digits f <= int_max_str_digits)%nat)
                       faces)
              [[2; 2; 4; 4; 9; 9]; [-1; 0; 6; 60; 800; 8]]).
  { apply List.Forall_forall. intros faces Hin. cbn [In] in Hin.
    destruct Hin as [<- | [<- | []]];
      (split; [reflexivity |]; apply List.Forall_forall; intros f Hf;
       apply Nat.leb_le; cbn [In] in Hf;
       repeat (destruct Hf as [<- | Hf]; [vm_compute; reflexivity |]);
       destruct Hf). }
  split; [exact H |].
  exact (dice_game_init_round_trip (fun s => s) _ (demo_world []) H).
Defined.

(** *** The script *)

Section Script.

Variable int_error : string -> string.

Lemma init_cases (dice_config : list string) (w : World) :
  (exists game,
     DiceGame.init int_error dice_config w = (Ret game, w) /\
     Forall2 makes dice_config (DiceGame.dice_list game)) \/
  (exists message,
     DiceGame.init int_error dice_config w =
     (Raise (SystemExit 1), wrote w (error_lines message))).
Proof.
  unfold DiceGame.init.
  pose proof (dice_of_config_outcome int_error dice_config) as H.
  destruct (DiceGame.dice_of_config int_error dice_config) as [ds | e |];
    [| | destruct H].
  - left. exists (DiceGame.mk ds None). split; [reflexivity | exact H].
  - right. destruct H as (_ & _ & _ & _ & msg & _ & _ & _ & ->).
    exists msg. unfold bind. rewrite display_error_run. reflexivity.
Qed.

Lemma makes_six_faces (dice_config : list string) (dice : list Dice.t) :
  Forall2 makes dice_config dice ->
  length dice = length dice_config /\
  Forall (fun d => length (Dice.faces d) = 6%nat) dice.
Proof.
  intros H. split; [symmetry; exact (Forall2_length _ _ _ H) |].
  induction H as [| c d cs ds [_ Hlen] _ IH]; constructor; assumption.
Qed.

Lemma main_usage (fuel : nat) (argv : list string) (w : World) :
  (length argv < 4)%nat ->
  main int_error fuel argv w =
  (Raise (SystemExit 1),
   wrote w (error_lines "At least 3 dice configurations are required.")).
Proof.
  intros Hlen. unfold main. rewrite (proj2 (Nat.ltb_lt _ _) Hlen).
  unfold bind. rewrite display_error_run. reflexivity.
Qed.

Lemma main_game (fuel : nat) (argv : list string) (w : World) (game : DiceGame.t) :
  (4 <= length argv)%nat ->
  DiceGame.init int_error (tail argv) w = (Ret game, w) ->
  main int_error fuel argv w = DiceGame.start_game fuel game w.
Proof.
  intros Hlen Hinit. unfold main. rewrite (proj2 (Nat.ltb_ge _ _) Hlen).
  unfold bind at 1. rewrite Hinit. reflexivity.
Qed.

Lemma config_faces_writable (dice : string) (faces : list Z) :
  config_faces dice = Some faces -> Forall writable faces.
Proof.
  unfold config_faces. intros H. apply mapM_Some in H.
  induction H as [| field z fields zs Hz _ IH]; constructor;
    [exact (int_literal_writable field z Hz) | exact IH].
Qed.

(** The dice that [DiceGame] makes are playable: six faces each, which
    [int] read and so [str] writes. *)
Lemma makes_playable (dice_config : list string) (dice : list Dice.t) :
  Forall2 makes dice_config dice -> Forall playable dice.
Proof.
  intros H. induction H as [| c d cs ds [Hfaces Hlen] _ IH]; constructor;
    [| exact IH].
  split; [intros E; rewrite E in Hlen; discriminate Hlen |].
  exact (config_faces_writable c _ Hfaces).
Qed.

End Script.

(** X17. The script, with fewer than three dice on the command line,
    writes the three lines of [display_error] and exits with status 1,
    reading and drawing nothing; with dice that [DiceGame] accepts it plays
    [start_game] on at least three dice of six faces each; and in every case
    ([sys.argv], as every list, having fewer than [2^63] elements) it stops
    only by returning, by exiting with status 0 or 1, at the end of the
    input, or with the [ValueError] that [int] raises in [user_choose_dice]
    on a typed line that [isdigit] accepts and [int] refuses: no
    [IndexError], [ZeroDivisionError] or [AttributeError] escapes. *)
Theorem main_outcomes
    (int_error : string -> string) (fuel : nat) (argv : list string)
    (w : World) :
  ((length argv < 4)%nat ->
   main int_error fuel argv w =
   (Raise (SystemExit 1),
    wrote w (error_lines "At least 3 dice configurations are required."))) /\
  (forall game,
     (4 <= length argv)%nat ->
     DiceGame.init int_error (tail argv) w = (Ret game, w) ->
     main int_error fuel argv w = DiceGame.start_game fuel game w /\
     (3 <= length (DiceGame.dice_list game))%nat /\
     Forall (fun d => length (Dice.faces d) = 6%nat) (DiceGame.dice_list game)) /\
  (Z.of_nat (length argv) < 2 ^ 63 ->
   match fst (main int_error fuel argv w) with
   | Ret _ => True
   | Timeout => True
   | Raise (SystemExit code) => code = 0 \/ code = 1
   | Raise EOFError => True
   | Raise (ValueError _) =>
       exists line, In line (stdin w) /\ isdigit line = true /\
                    int_literal line = None
   | Raise _ => False
   end).
Proof.
  assert (Hgame : forall game,
            (4 <= length argv)%nat ->
            DiceGame.init int_error (tail argv) w = (Ret game, w) ->
            (3 <= length (DiceGame.dice_list game) <= length argv)%nat /\
            Forall (fun d => length (Dice.faces d) = 6%nat)
                   (DiceGame.dice_list game)).
  { intros game Hlen Hinit.
    destruct (init_cases int_error (tail argv) w)
      as [(g & Hg & Hmakes) | (msg & Hmsg)]; [| congruence].
    assert (g = game) by congruence. subst g.
    destruct (makes_six_faces _ _ Hmakes) as [Hl H6].
    split; [| exact H6]. rewrite Hl.
    destruct argv as [| a argv']; cbn [tail length] in *; lia. }
  split; [apply main_usage |]. split.
  - intros game Hlen Hinit. split; [apply main_game; assumption |].
    destruct (Hgame game Hlen Hinit) as [H3 H6]. split; [lia | exact H6].
  - intros Hmax. destruct (Nat.lt_ge_cases (length argv) 4) as [Hlt | Hge].
    + rewrite main_usage by exact Hlt. cbn. right. reflexivity.
    + destruct (init_cases int_error (tail argv) w)
        as [(g & Hg & Hmakes) | (msg & Hmsg)].
      * rewrite (main_game int_error fuel argv w g Hge Hg).
        destruct (Hgame g Hge Hg) as [H3 _].
        assert (Hmax' : Z.of_nat (length (DiceGame.dice_list g)) < 2 ^ 63)
          by lia.
        pose proof (ends_in_start_game fuel g ltac:(lia) Hmax'
                      (makes_playable _ _ Hmakes) w) as H.
        destruct (DiceGame.start_game fuel g w) as [[a | e |] w1]; cbn [fst];
          [exact I | | exact I].
        destruct e; exact H.
      * unfold main. rewrite (proj2 (Nat.ltb_ge _ _) Hge).
        unfold bind at 1. rewrite Hmsg. cbn. right. reflexivity.
Qed.

Lemma main_outcomes_witness :
  main (fun s => s) 1 ["game.py"; "2,2,4,4,9,9"; "1,1,6,6,8,8"]
       (demo_world ["0"]) =
  (Raise (SystemExit 1),
   wrote (demo_world ["0"])
         (error_lines "At least 3 dice configurations are required.")) /\
  match fst (main (fun s => s) 3
               ["game.py"; "2,2,4,4,9,9"; "1,1,6,6,8,8"; "3,3,5,5,7,7"]
               (demo_world ["0"; superscript_two])) with
  | Ret _ => True
  | Timeout => True
  | Raise (SystemExit code) => code = 0 \/ code = 1
  | Raise EOFError => True
  | Raise (ValueError _) =>
      exists line, In line ["0"; superscript_two] /\ isdigit line = true /\
                   int_literal line = None
  | Raise _ => False
  end.
Proof.
  split.
  - apply (proj1 (main_outcomes (fun s => s) 1 _ (demo_world ["0"]))).
    cbn. lia.
  - apply (proj2 (proj2 (main_outcomes (fun s => s) 3
                           ["game.py"; "2,2,4,4,9,9"; "1,1,6,6,8,8";
                            "3,3,5,5,7,7"]
                           (demo_world ["0"; superscript_two])))).
    cbn. lia.
Defined.

(** The script lets the [ValueError] escape: superscript two typed when
    the dice are offered. *)
Example main_superscript_two :
  fst (main (fun s => s) 3
         ["game.py"; "2,2,4,4,9,9"; "1,1,6,6,8,8"; "3,3,5,5,7,7"]
         (demo_world ["0"; superscript_two])) =
  Raise (ValueError "invalid literal for int() with base 10").
Proof. vm_compute. reflexivity. Qed.

(** X18. A line of ASCII text, within the interpreter's limit on decimal
    conversions, that [isdigit] accepts is a numeral that [int] reads: the
    guard [choice.isdigit()] of [user_choose_dice] keeps [int(choice)] from
    raising, and the value is the non-negative integer that the model of the
    selection takes. *)
Theorem isdigit_guards_int (line : string) :
  typed_line line = true ->
  isdigit line = true ->
  exists z, int_literal line = Some z /\ int_of_str line = Ret z /\ 0 <= z.
Proof.
  intros Htyped Hdigit.
  unfold typed_line in Htyped. apply andb_true_iff in Htyped.
  destruct Htyped as [Hascii Hlen]. apply Nat.leb_le in Hlen.
  rewrite string_length_chars in Hlen.
  unfold isdigit in Hdigit.
  destruct (list_ascii_of_string line) as [| c cs] eqn:Hchars;
    [discriminate Hdigit |].
  rewrite (isdigit_ascii _ Hascii) in Hdigit.
  destruct (digits_parse line) as (d & Hd); [rewrite Hchars; exact Hdigit |].
  assert (Hc : is_digit_char c = true).
  { cbn [forallb] in Hdigit. apply andb_true_iff in Hdigit. tauto. }
  destruct (digit_char_class c Hc) as (_ & Hminus & Hplus & _).
  assert (Hlit : int_literal line = Some (Z.of_uint d)).
  { unfold int_literal. rewrite Hchars.
    pose proof (strip_around [] (c :: cs) Hdigit ltac:(discriminate) I) as Hs.
    cbn [app] in Hs. rewrite Hs.
    cbv zeta. rewrite Hminus, Hplus. cbn [orb].
    rewrite digits_ok_digits by exact Hdigit.
    rewrite filter_digits by exact Hdigit.
    assert (Hlim : (int_max_str_digits <? length (c :: cs))%nat = false)
      by (apply Nat.ltb_ge; exact Hlen).
    rewrite Hlim.
    rewrite <- Hchars, string_of_list_ascii_of_string, Hd. reflexivity. }
  exists (Z.of_uint d). split; [exact Hlit |]. split.
  - unfold int_of_str. rewrite Hlit. reflexivity.
  - unfold Z.of_uint. lia.
Qed.

Lemma isdigit_guards_int_witness :
  typed_line "0042" = true /\ isdigit "0042" = true /\
  exists z, int_literal "0042" = Some z /\ int_of_str "0042" = Ret z /\ 0 <= z.
Proof.
  assert (H1 : typed_line "0042" = true) by reflexivity.
  assert (H2 : isdigit "0042" = true) by reflexivity.
  split; [exact H1 |]. split; [exact H2 |].
  exact (isdigit_guards_int "0042" H1 H2).
Defined.

(** X19. [generate_secure_random(bits)] returns [bits // 8] bytes, the
    next ones of the generator, for every [bits >= 0] (none for fewer than 8
    bits, 32 for 256), and raises [ValueError] for negative [bits], leaving
    the generator as it was. *)
Theorem generate_secure_random_length (bits : Z) (w : World) :
  (0 <= bits ->
   exists bs,
     RandomGenerator.generate_secure_random bits w =
       (Ret bs, drew w (Z.to_nat (bits / 8)) []) /\
     Z.of_nat (length bs) = bits / 8 /\
     bs = map (mt_tape w) (seq (mt_pos w) (Z.to_nat (bits / 8)))) /\
  (bits < 0 ->
   RandomGenerator.generate_secure_random bits w =
     (Raise (ValueError "number of bits must be non-negative"), w)).
Proof.
  unfold RandomGenerator.generate_secure_random, randbytes. split.
  - intros Hbits.
    assert (Hq : 0 <= bits / 8) by (apply Z.div_pos; lia).
    destruct (Z.ltb_spec (bits / 8) 0) as [Hneg | _]; [lia |].
    eexists. split; [| split; [| reflexivity]].
    + unfold drew. rewrite List.app_nil_r. reflexivity.
    + rewrite List.length_map, List.length_seq. lia.
  - intros Hbits.
    assert (Hq : bits / 8 < 0) by (apply Z.div_lt_upper_bound; lia).
    destruct (Z.ltb_spec (bits / 8) 0) as [_ | Hge]; [reflexivity | lia].
Qed.

Lemma generate_secure_random_length_witness :
  (0 <= 20 /\
   exists bs,
     RandomGenerator.generate_secure_random 20 (demo_world []) =
       (Ret bs, drew (demo_world []) 2 []) /\
     Z.of_nat (length bs) = 2) /\
  (-1 < 0 /\
   RandomGenerator.generate_secure_random (-1) (demo_world []) =
     (Raise (ValueError "number of bits must be non-negative"), demo_world [])).
Proof.
  assert (H1 : 0 <= 20) by lia.
  assert (H2 : -1 < 0) by lia.
  split; split; [exact H1 | | exact H2 |].
  - destruct (proj1 (generate_secure_random_length 20 (demo_world [])) H1)
      as (bs & E & Hlen & _).
    exists bs. split; [exact E | exact Hlen].
  - exact (proj2 (generate_secure_random_length (-1) (demo_world [])) H2).
Defined.

(** *** The two throws and the verdict *)

Section Verdict.

Import DiceGame.






End Verdict.



(** *** The dice of the two players *)

Section Choices.

Import DiceGame.

Lemma user_choose_dice_returns (self : t) (available_dice remaining : list Z)
    (w w' : World) :
  user_choose_dice self available_dice w = (Ret remaining, w') ->
  exists chosen,
    In chosen available_dice /\
    list_remove chosen available_dice = Ret remaining.
Proof.
  intros E. unfold user_choose_dice in E. rewrite bind_print in E.
  unfold bind at 1 in E.
  destruct (print_available self available_dice _) as [[[] | e |] w0];
    try discriminate E.
  unfold prompt_loop in E. apply prompt_loop_n_returns in E.
  destruct E as (line & wa & wb & Hb).
  exact (choice_body_returns _ _ _ _ _ _ Hb).
Qed.

Lemma computer_choose_dice_returns (self : t)
    (available_dice remaining : list Z) (w w' : World) :
  computer_choose_dice self available_dice w = (Ret remaining, w') ->
  exists chosen,
    In chosen available_dice /\
    list_remove chosen available_dice = Ret remaining.
Proof.
  intros E.
  destruct available_dice as [| a l] eqn:Ea.
  - unfold computer_choose_dice in E. unfold bind at 1 in E.
    rewrite random_choice_empty in E. discriminate E.
  - rewrite <- Ea in *.
    destruct (random_choice_nonempty available_dice w) as (c & Hrc & Hin).
    { rewrite Ea. discriminate. }
    exists c. split; [exact Hin |].
    unfold computer_choose_dice in E. unfold bind at 1 in E. rewrite Hrc in E.
    unfold bind at 1 in E. unfold lift at 1 in E.
    destruct (getitem (dice_list self) c) as [d | |]; try discriminate E.
    unfold bind at 1 in E. unfold lift at 1 in E.
    destruct (repr_list (Dice.faces d)) as [s | |]; try discriminate E.
    rewrite bind_print in E. unfold lift in E.
    injection E as -> _. reflexivity.
Qed.

Lemma choice_returns (self : t) (first second : bool)
    (available_dice remaining : list Z) (w w' : World) :
  (if xorb first second then computer_choose_dice self available_dice w
   else user_choose_dice self available_dice w) = (Ret remaining, w') ->
  exists chosen,
    In chosen available_dice /\
    list_remove chosen available_dice = Ret remaining /\
    available_dice ≡ₚ chosen :: remaining.
Proof.
  intros E.
  assert (H : exists chosen,
            In chosen available_dice /\
            list_remove chosen available_dice = Ret remaining).
  { destruct (xorb first second).
    - exact (computer_choose_dice_returns _ _ _ _ _ E).
    - exact (user_choose_dice_returns _ _ _ _ _ E). }
  destruct H as (c & Hin & Hrm). exists c.
  split; [exact Hin |]. split; [exact Hrm |].
  destruct (list_remove_In c available_dice Hin) as (rem' & Hrm' & Hperm).
  assert (rem' = remaining) by congruence. subst rem'. exact Hperm.
Qed.

Lemma all_dice_NoDup (self : t) : List.NoDup (all_dice self).
Proof.
  unfold all_dice. apply Finite.Injective_map_NoDup.
  - intros a b Hab. lia.
  - apply List.seq_NoDup.
Qed.

End Choices.

(** X21. [play_game] lets the user choose first when [user_turn_first]
    is set and the computer otherwise, the second choice being made in the
    list that the first one left. Whoever chooses first, the two players
    take different dice: when both choices return, the die removed by the
    first and the die removed by the second are two distinct valid indices,
    neither is left in the list, and the list has two elements fewer than
    there are dice. *)
Theorem play_game_choices_differ
    (fuel : nat) (dice : list Dice.t) (user_turn_first : bool)
    (w w1 w2 : World) (left_1 left_2 : list Z) :
  let self := DiceGame.mk dice (Some user_turn_first) in
  DiceGame.play_game fuel self w =
    (available_dice <- first_choice self user_turn_first (all_dice self) ;;
     _ <- second_choice self user_turn_first available_dice ;;
     print "It's time for the game!" ;;;
     DiceGame.play_throws fuel self) w /\
  (first_choice self user_turn_first (all_dice self) w = (Ret left_1, w1) ->
   second_choice self user_turn_first left_1 w1 = (Ret left_2, w2) ->
   exists one other,
     list_remove one (all_dice self) = Ret left_1 /\
     list_remove other left_1 = Ret left_2 /\
     one <> other /\
     valid_index dice one /\ valid_index dice other /\
     ~ In one left_2 /\ ~ In other left_2 /\
     all_dice self ≡ₚ one :: other :: left_2 /\
     (length left_2 + 2 = length dice)%nat).
Proof.
  intros self. split.
  { unfold DiceGame.play_game, first_choice, second_choice, all_dice, self.
    cbn [DiceGame.user_turn_first DiceGame.dice_list].
    destruct user_turn_first; reflexivity. }
  change dice with (DiceGame.dice_list self).
  intros E1 E2.
  assert (Hvalid : Forall (valid_index (DiceGame.dice_list self)) (all_dice self))
    by apply range_valid.
  destruct (choice_returns self user_turn_first true (all_dice self) left_1 w w1)
    as (one & Hin1 & Hrm1 & Hp1).
  { revert E1. unfold first_choice. destruct user_turn_first; intros E1; exact E1. }
  assert (Hvalid1 : Forall (valid_index (DiceGame.dice_list self)) left_1).
  { rewrite Hp1 in Hvalid. apply Forall_cons_1 in Hvalid. tauto. }
  destruct (choice_returns self user_turn_first false left_1 left_2 w1 w2)
    as (other & Hin2 & Hrm2 & Hp2).
  { revert E2. unfold second_choice. destruct user_turn_first; intros E2; exact E2. }
  assert (Hp : all_dice self ≡ₚ one :: other :: left_2).
  { rewrite Hp1, Hp2. reflexivity. }
  pose proof (Permutation.Permutation_NoDup Hp (all_dice_NoDup self)) as Hnd.
  apply List.NoDup_cons_iff in Hnd. destruct Hnd as [Hn1 Hnd].
  apply List.NoDup_cons_iff in Hnd. destruct Hnd as [Hn2 _].
  exists one, other.
  split; [exact Hrm1 |]. split; [exact Hrm2 |].
  split; [intros ->; apply Hn1; left; reflexivity |].
  split; [exact (proj1 (List.Forall_forall _ _) Hvalid one Hin1) |].
  split; [exact (proj1 (List.Forall_forall _ _) Hvalid1 other Hin2) |].
  split; [intros Hin; apply Hn1; right; exact Hin |].
  split; [exact Hn2 |]. split; [exact Hp |].
  apply Permutation.Permutation_length in Hp. cbn [length] in Hp.
  unfold all_dice in Hp. rewrite List.length_map, List.length_seq in Hp. lia.
Qed.

Lemma play_game_choices_differ_witness :
  exists one other,
    list_remove one [0; 1; 2] = Ret [0; 2] /\
    list_remove other [0; 2] = Ret [0] /\
    one <> other /\ ~ In one [0] /\ ~ In other [0].
Proof.
  pose (self := DiceGame.mk demo_dice (Some true)).
  pose (w := demo_world ["1"; "x"]).
  pose (w1 := snd (first_choice self true (all_dice self) w)).
  pose (w2 := snd (second_choice self true [0; 2] w1)).
  assert (F1 : fst (first_choice self true (all_dice self) w) = Ret [0; 2])
    by (vm_compute; reflexivity).
  assert (F2 : fst (second_choice self true [0; 2] w1) = Ret [0])
    by (vm_compute; reflexivity).
  assert (E1 : first_choice self true (all_dice self) w = (Ret [0; 2], w1)).
  { rewrite <- F1. apply surjective_pairing. }
  assert (E2 : second_choice self true [0; 2] w1 = (Ret [0], w2)).
  { rewrite <- F2. apply surjective_pairing. }
  destruct (proj2 (play_game_choices_differ 1 demo_dice true w w1 w2
                     [0; 2] [0]) E1 E2)
    as (one & other & H1 & H2 & Hne & _ & _ & Hn1 & Hn2 & _).
  exists one, other.
  split; [exact H1 |]. split; [exact H2 |]. split; [exact Hne |].
  split; [exact Hn1 | exact Hn2].
Defined.
